(** * Node catalog extraction and caching: a shallow embedding

    This development embeds the node-catalog engine of the Autopilot MCP
    server:

    - [ast-eval.ts]          the constrained evaluator [evalAst], with
                             [isRegisterTypeCallee] and [extractStringLiteral];
    - [parse-nodes-html.ts]  the registration finder
                             [parseEditorJsForRegisterTypes] and the catalog
                             builder [parseNodesHtml];
    - [catalog.ts]           the cache [NodeCatalog] ([refresh], [getCatalog],
                             [list], [getNode], [search]);
    - [utils.ts]             the transport wrapper [callNodeRed], with
                             [joinUrl], and the flow summary
                             [formatFlowsOutput].

    Conventions of the embedding.

    - A JavaScript value is a [JsVal].  Objects are lists of own properties
      in the order [Object.keys] enumerates them.  Prototype links are not
      represented: a write to the key [__proto__] of an object created by a
      literal creates no own property and is dropped ([obj_set]); reads of
      inherited properties are outside the model, and so are catalog type
      keys that name a member of [Object.prototype] ([inherited_member]):
      the properties about tables of records carry that as a hypothesis.
    - No value is callable.  The conversion of an object to a string
      therefore throws when the object has a [toString] of its own
      ([String_throws]); [js_String] is the result of the conversions that
      do not throw.
    - A number is [NaN], an infinity, or a finite rational; finite
      arithmetic is exact.
    - Strings are sequences of one-byte characters.
    - The third-party pieces (acorn, cheerio, the regular-expression engine,
      string collation, the clock and the network) are fields of the class
      [Platform]; the walk order of acorn-walk's [simple] is the function
      [walk_simple]. *)

From Stdlib Require Import ZArith QArith String Ascii Sorted Permutation.
From Stdlib Require Import Qminmax Qround Lqa DecimalString OrderedTypeEx.
From stdpp Require Import base option list strings gmap.

Set Warnings "-register-all,-automation".

Local Open Scope string_scope.
Local Open Scope list_scope.
Local Open Scope Z_scope.

(** ** Values *)

Inductive number :=
| NaN
| PosInf
| NegInf
| Finite (q : Q).

Inductive JsVal :=
| VUndef
| VNull
| VBool (b : bool)
| VNum (n : number)
| VStr (s : string)
| VBigInt (z : Z)
| VRegExp (pattern flags : string)
| VArr (elems : list JsVal)
| VObj (props : list (string * JsVal)).

Inductive JsType :=
| TUndefined | TObject | TBoolean | TNumber | TString | TBigInt.

Definition typeof (v : JsVal) : JsType :=
  match v with
  | VUndef => TUndefined
  | VNull => TObject
  | VBool _ => TBoolean
  | VNum _ => TNumber
  | VStr _ => TString
  | VBigInt _ => TBigInt
  | VRegExp _ _ => TObject
  | VArr _ => TObject
  | VObj _ => TObject
  end.

(** [typeof v === "object"] *)
Definition type_is_object (v : JsVal) : bool :=
  match typeof v with
  | TObject => true
  | _ => false
  end.

Definition number_is_zero (n : number) : bool :=
  match n with
  | Finite q => Qeq_bool q 0
  | _ => false
  end.

(** JavaScript truthiness ([Boolean(v)], [!v], [v || w], [if (v)]). *)
Definition truthy (v : JsVal) : bool :=
  match v with
  | VUndef | VNull => false
  | VBool b => b
  | VNum NaN => false
  | VNum n => negb (number_is_zero n)
  | VStr s => negb (String.eqb s "")
  | VBigInt z => negb (Z.eqb z 0)
  | VRegExp _ _ | VArr _ | VObj _ => true
  end.

Definition nullish (v : JsVal) : bool :=
  match v with
  | VUndef | VNull => true
  | _ => false
  end.

(** [a ?? b] *)
Definition coalesce (a b : JsVal) : JsVal := if nullish a then b else a.

(** [a || b] *)
Definition js_or (a b : JsVal) : JsVal := if truthy a then a else b.

Definition number_neg (n : number) : number :=
  match n with
  | NaN => NaN
  | PosInf => NegInf
  | NegInf => PosInf
  | Finite q => Finite (Qopp q)
  end.

(** ** Strings *)

Definition Z_to_string (z : Z) : string := NilZero.string_of_int (Z.to_int z).

(** [s.slice(a, b)] for non-negative [a] and [b]. *)
Definition str_slice (s : string) (a b : nat) : string :=
  substring a (b - a) s.

Definition str_join (sep : string) (l : list string) : string :=
  match l with
  | [] => ""
  | x :: r => fold_left (fun acc y => acc +:+ sep +:+ y) r x
  end.

Fixpoint str_prefix (p s : string) : bool :=
  match p, s with
  | EmptyString, _ => true
  | String a p', String b s' => Ascii.eqb a b && str_prefix p' s'
  | String _ _, EmptyString => false
  end.

(** [s.indexOf(q)]: [None] stands for [-1]. *)
Fixpoint str_index_from (i : nat) (q s : string) : option nat :=
  if str_prefix q s then Some i
  else match s with
       | EmptyString => None
       | String _ s' => str_index_from (S i) q s'
       end.

Definition str_index_of (q s : string) : option nat := str_index_from 0 q s.

Definition str_includes (s q : string) : bool :=
  match str_index_of q s with
  | Some _ => true
  | None => false
  end.

Fixpoint str_drop (n : nat) (s : string) : string :=
  match n, s with
  | O, _ => s
  | S n', String _ s' => str_drop n' s'
  | S _, EmptyString => EmptyString
  end.

(** ** Objects as ordered own-property lists *)

Section Props.
Context {A : Type}.

Fixpoint prop_lookup (k : string) (o : list (string * A)) : option A :=
  match o with
  | [] => None
  | (k', v) :: r => if String.eqb k k' then Some v else prop_lookup k r
  end.

Fixpoint prop_replace (k : string) (v : A) (o : list (string * A))
  : list (string * A) :=
  match o with
  | [] => []
  | (k', v') :: r =>
      if String.eqb k k' then (k, v) :: r else (k', v') :: prop_replace k v r
  end.

Definition prop_keys (o : list (string * A)) : list string := map fst o.
Definition prop_values (o : list (string * A)) : list A := map snd o.
End Props.

Definition is_digit (c : ascii) : bool :=
  let n := nat_of_ascii c in (48 <=? n)%nat && (n <=? 57)%nat.

Fixpoint all_digits (s : string) : bool :=
  match s with
  | EmptyString => true
  | String c r => is_digit c && all_digits r
  end.

Fixpoint digits_value (acc : N) (s : string) : N :=
  match s with
  | EmptyString => acc
  | String c r => digits_value (acc * 10 + (N.of_nat (nat_of_ascii c) - 48))%N r
  end.

(** A property key is an array index when it is the canonical decimal form
    of an integer below [2^32 - 1]; such keys are enumerated first, in
    ascending numeric order. *)
Definition array_index (k : string) : option N :=
  match k with
  | EmptyString => None
  | String c r =>
      if all_digits k
           && (negb (Ascii.eqb c "0"%char) || String.eqb r "")
           && (String.length k <=? 10)%nat
           && (digits_value 0 k <? 4294967295)%N
      then Some (digits_value 0 k)
      else None
  end.

Section PropOrder.
Context {A : Type}.

(** Position of a fresh array-index key: before the first key that is not
    an array index or is a larger one. *)
Fixpoint prop_insert_index (n : N) (k : string) (v : A)
    (o : list (string * A)) : list (string * A) :=
  match o with
  | [] => [(k, v)]
  | (k', v') :: r =>
      match array_index k' with
      | Some m =>
          if (m <? n)%N then (k', v') :: prop_insert_index n k v r
          else (k, v) :: (k', v') :: r
      | None => (k, v) :: (k', v') :: r
      end
  end.

(** [o[k] = v] on an object that has no setter for [k]. *)
Definition prop_set (k : string) (v : A) (o : list (string * A))
  : list (string * A) :=
  match prop_lookup k o with
  | Some _ => prop_replace k v o
  | None =>
      match array_index k with
      | Some n => prop_insert_index n k v o
      | None => o ++ [(k, v)]
      end
  end.
End PropOrder.

(** [o[k] = v] on an object created by an object literal: [__proto__] is an
    accessor of [Object.prototype], the write creates no own property.
    (When [v] is an object or [null] the write changes the prototype of
    [o] instead; prototypes are not represented, see the conventions.) *)
Definition obj_set (k : string) (v : JsVal) (o : list (string * JsVal))
  : list (string * JsVal) :=
  if String.eqb k "__proto__" then o else prop_set k v o.


(** [v[k]] for an own data property; [undefined] otherwise.  This is what
    the code reads on an object whose prototype is [Object.prototype], as
    the engine provides it, for a key that is none of its members; reads
    of inherited properties are not represented, see the conventions. *)
Definition js_get (v : JsVal) (k : string) : JsVal :=
  match v with
  | VObj o => default VUndef (prop_lookup k o)
  | _ => VUndef
  end.

(** [Object.assign(target, source)] / the spread [{...target, ...source}] on
    literal-created objects. *)
Definition obj_assign (target source : list (string * JsVal))
  : list (string * JsVal) :=
  fold_left (fun o kv => obj_set (fst kv) (snd kv) o) source target.

(** ** Syntax trees (ESTree, as acorn produces them) *)

Record span := Span { start : nat; end_ : nat }.

(** One constructor per node kind the engine inspects; every other kind is
    an [OtherNode] carrying its [type] and the children that acorn-walk's
    base walker descends into.  A [Literal] carries its [value]; array
    holes are [None]; a template quasi carries its cooked text when it has
    one. *)
Inductive node :=
| Literal (sp : span) (value : JsVal)
| Identifier (sp : span) (name : string)
| ArrayExpression (sp : span) (elements : list (option node))
| ObjectExpression (sp : span) (properties : list node)
| Property (sp : span) (computed : bool) (key value : node)
| UnaryExpression (sp : span) (operator : string) (argument : node)
| TemplateLiteral (sp : span) (quasis : list (option string))
                  (expressions : list node)
| FunctionExpression (sp : span) (id : option node) (params : list node)
                     (body : node)
| ArrowFunctionExpression (sp : span) (params : list node) (body : node)
| CallExpression (sp : span) (callee : node) (arguments : list node)
| MemberExpression (sp : span) (object property : node) (computed : bool)
| BinaryExpression (sp : span) (operator : string) (left right : node)
| LogicalExpression (sp : span) (operator : string) (left right : node)
| ConditionalExpression (sp : span) (test consequent alternate : node)
| NewExpression (sp : span) (callee : node) (arguments : list node)
| FunctionDeclaration (sp : span) (id : option node) (params : list node)
                      (body : node)
| VariableDeclaration (sp : span) (declarations : list node)
| VariableDeclarator (sp : span) (id : node) (init : option node)
| BlockStatement (sp : span) (body : list node)
| ExpressionStatement (sp : span) (expression : node)
| Program (sp : span) (body : list node)
| OtherNode (sp : span) (type : string) (children : list node).

Definition node_span (n : node) : span :=
  match n with
  | Literal sp _ | Identifier sp _ | ArrayExpression sp _
  | ObjectExpression sp _ | Property sp _ _ _ | UnaryExpression sp _ _
  | TemplateLiteral sp _ _ | FunctionExpression sp _ _ _
  | ArrowFunctionExpression sp _ _ | CallExpression sp _ _
  | MemberExpression sp _ _ _ | BinaryExpression sp _ _ _
  | LogicalExpression sp _ _ _ | ConditionalExpression sp _ _ _
  | NewExpression sp _ _ | FunctionDeclaration sp _ _ _
  | VariableDeclaration sp _ | VariableDeclarator sp _ _
  | BlockStatement sp _ | ExpressionStatement sp _ | Program sp _
  | OtherNode sp _ _ => sp
  end.

Definition node_type (n : node) : string :=
  match n with
  | Literal _ _ => "Literal"
  | Identifier _ _ => "Identifier"
  | ArrayExpression _ _ => "ArrayExpression"
  | ObjectExpression _ _ => "ObjectExpression"
  | Property _ _ _ _ => "Property"
  | UnaryExpression _ _ _ => "UnaryExpression"
  | TemplateLiteral _ _ _ => "TemplateLiteral"
  | FunctionExpression _ _ _ _ => "FunctionExpression"
  | ArrowFunctionExpression _ _ _ => "ArrowFunctionExpression"
  | CallExpression _ _ _ => "CallExpression"
  | MemberExpression _ _ _ _ => "MemberExpression"
  | BinaryExpression _ _ _ _ => "BinaryExpression"
  | LogicalExpression _ _ _ _ => "LogicalExpression"
  | ConditionalExpression _ _ _ _ => "ConditionalExpression"
  | NewExpression _ _ _ => "NewExpression"
  | FunctionDeclaration _ _ _ _ => "FunctionDeclaration"
  | VariableDeclaration _ _ => "VariableDeclaration"
  | VariableDeclarator _ _ _ => "VariableDeclarator"
  | BlockStatement _ _ => "BlockStatement"
  | ExpressionStatement _ _ => "ExpressionStatement"
  | Program _ _ => "Program"
  | OtherNode _ t _ => t
  end.

(** ** The platform *)

(** A [<script>] element as cheerio presents it: three attributes and the
    inner HTML. *)
Record script_element := ScriptElement {
  attr_type : option string;
  attr_help_name : option string;
  attr_template_name : option string;
  inner_html : option string
}.

(** What [fetch] does with one request: the promise rejects, or a response
    arrives.  [payload] is what [res.json()] / [res.text()] hands back, as
    [String(...)] renders it; [None] when reading it fails. *)
Inductive response :=
| TransportFault (reason : string)
| HttpResponse (ok : bool) (status : nat) (statusText : string)
               (body : string) (payload : option string).

Class Platform := {
  (** [String(n)] for a number *)
  numberToString : number -> string;
  (** [a.localeCompare(b)]: negative, zero or positive *)
  localeCompare : string -> string -> Z;
  (** successive matches of the module delimiter pattern: name and body *)
  matchModules : string -> list (string * string);
  (** cheerio: the [<script>] elements of a fragment, in document order *)
  scriptElements : string -> list script_element;
  (** cheerio: [$.text()] of a document; [None] when loading throws *)
  cheerioText : string -> option string;
  (** cheerio: the [id] attributes of the elements that carry one *)
  cheerioIds : string -> option (list string);
  (** [s.replace(/<[^>]+>/g, " ")] *)
  stripTags : string -> string;
  (** [acorn.parse]; [None] when it throws *)
  acornParse : string -> option node;
  (** the [k]-th reading of [Date.now()] *)
  clock : nat -> Z;
  (** the outcome of the [k]-th request *)
  upstream : nat -> response
}.

(** ** ast-eval.ts *)

(** Whether [String(v)] (and likewise the conversion of [v] to a property
    key, or to an element of [join]) throws a [TypeError]: it does on an
    object with an own [toString], since no value of the embedding is
    callable and [Object.prototype.valueOf] gives the object back, and on
    an array one of whose elements, [null] and [undefined] apart, cannot
    be converted. *)
Fixpoint String_throws (v : JsVal) : bool :=
  match v with
  | VArr l => existsb (fun x => negb (nullish x) && String_throws x) l
  | VObj o => existsb (fun kv => String.eqb (fst kv) "toString") o
  | _ => false
  end.

Section AstEval.
Context `{Platform}.

(** [String(v)], for a value whose conversion does not throw (see
    [String_throws]): an object then has the [toString] of
    [Object.prototype]. *)
Fixpoint js_String (v : JsVal) : string :=
  match v with
  | VUndef => "undefined"
  | VNull => "null"
  | VBool true => "true"
  | VBool false => "false"
  | VNum n => numberToString n
  | VStr s => s
  | VBigInt z => Z_to_string z
  | VRegExp p f => "/" +:+ p +:+ "/" +:+ f
  | VArr l =>
      str_join ","
        (map (fun x => if nullish x then "" else js_String x) l)
  | VObj _ => "[object Object]"
  end.

Definition isPropertyKeyToString (prop : node) : option string :=
  match prop with
  | Property _ computed key _ =>
      if computed then None
      else match key with
           | Identifier _ name => Some name
           | Literal _ value => Some (js_String value)
           | _ => None
           end
  | _ => None
  end.

Definition sliceSource (src : string) (n : node) : string :=
  if String.eqb src "" then ""
  else str_slice src (start (node_span n)) (end_ (node_span n)).

Definition ref_placeholder (name : string) : JsVal :=
  VObj [("kind", VStr "ref"); ("name", VStr name)].

Definition source_placeholder (kind source : string) : JsVal :=
  VObj [("kind", VStr kind); ("source", VStr source)].

Definition unknown_placeholder (type source : string) : JsVal :=
  VObj [("kind", VStr "unknown"); ("type", VStr type);
        ("source", VStr source)].

Definition template_primitive (v : JsVal) : bool :=
  match typeof v with
  | TString | TNumber | TBoolean => true
  | _ => false
  end.

(** The loop of the [TemplateLiteral] case over the quasis, with the
    values of the embedded expressions; [None] when it leaves through the
    [return] of the placeholder. *)
Fixpoint template_concat (quasis : list (option string))
    (values : list JsVal) (s : string) : option string :=
  match quasis with
  | [] => Some s
  | q :: quasis' =>
      let s1 := s +:+ default "" q in
      match values with
      | [] => template_concat quasis' [] s1
      | ev :: values' =>
          if template_primitive ev
          then template_concat quasis' values' (s1 +:+ js_String ev)
          else None
      end
  end.

Fixpoint evalAst (n : node) (env : gmap string JsVal) (src : string)
  : JsVal :=
  match n with
  | Literal _ value => value
  | Identifier _ name =>
      match env !! name with
      | Some v => v
      | None => ref_placeholder name
      end
  | ArrayExpression _ elements =>
      VArr (map (fun el => match el with
                           | Some e => evalAst e env src
                           | None => VNull
                           end) elements)
  | ObjectExpression _ properties =>
      VObj (fold_left
              (fun out prop =>
                 match prop with
                 | Property _ _ _ value =>
                     match isPropertyKeyToString prop with
                     | Some key =>
                         if String.eqb key "" then out
                         else obj_set key (evalAst value env src) out
                     | None => out
                     end
                 | _ => out
                 end) properties [])
  | UnaryExpression _ operator argument =>
      match evalAst argument env src, operator with
      | VNum v, "-" => VNum (number_neg v)
      | VNum v, "+" => VNum v
      | VBool v, "!" => VBool (negb v)
      | _, _ => source_placeholder "expr" (sliceSource src n)
      end
  | TemplateLiteral _ quasis expressions =>
      match template_concat quasis
              (map (fun e => evalAst e env src) expressions) "" with
      | Some s => VStr s
      | None => source_placeholder "template" (sliceSource src n)
      end
  | FunctionExpression _ _ _ _
  | ArrowFunctionExpression _ _ _ =>
      source_placeholder "function" (sliceSource src n)
  | CallExpression _ _ _
  | MemberExpression _ _ _ _
  | BinaryExpression _ _ _ _
  | LogicalExpression _ _ _ _
  | ConditionalExpression _ _ _ _
  | NewExpression _ _ _ =>
      source_placeholder "expr" (sliceSource src n)
  | _ => unknown_placeholder (node_type n) (sliceSource src n)
  end.

(** [evalAst(node, env, src)] where [node] may be missing. *)
Definition evalAst_opt (n : option node) (env : gmap string JsVal)
    (src : string) : JsVal :=
  match n with
  | Some n => evalAst n env src
  | None => VNull
  end.

Definition member_name (prop : node) : string :=
  match prop with
  | Identifier _ name => name
  | Literal _ value => js_String value
  | _ => ""
  end.

Definition isRegisterTypeCallee (callee : node) : bool :=
  match callee with
  | MemberExpression _ obj prop _ =>
      String.eqb (member_name prop) "registerType"
      && match obj with
         | MemberExpression _ root objProp _ =>
             String.eqb (member_name objProp) "nodes"
             && match root with
                | Identifier _ name => String.eqb name "RED"
                | _ => false
                end
         | _ => false
         end
  | _ => false
  end.

Definition extractStringLiteral (n : option node) : option string :=
  match n with
  | Some (Literal _ (VStr s)) => Some s
  | _ => None
  end.
End AstEval.

(** ** acorn-walk *)

(** The nodes of a tree in the order in which [walk.simple] reaches their
    visitors with the base walker: the children a base walker descends
    into, left to right, before the node itself. *)
Fixpoint walk_simple (n : node) : list node :=
  let walk_list :=
    fix go (l : list node) : list node :=
      match l with
      | [] => []
      | x :: r => walk_simple x ++ go r
      end in
  let walk_holes :=
    fix go (l : list (option node)) : list node :=
      match l with
      | [] => []
      | Some x :: r => walk_simple x ++ go r
      | None :: r => go r
      end in
  let walk_opt (o : option node) : list node :=
    match o with
    | Some x => walk_simple x
    | None => []
    end in
  match n with
  | Literal _ _ | Identifier _ _ => []
  | ArrayExpression _ elements => walk_holes elements
  | ObjectExpression _ properties => walk_list properties
  | Property _ computed key value =>
      (if computed then walk_simple key else []) ++ walk_simple value
  | UnaryExpression _ _ argument => walk_simple argument
  | TemplateLiteral _ _ expressions => walk_list expressions
  | FunctionExpression _ _ params body
  | ArrowFunctionExpression _ params body
  | FunctionDeclaration _ _ params body =>
      walk_list params ++ walk_simple body
  | CallExpression _ callee arguments
  | NewExpression _ callee arguments =>
      walk_simple callee ++ walk_list arguments
  | MemberExpression _ object property computed =>
      walk_simple object ++ (if computed then walk_simple property else [])
  | BinaryExpression _ _ lhs rhs
  | LogicalExpression _ _ lhs rhs =>
      walk_simple lhs ++ walk_simple rhs
  | ConditionalExpression _ test consequent alternate =>
      walk_simple test ++ walk_simple consequent ++ walk_simple alternate
  | VariableDeclaration _ declarations => walk_list declarations
  | VariableDeclarator _ id init => walk_simple id ++ walk_opt init
  | BlockStatement _ body | Program _ body => walk_list body
  | ExpressionStatement _ expression => walk_simple expression
  | OtherNode _ _ children => walk_list children
  end ++ [n].

(** ** parse-nodes-html.ts: the registration finder *)

Record wrapper := Wrapper {
  w_params : list string;
  w_typeArg : node;
  w_optionsArg : node
}.

Record found_entry := Found {
  f_type : string;
  f_options : JsVal;
  f_optionsSource : string
}.

Section Finder.
Context `{Platform}.

(** [node.name] of an identifier *)
Definition node_name (n : node) : string :=
  match n with
  | Identifier _ name => name
  | _ => ""
  end.

(** [(node.params || []).map(p => p.type === "Identifier" ? p.name : null)
    .filter(Boolean)] *)
Definition param_names (params : list node) : list string :=
  omap (fun p => match p with
                 | Identifier _ name =>
                     if String.eqb name "" then None else Some name
                 | _ => None
                 end) params.

Definition is_register_call (n : node) : bool :=
  match n with
  | CallExpression _ callee _ => isRegisterTypeCallee callee
  | _ => false
  end.

Definition call_arguments (n : node) : list node :=
  match n with
  | CallExpression _ _ arguments => arguments
  | _ => []
  end.

Definition maybeRegisterWrapper (fnName : option string)
    (params : list string) (bodyNode : node)
    (wrappers : gmap string wrapper) : gmap string wrapper :=
  match fnName with
  | None => wrappers
  | Some fnName =>
      if String.eqb fnName "" then wrappers
      else
        match find is_register_call (walk_simple bodyNode) with
        | None => wrappers
        | Some innerCall =>
            let args := call_arguments innerCall in
            match args !! 0%nat, args !! 1%nat with
            | Some (Identifier tsp tname as typeArg),
              Some (ObjectExpression _ _ as optionsArg) =>
                if bool_decide (tname ∈ params)
                then <[fnName := Wrapper params typeArg optionsArg]> wrappers
                else wrappers
            | _, _ => wrappers
            end
        end
  end.

(** The two visitors of the first walk. *)
Definition discover_wrapper (wrappers : gmap string wrapper) (n : node)
  : gmap string wrapper :=
  match n with
  | FunctionDeclaration _ id params body =>
      maybeRegisterWrapper (node_name <$> id) (param_names params) body
        wrappers
  | VariableDeclarator _ (Identifier _ name) (Some init) =>
      if String.eqb name "" then wrappers
      else
        match init with
        | FunctionExpression _ _ params body
        | ArrowFunctionExpression _ params body =>
            match body with
            | BlockStatement _ _ =>
                maybeRegisterWrapper (Some name) (param_names params) body
                  wrappers
            | _ => wrappers
            end
        | _ => wrappers
        end
  | _ => wrappers
  end.

(** [env[p] = v] on the environment object *)
Definition env_set (p : string) (v : JsVal) (env : gmap string JsVal)
  : gmap string JsVal :=
  if String.eqb p "__proto__" then env else <[p := v]> env.

(** The loop binding the wrapper's parameters to the call's arguments. *)
Fixpoint bind_params (params : list string) (args : list node)
    (src : string) (env : gmap string JsVal) : gmap string JsVal :=
  match params with
  | [] => env
  | p :: params' =>
      bind_params params' (tail args) src
        (env_set p (evalAst_opt (head args) ∅ src) env)
  end.

(** The [CallExpression] visitor of the second walk. *)
Definition resolve_call (jsSource : string) (wrappers : gmap string wrapper)
    (found : list found_entry) (n : node) : list found_entry :=
  match n with
  | CallExpression _ callee args =>
      if isRegisterTypeCallee callee then
        let typeArg := args !! 0%nat in
        let optionsArg := args !! 1%nat in
        match extractStringLiteral typeArg with
        | None => found
        | Some type =>
            if String.eqb type "" then found
            else
              let optionsSource :=
                match optionsArg with
                | Some o =>
                    str_slice jsSource (start (node_span o))
                      (end_ (node_span o))
                | None => ""
                end in
              let options := evalAst_opt optionsArg ∅ jsSource in
              found ++ [Found type options optionsSource]
        end
      else
        match callee with
        | Identifier _ name =>
            match wrappers !! name with
            | None => found
            | Some w =>
                let env := bind_params (w_params w) args jsSource ∅ in
                match env !! node_name (w_typeArg w) with
                | Some (VStr typeValue) =>
                    if String.eqb typeValue "" then found
                    else
                      let o := w_optionsArg w in
                      let optionsSource :=
                        str_slice jsSource (start (node_span o))
                          (end_ (node_span o)) in
                      let options := evalAst o env jsSource in
                      found ++ [Found typeValue options optionsSource]
                | _ => found
                end
            end
        | _ => found
        end
  | _ => found
  end.

Definition parseEditorJsForRegisterTypes (jsSource : string)
  : list found_entry * list string :=
  match acornParse jsSource with
  | None => ([], ["acorn_parse_failed"])
  | Some ast =>
      let wrappers := fold_left discover_wrapper (walk_simple ast) ∅ in
      let found :=
        fold_left (resolve_call jsSource wrappers) (walk_simple ast) [] in
      (found, [])
  end.
End Finder.

(** ** String methods used by the builder and the cache *)

Definition lower_char (c : ascii) : ascii :=
  let n := nat_of_ascii c in
  if ((65 <=? n) && (n <=? 90)
      || (192 <=? n) && (n <=? 222) && negb (n =? 215))%nat
  then ascii_of_nat (n + 32)
  else c.

(** [s.toLowerCase()] *)
Fixpoint toLowerCase (s : string) : string :=
  match s with
  | EmptyString => EmptyString
  | String c r => String (lower_char c) (toLowerCase r)
  end.

Definition is_space (c : ascii) : bool :=
  let n := nat_of_ascii c in
  ((9 <=? n) && (n <=? 13) || (n =? 32) || (n =? 160))%nat.

Fixpoint trim_start (s : string) : string :=
  match s with
  | String c r => if is_space c then trim_start r else s
  | EmptyString => EmptyString
  end.

Fixpoint trim_end (s : string) : string :=
  match s with
  | EmptyString => EmptyString
  | String c r =>
      match trim_end r with
      | EmptyString => if is_space c then EmptyString else String c EmptyString
      | r' => String c r'
      end
  end.

(** [s.trim()] *)
Definition trim (s : string) : string := trim_end (trim_start s).

(** [s.split(sep)] for a one-character separator *)
Fixpoint str_split (sep : ascii) (s : string) : list string :=
  match s with
  | EmptyString => [EmptyString]
  | String c r =>
      if Ascii.eqb c sep then EmptyString :: str_split sep r
      else match str_split sep r with
           | [] => [String c EmptyString]
           | x :: l => String c x :: l
           end
  end.

Definition lf : ascii := ascii_of_nat 10.
Definition cr : ascii := ascii_of_nat 13.
Definition tab : ascii := ascii_of_nat 9.
Definition space : ascii := ascii_of_nat 32.

(** [.replace(/\r\n/g, "\n")] *)
Fixpoint replace_crlf (s : string) : string :=
  match s with
  | EmptyString => EmptyString
  | String c r =>
      match r with
      | String d _ =>
          if Ascii.eqb c cr && Ascii.eqb d lf then replace_crlf r
          else String c (replace_crlf r)
      | EmptyString => String c EmptyString
      end
  end.

Definition is_blank (c : ascii) : bool := Ascii.eqb c space || Ascii.eqb c tab.

(** [.replace(/[ \t]+/g, " ")] *)
Fixpoint collapse_blanks (s : string) : string :=
  match s with
  | EmptyString => EmptyString
  | String c r =>
      if is_blank c then
        match r with
        | String d _ =>
            if is_blank d then collapse_blanks r
            else String space (collapse_blanks r)
        | EmptyString => String space EmptyString
        end
      else String c (collapse_blanks r)
  end.

(** [.replace(/\n{3,}/g, "\n\n")] *)
Fixpoint collapse_newlines (s : string) : string :=
  match s with
  | String a (String b (String c _ as r2) as r1) =>
      if Ascii.eqb a lf && Ascii.eqb b lf && Ascii.eqb c lf
      then collapse_newlines r1
      else String a (collapse_newlines r1)
  | String a r => String a (collapse_newlines r)
  | EmptyString => EmptyString
  end.

Definition normalizeWhitespace (s : string) : string :=
  trim (collapse_newlines (collapse_blanks (replace_crlf s))).

Definition str_starts_with (s p : string) : bool := str_prefix p s.

Fixpoint has_line_terminator (s : string) : bool :=
  match s with
  | EmptyString => false
  | String c r => Ascii.eqb c lf || Ascii.eqb c cr || has_line_terminator r
  end.

(** [id.match(/^<prefix>(.+)$/)]: the captured group *)
Definition match_input_id (prefix id : string) : option string :=
  if str_prefix prefix id then
    let rest := str_drop (String.length prefix) id in
    if String.eqb rest "" || has_line_terminator rest then None
    else Some rest
  else None.

(** [Array.from(new Set(arr.filter(Boolean)))] *)
Fixpoint dedupe_from (seen : list string) (l : list string) : list string :=
  match l with
  | [] => []
  | x :: r =>
      if String.eqb x "" || existsb (String.eqb x) seen then dedupe_from seen r
      else x :: dedupe_from (x :: seen) r
  end.

Definition dedupe (l : list string) : list string := dedupe_from [] l.

(** [Map.prototype.set]: a present key keeps its place, a new one goes last *)
Definition map_set {A} (k : string) (v : A) (m : list (string * A))
  : list (string * A) :=
  match prop_lookup k m with
  | Some _ => prop_replace k v m
  | None => m ++ [(k, v)]
  end.

(** ** parse-nodes-html.ts: the catalog builder *)

Record parsed_catalog := ParsedCatalog {
  p_nodesByType : list (string * JsVal);
  p_nodes : list JsVal;
  p_warnings : list string
}.

(** [s || null] for a string *)
Definition str_or_null (s : string) : JsVal :=
  if String.eqb s "" then VNull else VStr s.

Section Builder.
Context `{Platform}.

Definition htmlToText (html : string) : string :=
  if String.eqb html "" then ""
  else match cheerioText html with
       | Some text => normalizeWhitespace text
       | None => normalizeWhitespace (stripTags html)
       end.

(** The three attribution fields [module], [modulePackage], [moduleSet]. *)
Definition splitModuleName (moduleName : string) : list (string * JsVal) :=
  let s := moduleName in
  let parts := str_split "/" s in
  if str_starts_with s "@" && (2 <=? length parts)%nat then
    let pkg := str_join "/" (take 2 parts) in
    let rest := str_join "/" (drop 2 parts) in
    [("module", VStr s); ("modulePackage", VStr pkg);
     ("moduleSet", str_or_null rest)]
  else
    [("module", VStr s);
     ("modulePackage",
       VStr (let p0 := default "" (head parts) in
             if String.eqb p0 "" then s else p0));
     ("moduleSet", str_or_null (str_join "/" (drop 1 parts)))].

Definition attr_truthy (a : option string) : bool :=
  match a with
  | Some s => negb (String.eqb s "")
  | None => false
  end.

(** The callback of [$("script").each] on the triple
    [(js, helpByType, templateByType)]. *)
Definition classify_script
    (acc : list string * list (string * string) * list (string * string))
    (el : script_element)
  : list string * list (string * string) * list (string * string) :=
  let '(js, helpByType, templateByType) := acc in
  let typeAttr := toLowerCase (default "" (attr_type el)) in
  let text := default "" (inner_html el) in
  let helpByType :=
    if attr_truthy (attr_help_name el)
    then map_set (default "" (attr_help_name el)) text helpByType
    else helpByType in
  let templateByType :=
    if attr_truthy (attr_template_name el)
    then map_set (default "" (attr_template_name el)) text templateByType
    else templateByType in
  let js :=
    if negb (attr_truthy (attr_help_name el))
       && negb (attr_truthy (attr_template_name el))
       && (String.eqb typeAttr "text/javascript" || String.eqb typeAttr "")
    then let code := trim text in
         if String.eqb code "" then js else js ++ [code]
    else js in
  (js, helpByType, templateByType).

Definition extractScriptsAndDocs (moduleHtml : string)
  : list string * list (string * string) * list (string * string) :=
  fold_left classify_script (scriptElements moduleHtml) ([], [], []).

Definition str_array (l : list string) : JsVal := VArr (VStr <$> l).

(** The callback of [$("[id]").each] on the pair of the lists [node] and
    [config] and the list [all]. *)
Definition collect_field
    (acc : list string * list string * list string) (id : string)
  : list string * list string * list string :=
  let '(node, config, all) := acc in
  if String.eqb id "" then acc
  else match match_input_id "node-input-" id with
       | Some name => (node ++ [name], config, all ++ [name])
       | None =>
           match match_input_id "node-config-input-" id with
           | Some name => (node, config ++ [name], all ++ [name])
           | None => acc
           end
       end.

Definition extractTemplateFields (templateHtml : string) : JsVal :=
  let '(node, config, all) :=
    if String.eqb templateHtml "" then ([], [], [])
    else match cheerioIds templateHtml with
         | Some ids => fold_left collect_field ids ([], [], [])
         | None => ([], [], [])
         end in
  VObj [("node", str_array (dedupe node));
        ("config", str_array (dedupe config));
        ("all", str_array (dedupe all))].

(** [nodesByType[type] || { type }], for a type that is none of the member
    names of [Object.prototype]: for those the code reads the inherited
    member and goes on with it, which is not represented, see the
    conventions. *)
Definition record_or_new (nodesByType : list (string * JsVal))
    (type : string) : list (string * JsVal) :=
  match prop_lookup type nodesByType with
  | Some (VObj o) => o
  | _ => [("type", VStr type)]
  end.

Definition attach_help (attribution : list (string * JsVal))
    (nodesByType : list (string * JsVal)) (entry : string * string)
  : list (string * JsVal) :=
  let '(type, helpHtml) := entry in
  let target := record_or_new nodesByType type in
  obj_set type
    (VObj (obj_assign target
             (attribution ++
              [("help", VObj [("html", VStr helpHtml);
                              ("text", VStr (htmlToText helpHtml))])])))
    nodesByType.

Definition attach_template (attribution : list (string * JsVal))
    (nodesByType : list (string * JsVal)) (entry : string * string)
  : list (string * JsVal) :=
  let '(type, templateHtml) := entry in
  let target := record_or_new nodesByType type in
  obj_set type
    (VObj (obj_assign target
             (attribution ++
              [("template", VObj [("html", VStr templateHtml);
                                  ("text", VStr (htmlToText templateHtml))]);
               ("templateFields", extractTemplateFields templateHtml)])))
    nodesByType.

(** The fields a registration merges with [opts.f ?? prev.f ?? null]. *)
Definition common_fields : list string :=
  [ "category"; "paletteLabel"; "color"; "icon"; "align"; "inputs";
    "outputs"; "outputLabels"; "defaults" ].

(** [entry.options && typeof entry.options === "object" ? entry.options
    : {}] *)
Definition options_object (options : JsVal) : JsVal :=
  if truthy options && type_is_object options
  then options else VObj [].

(** The object literal that replaces [nodesByType[type]] for one found
    registration. *)
Definition merge_record (attribution : list (string * JsVal))
    (prev : list (string * JsVal)) (entry : found_entry)
  : list (string * JsVal) :=
  let opts := options_object (f_options entry) in
  obj_assign prev
    ([("type", VStr (f_type entry))] ++ attribution ++
     map (fun f =>
            (f, coalesce (js_get opts f)
                  (coalesce (js_get (VObj prev) f) VNull)))
         common_fields ++
     [("options", opts);
      ("optionsSource",
        js_or (VStr (f_optionsSource entry))
          (js_or (js_get (VObj prev) "optionsSource") (VStr "")))]).

Definition merge_found (attribution : list (string * JsVal))
    (nodesByType : list (string * JsVal)) (entry : found_entry)
  : list (string * JsVal) :=
  let type := f_type entry in
  let prev := record_or_new nodesByType type in
  obj_set type (VObj (merge_record attribution prev entry)) nodesByType.

(** One registration source block of a module. *)
Definition merge_script (module : string)
    (attribution : list (string * JsVal))
    (acc : list (string * JsVal) * list string) (jsSource : string)
  : list (string * JsVal) * list string :=
  let '(nodesByType, warnings) := acc in
  let '(found, jsWarnings) := parseEditorJsForRegisterTypes jsSource in
  (fold_left (merge_found attribution) found nodesByType,
   warnings ++ map (fun w => module +:+ ":" +:+ w) jsWarnings).

(** One iteration of the loop over the module blocks. *)
Definition merge_module (acc : list (string * JsVal) * list string)
    (m : string * string) : list (string * JsVal) * list string :=
  let '(nodesByType, warnings) := acc in
  let '(moduleName, moduleHtml) := m in
  let attribution := splitModuleName moduleName in
  let '(js, helpByType, templateByType) :=
    extractScriptsAndDocs moduleHtml in
  let nodesByType :=
    fold_left (attach_help attribution) helpByType nodesByType in
  let nodesByType :=
    fold_left (attach_template attribution) templateByType nodesByType in
  fold_left (merge_script moduleName attribution) js
    (nodesByType, warnings).

(** [Array.prototype.sort] with a comparator: a stable sort. *)
Fixpoint sort_insert {A} (cmp : A -> A -> Z) (x : A) (l : list A)
  : list A :=
  match l with
  | [] => [x]
  | y :: r =>
      if (cmp x y <=? 0)%Z then x :: y :: r else y :: sort_insert cmp x r
  end.

Definition array_sort {A} (cmp : A -> A -> Z) (l : list A) : list A :=
  foldr (sort_insert cmp) [] l.

Definition type_key (a : JsVal) : string := js_String (js_get a "type").

Definition compare_by_type (a b : JsVal) : Z :=
  localeCompare (type_key a) (type_key b).

Definition parseNodesHtml (htmlString : string) (verbose : bool)
  : parsed_catalog :=
  let '(nodesByType, warnings) :=
    fold_left merge_module (matchModules htmlString) ([], []) in
  let warnings :=
    if verbose && (length (prop_keys nodesByType) =? 0)%nat
    then warnings ++ ["no_nodes_parsed"]
    else warnings in
  let nodes := array_sort compare_by_type (prop_values nodesByType) in
  ParsedCatalog nodesByType nodes warnings.
End Builder.

(** ** utils.ts and catalog.ts: the cache *)

Record cache := Cache {
  ts : Z;
  nodesByType : list (string * JsVal);
  nodes : list JsVal;
  warnings : list string;
  nodeRedUrl : JsVal
}.

(** The fields of a [NodeCatalog] instance; of [_config] the two members
    the class reads. *)
Record NodeCatalog := {
  config_nodeRedUrl : string;
  _ttlMs : Z;
  _customModules : gset string;
  _verbose : bool;
  _cache : cache
}.

(** A [NodeCatalog] in its world: how many clock readings and how many
    requests have been made so far. *)
Record state := State {
  this : NodeCatalog;
  ticks : nat;
  requests : nat
}.

Inductive error :=
| ApiError (message : string)
| FetchRejected (reason : string)
| BodyUnreadable
| TypeError.

Inductive outcome (A : Type) :=
| Return (a : A)
| Throw (e : error).
Arguments Return {A} a.
Arguments Throw {A} e.

(** Computations over the state that may throw; the state survives a
    throw. *)
Definition M (A : Type) : Type := state -> outcome A * state.

Definition ret {A} (a : A) : M A := fun st => (Return a, st).

Definition throw {A} (e : error) : M A := fun st => (Throw e, st).

Definition bind {A B} (c : M A) (k : A -> M B) : M B :=
  fun st =>
    match c st with
    | (Return a, st') => k a st'
    | (Throw e, st') => (Throw e, st')
    end.

Declare Scope catalog_scope.
Delimit Scope catalog_scope with catalog.
Notation "x <- c ;; k" := (bind c (fun x => k))
  (at level 100, c at next level, right associativity) : catalog_scope.
Notation "c ;;; k" := (bind c (fun _ => k))
  (at level 100, right associativity) : catalog_scope.

Definition default_cache : cache := Cache 0 [] [] [] VNull.

Definition defaultCustomModules : list string :=
  [ "@time-line-autopilot/node-red-nodes";
    "node-red-dashboard-2-time-line-autopilot" ].

(** The constructor, from the already parsed environment: [ttlEnv] is
    [None] when the variable is unset or empty and [Some None] when
    [parseInt] gives [NaN]; [allowEnv] is the parsed list when the variable
    is set. *)
Definition new_NodeCatalog (nodeRedUrl_ : string) (verbose : bool)
    (ttlEnv : option (option Z)) (allowEnv : option (list string))
  : NodeCatalog :=
  {| config_nodeRedUrl := nodeRedUrl_;
     _ttlMs := match ttlEnv with
               | None => 60000
               | Some None => 60000
               | Some (Some ttlMs) => if 0 <=? ttlMs then ttlMs else 60000
               end;
     _customModules := list_to_set (default defaultCustomModules allowEnv);
     _verbose := verbose;
     _cache := default_cache |}.

Definition set_cache (c : cache) (st : state) : state :=
  State {| config_nodeRedUrl := config_nodeRedUrl (this st);
           _ttlMs := _ttlMs (this st);
           _customModules := _customModules (this st);
           _verbose := _verbose (this st);
           _cache := c |}
        (ticks st) (requests st).

Definition nat_to_string (n : nat) : string := Z_to_string (Z.of_nat n).

Section Catalog.
Context `{Platform}.

Local Open Scope catalog_scope.

(** [Date.now()] *)
Definition now : M Z :=
  fun st => (Return (clock (ticks st)),
             State (this st) (S (ticks st)) (requests st)).

(** [callNodeRed("get", "/nodes", null, config)] followed by
    [String(...)]; the request is identified by its rank. *)
Definition callNodeRed : M string :=
  fun st =>
    let st' := State (this st) (ticks st) (S (requests st)) in
    match upstream (requests st) with
    | TransportFault reason => (Throw (FetchRejected reason), st')
    | HttpResponse ok status statusText body payload =>
        if negb ok then
          (Throw (ApiError
                    ("Node-RED API error: " +:+ nat_to_string status
                     +:+ " " +:+ statusText
                     +:+ (if String.eqb body "" then ""
                          else " - " +:+ body))), st')
        else match payload with
             | Some text => (Return text, st')
             | None => (Throw BodyUnreadable, st')
             end
    end.

Definition get_this : M NodeCatalog := fun st => (Return (this st), st).

Definition put_cache (c : cache) : M unit :=
  fun st => (Return tt, set_cache c st).

Definition _isExpired : M bool :=
  self <- get_this ;;
  if _ttlMs self =? 0 then ret true
  else t <- now ;; ret (_ttlMs self <? t - ts (_cache self)).

(** [String(node.f)] when [node.f] is truthy, else the empty string *)
Definition field_text (node : JsVal) (f : string) : string :=
  if truthy (js_get node f) then js_String (js_get node f) else "".

Definition is_custom (customModules : gset string) (node : JsVal) : bool :=
  let pkg := field_text node "modulePackage" in
  let module := field_text node "module" in
  (negb (String.eqb pkg "") && bool_decide (pkg ∈ customModules))
  || (negb (String.eqb module "")
      && existsb (fun m => str_starts_with module m)
           (elements customModules)).

(** [{ ...node, isCustom: !!isCustom }] *)
Definition _markCustom (customModules : gset string) (node : JsVal)
  : JsVal :=
  match node with
  | VObj o =>
      VObj (prop_set "isCustom" (VBool (is_custom customModules node)) o)
  | _ => VObj [("isCustom", VBool (is_custom customModules node))]
  end.

Definition refresh : M cache :=
  html <- callNodeRed ;;
  self <- get_this ;;
  let parsed := parseNodesHtml html (_verbose self) in
  let nodes := map (_markCustom (_customModules self)) (p_nodes parsed) in
  let nodesByType :=
    fold_left (fun o n => prop_set (type_key n) n o) nodes [] in
  t <- now ;;
  let c := Cache t nodesByType nodes (p_warnings parsed)
             (str_or_null (config_nodeRedUrl self)) in
  put_cache c ;;;
  ret c.

Definition getCatalog (force : bool) : M cache :=
  self <- get_this ;;
  expired <- (if force then ret true else _isExpired) ;;
  (if force || expired || (length (nodes (_cache self)) =? 0)%nat
   then (refresh ;;; ret tt)
   else ret tt) ;;;
  self' <- get_this ;;
  ret (_cache self').
End Catalog.

Section Search.
Context `{Platform}.

Local Open Scope catalog_scope.

(** [n.f ?? null] *)
Definition field_or_null (n : JsVal) (f : string) : JsVal :=
  coalesce (js_get n f) VNull.

(** [list({ customOnly })] *)
Definition catalog_list (customOnly : bool) : M (list JsVal) :=
  c <- getCatalog false ;;
  let nodes :=
    if customOnly then filter (fun n => truthy (js_get n "isCustom")) (nodes c)
    else nodes c in
  ret (map (fun n =>
              VObj [("type", js_get n "type");
                    ("category", field_or_null n "category");
                    ("paletteLabel", field_or_null n "paletteLabel");
                    ("module", field_or_null n "module");
                    ("modulePackage", field_or_null n "modulePackage");
                    ("moduleSet", field_or_null n "moduleSet");
                    ("isCustom", VBool (truthy (js_get n "isCustom")));
                    ("inputs", field_or_null n "inputs");
                    ("outputs", field_or_null n "outputs")]) nodes).

Definition getNode (type : string) : M JsVal :=
  c <- getCatalog false ;;
  ret (js_or (js_get (VObj (nodesByType c)) type) VNull).

(** [Number.isFinite(limit) ? Math.max(1, Math.min(200, limit)) : 25],
    with the parameter default [limit = 25] *)
Definition search_lim (limit : option number) : Q :=
  match default (Finite 25) limit with
  | Finite q => Qmax 1 (Qmin 200 q)
  | _ => 25
  end.

(** [Object.keys(v)] *)
Definition object_keys (v : JsVal) : list string :=
  match v with
  | VObj o => prop_keys o
  | VArr l => map (fun i => nat_to_string i) (seq 0 (length l))
  | _ => []
  end.

(** [parts.filter(Boolean)] in [nodeHaystack] *)
Definition haystack_parts (n : JsVal) : list JsVal :=
  let parts :=
    [ js_get n "type"; js_get n "category"; js_get n "paletteLabel";
      js_get n "module"; js_get n "modulePackage"; js_get n "moduleSet";
      js_get (js_get n "help") "text" ] in
  let defaults := js_get n "defaults" in
  let parts :=
    if truthy defaults && type_is_object defaults
    then parts ++ [VStr (str_join " " (object_keys defaults))]
    else parts in
  filter truthy parts.

Definition nodeHaystack (n : JsVal) : string :=
  toLowerCase
    (str_join (String lf "") (map js_String (haystack_parts n))).

(** [s ? String(s).toLowerCase() : null] *)
Definition filter_text (s : option string) : option string :=
  match s with
  | Some s => if String.eqb s "" then None else Some (toLowerCase s)
  | None => None
  end.

Definition passes_filter (flt : option string) (n : JsVal) (f : string)
  : bool :=
  match flt with
  | Some t => str_includes (toLowerCase (field_text n f)) t
  | None => true
  end.

(** Whether the body of the loop throws on the node [n]: in
    [String(n.module || "")] when there is a module filter, in
    [String(n.category || "")] when the node passed it and there is a
    category filter, or, when the node passed both, in the [join] of
    [nodeHaystack]. *)
Definition conversion_throws (moduleFilter categoryFilter : option string)
    (n : JsVal) : bool :=
  let filter_throws (flt : option string) (f : string) :=
    match flt with
    | Some _ => String_throws (js_or (js_get n f) (VStr ""))
    | None => false
    end in
  if filter_throws moduleFilter "module" then true
  else if negb (passes_filter moduleFilter n "module") then false
  else if filter_throws categoryFilter "category" then true
  else if negb (passes_filter categoryFilter n "category") then false
  else existsb String_throws (haystack_parts n).

(** The body of the loop that collects the matches with their scores, on
    a node on which it does not throw. *)
Definition score_node (q : string) (moduleFilter categoryFilter : option string)
    (n : JsVal) : option (JsVal * Q) :=
  if passes_filter moduleFilter n "module"
     && passes_filter categoryFilter n "category"
  then
    let hay := nodeHaystack n in
    match str_index_of q hay with
    | None => None
    | Some idx =>
        Some (n, inject_Z (Z.of_nat idx)
                 + (Z.min (Z.of_nat (String.length hay)) 10000 # 10000))%Q
    end
  else None.

Definition compare_score (a b : JsVal * Q) : Z :=
  match Qcompare (snd a) (snd b) with
  | Lt => -1
  | Eq => 0
  | Gt => 1
  end.

(** [(n.help?.text || "").slice(0, 400) || (n.template?.text || "")
    .slice(0, 400) || ""]; the texts are strings wherever the builder set
    them. *)
Definition snippet (n : JsVal) : JsVal :=
  let text_of f :=
    VStr (str_slice (js_String (js_or (js_get (js_get n f) "text") (VStr "")))
            0 400) in
  js_or (text_of "help") (js_or (text_of "template") (VStr "")).

Definition search_entry (m : JsVal * Q) : JsVal :=
  let n := fst m in
  VObj [("type", js_get n "type");
        ("category", field_or_null n "category");
        ("paletteLabel", field_or_null n "paletteLabel");
        ("module", field_or_null n "module");
        ("modulePackage", field_or_null n "modulePackage");
        ("isCustom", VBool (truthy (js_get n "isCustom")));
        ("snippet", snippet n)].

(** The matches of a query in a snapshot, best first, before the cut. *)
Definition ranked_matches (q : string) (customOnly : bool)
    (module category : option string) (c : cache) : list (JsVal * Q) :=
  let nodes :=
    if customOnly then filter (fun n => truthy (js_get n "isCustom")) (nodes c)
    else nodes c in
  array_sort compare_score
    (omap (score_node q (filter_text module) (filter_text category)) nodes).

Definition search (query : string) (customOnly : bool)
    (module category : option string) (limit : option number)
  : M (list JsVal) :=
  let q := toLowerCase (trim query) in
  let lim := search_lim limit in
  if String.eqb q "" then ret []
  else
    c <- getCatalog false ;;
    let nodes :=
      if customOnly then filter (fun n => truthy (js_get n "isCustom")) (nodes c)
      else nodes c in
    if existsb (conversion_throws (filter_text module) (filter_text category))
         nodes
    then throw TypeError
    else
      ret (map search_entry
             (take (Z.to_nat (Qfloor lim))
                (ranked_matches q customOnly module category c))).
End Search.

(** ** A concrete platform for the examples *)

Module Demo.

(** [function reg(type, label) { RED.nodes.registerType(type,
    {category: label}); } reg('bar', 'group');] *)
Definition src_wrap : string :=
  "function reg(type, label) { RED.nodes.registerType(type, {category: label}); } reg('bar', 'group');".

Definition registerType_callee (o : nat) : node :=
  MemberExpression (Span o (o + 22))
    (MemberExpression (Span o (o + 9))
       (Identifier (Span o (o + 3)) "RED")
       (Identifier (Span (o + 4) (o + 9)) "nodes") false)
    (Identifier (Span (o + 10) (o + 22)) "registerType") false.

Definition wrap_options : node :=
  ObjectExpression (Span 57 74)
    [Property (Span 58 73) false
       (Identifier (Span 58 66) "category")
       (Identifier (Span 68 73) "label")].

Definition wrap_inner_call : node :=
  CallExpression (Span 28 75) (registerType_callee 28)
    [Identifier (Span 51 55) "type"; wrap_options].

Definition wrap_body : node :=
  BlockStatement (Span 26 78) [ExpressionStatement (Span 28 76) wrap_inner_call].

Definition wrap_call : node :=
  CallExpression (Span 79 98) (Identifier (Span 79 82) "reg")
    [Literal (Span 83 88) (VStr "bar"); Literal (Span 90 97) (VStr "group")].

Definition ast_wrap : node :=
  Program (Span 0 99)
    [FunctionDeclaration (Span 0 78) (Some (Identifier (Span 9 12) "reg"))
       [Identifier (Span 13 17) "type"; Identifier (Span 19 24) "label"]
       wrap_body;
     ExpressionStatement (Span 79 99) wrap_call].

(** [RED.nodes.registerType('foo', opts);] *)
Definition src_ref : string := "RED.nodes.registerType('foo', opts);".

Definition ref_call : node :=
  CallExpression (Span 0 35) (registerType_callee 0)
    [Literal (Span 23 28) (VStr "foo"); Identifier (Span 30 34) "opts"].

Definition ast_ref : node :=
  Program (Span 0 36) [ExpressionStatement (Span 0 36) ref_call].

(** [RED.nodes.registerType('foo', {category: 'x'});
    RED.nodes.registerType('foo');] *)
Definition src_twice : string :=
  "RED.nodes.registerType('foo', {category: 'x'}); RED.nodes.registerType('foo');".

Definition twice_first : node :=
  CallExpression (Span 0 46) (registerType_callee 0)
    [Literal (Span 23 28) (VStr "foo");
     ObjectExpression (Span 30 45)
       [Property (Span 31 44) false
          (Identifier (Span 31 39) "category")
          (Literal (Span 41 44) (VStr "x"))]].

Definition twice_second : node :=
  CallExpression (Span 48 77) (registerType_callee 48)
    [Literal (Span 71 76) (VStr "foo")].

Definition ast_twice : node :=
  Program (Span 0 78)
    [ExpressionStatement (Span 0 47) twice_first;
     ExpressionStatement (Span 48 78) twice_second].

Definition script_of (src : string) : string :=
  "<script type='text/javascript'>" +:+ src +:+ "</script>".

Definition body_wrap : string := script_of src_wrap.
Definition body_twice : string := script_of src_twice.
Definition body_case : string :=
  "<script type='text/html' data-help-name='B'>upper</script><script type='text/html' data-help-name='a'>lower</script>".

Definition html_wrap : string :=
  "<!-- --- [red-module:demo/wrap] --- -->" +:+ body_wrap.
Definition html_twice : string :=
  "<!-- --- [red-module:demo/twice] --- -->" +:+ body_twice.
Definition html_case : string :=
  "<!-- --- [red-module:demo/case] --- -->" +:+ body_case.

Definition table {A} (d : A) (t : list (string * A)) (k : string) : A :=
  default d (prop_lookup k t).

Definition js_element (src : string) : script_element :=
  ScriptElement (Some "text/javascript") None None (Some src).

Definition help_element (name text : string) : script_element :=
  ScriptElement (Some "text/html") (Some name) None (Some text).

(** A collation in the manner of the ones behind [localeCompare]:
    letters are compared without regard to case first, and a lower-case
    letter goes before its upper-case form. *)
Definition collate (a b : string) : Z :=
  match String.compare (toLowerCase a) (toLowerCase b) with
  | Lt => -1
  | Gt => 1
  | Eq => match String.compare b a with
          | Lt => -1
          | Gt => 1
          | Eq => 0
          end
  end.

Definition number_text (n : number) : string :=
  match n with
  | NaN => "NaN"
  | PosInf => "Infinity"
  | NegInf => "-Infinity"
  | Finite q =>
      if (Z.pos (Qden q) =? 1)%Z then Z_to_string (Qnum q)
      else Z_to_string (Qnum q) +:+ "/" +:+ Z_to_string (Z.pos (Qden q))
  end.

(** The first request is answered with [html_wrap]; afterwards the
    upstream is down.  Successive clock readings are 100 s apart. *)
#[export] Instance platform : Platform := {|
  numberToString := number_text;
  localeCompare := collate;
  matchModules :=
    table [] [ (html_wrap, [("demo/wrap", body_wrap)]);
               (html_twice, [("demo/twice", body_twice)]);
               (html_case, [("demo/case", body_case)]) ];
  scriptElements :=
    table [] [ (body_wrap, [js_element src_wrap]);
               (body_twice, [js_element src_twice]);
               (body_case, [help_element "B" "upper";
                            help_element "a" "lower"]) ];
  cheerioText := fun s => Some s;
  cheerioIds := fun _ => Some [];
  stripTags := fun s => s;
  acornParse :=
    table None [ (src_wrap, Some ast_wrap); (src_ref, Some ast_ref);
                 (src_twice, Some ast_twice) ];
  clock := fun k => 100000 * Z.of_nat k;
  upstream := fun k =>
    match k with
    | O => HttpResponse true 200 "OK" html_wrap (Some html_wrap)
    | S _ => HttpResponse false 503 "Service Unavailable" "down" None
    end
|}.

End Demo.


(** ** utils.ts: request URLs and the flow summary *)

(** [s.replace(/\/+$/, "")] *)
Fixpoint strip_trailing_slashes (s : string) : string :=
  match s with
  | EmptyString => EmptyString
  | String c r =>
      match strip_trailing_slashes r with
      | EmptyString =>
          if Ascii.eqb c "/" then EmptyString else String c EmptyString
      | r' => String c r'
      end
  end.

Definition joinUrl (base path : string) : string :=
  let b := strip_trailing_slashes base in
  if String.eqb path "" then b
  else if str_starts_with path "/" then b +:+ path
  else b +:+ "/" +:+ path.

(** The address [callNodeRed] requests; an absent [apiPrefix] is the empty
    string. *)
Definition request_url (nodeRedUrl apiPrefix path : string) : string :=
  joinUrl nodeRedUrl
    (if String.eqb apiPrefix "" then path else apiPrefix +:+ path).

(** A counter of [statistics.nodeTypes]: a count, or [NaN]. *)
Inductive counter :=
| Count (n : nat)
| CountNaN.

(** [!v] and [v++] on what [stats.nodeTypes[key]] reads: an own counter,
    or, for want of one, what [Object.prototype] has under the key. *)
Definition inherited_member (key : string) : bool :=
  existsb (String.eqb key)
    [ "__proto__"; "constructor"; "hasOwnProperty"; "isPrototypeOf";
      "propertyIsEnumerable"; "toLocaleString"; "toString"; "valueOf";
      "__defineGetter__"; "__defineSetter__"; "__lookupGetter__";
      "__lookupSetter__" ].

(** The two statements of the loop body over [stats.nodeTypes]:
    [if (!t[key]) t[key] = 0; t[key]++]. *)
Definition count_type (key : string) (t : list (string * counter))
  : list (string * counter) :=
  if String.eqb key "__proto__" then t
  else
    match prop_lookup key t with
    | Some (Count (S n)) => prop_set key (Count (S (S n))) t
    | Some (Count O) | Some CountNaN => prop_set key (Count 1) t
    | None =>
        if inherited_member key then prop_set key CountNaN t
        else prop_set key (Count 1) t
    end.

Record flows_output := FlowsOutput {
  fo_summary : string;
  fo_tabCount : nat;
  fo_nodeCount : nat;
  fo_subflowCount : nat;
  fo_nodeTypes : list (string * counter);
  fo_tabs : list JsVal;
  fo_nodes : list JsVal;
  fo_subflows : list JsVal
}.

(** [n.type === t] *)
Definition type_is (t : string) (n : JsVal) : bool :=
  match js_get n "type" with
  | VStr s => String.eqb s t
  | _ => false
  end.

Section Flows.
Context `{Platform}.

(** [formatFlowsOutput(flows)]; [None] when it throws: reading [n.type]
    does on an element that is [null] or [undefined], and
    [stats.nodeTypes[node.type]] does on a node whose type cannot be
    converted to a property key. *)
Definition formatFlowsOutput (flows : list JsVal) : option flows_output :=
  if existsb nullish flows then None else
  let tabs := filter (fun n => type_is "tab" n) flows in
  let nodes :=
    filter (fun n => negb (type_is "tab" n) && negb (type_is "subflow" n))
      flows in
  let subflows := filter (fun n => type_is "subflow" n) flows in
  if existsb (fun node => String_throws (js_get node "type")) nodes
  then None else Some (
  let nodeTypes :=
    fold_left (fun t node => count_type (js_String (js_get node "type")) t)
      nodes [] in
  FlowsOutput
    ("Node-RED project: " +:+ nat_to_string (length tabs) +:+ " tabs, "
     +:+ nat_to_string (length nodes) +:+ " nodes, "
     +:+ nat_to_string (length subflows) +:+ " subflows")
    (length tabs) (length nodes) (length subflows) nodeTypes
    tabs nodes subflows).
End Flows.

(** ** catalog.ts: the environment of the constructor *)

(** [/^(1|true|yes|on)$/i.test(String(v || ""))] *)
Definition truthy_flag (v : option string) : bool :=
  existsb (String.eqb (toLowerCase (default "" v))) ["1"; "true"; "yes"; "on"].

(** [String(s || "").split(",").map((x) => x.trim()).filter(Boolean)] *)
Definition parseCsv (s : option string) : list string :=
  filter (fun x => negb (String.eqb x ""))
    (map trim (str_split "," (default "" s))).

(** [new NodeCatalog(config)] with the three variables of the process
    environment the constructor reads; [parsedTtl] is what
    [Number.parseInt(ttlEnv, 10)] gives, [None] when that is not a finite
    number. *)
Definition createNodeCatalog (nodeRedUrl_ : string) (verbose : bool)
    (ttlEnv : option string) (parsedTtl : option Z)
    (allowEnv verboseEnv : option string) : NodeCatalog :=
  new_NodeCatalog nodeRedUrl_ (verbose || truthy_flag verboseEnv)
    (match ttlEnv with
     | Some s => if String.eqb s "" then None else Some parsedTtl
     | None => None
     end)
    (match allowEnv with
     | Some s => if String.eqb s "" then None else Some (parseCsv (Some s))
     | None => None
     end).

(** * Vocabulary of the properties *)

(** The six kinds of node that stand for something to be computed at run
    time. *)
Definition is_dynamic_kind (n : node) : bool :=
  match n with
  | CallExpression _ _ _ | MemberExpression _ _ _ _
  | BinaryExpression _ _ _ _ | LogicalExpression _ _ _ _
  | ConditionalExpression _ _ _ _ | NewExpression _ _ _ => true
  | _ => false
  end.

(** What the template case promises: the quasis with the texts of the
    embedded values between them. *)
Fixpoint interleave (quasis values : list string) : string :=
  match quasis with
  | [] => ""
  | q :: quasis' =>
      q +:+ match values with
            | [] => interleave quasis' []
            | v :: values' => v +:+ interleave quasis' values'
            end
  end.

(** A literal string, number or boolean. *)
Definition is_scalar_literal (v : JsVal) : bool :=
  match v with
  | VStr _ | VNum _ | VBool _ => true
  | _ => false
  end.

Module TemplateDemo.
(** The literal [`a${f()}b${label}`] and the literal [`${label}-x`],
    each as a script of its own. *)
Definition src_mixed : string := "`a${f()}b${label}`".

Definition mixed : node :=
  TemplateLiteral (Span 0 18) [Some "a"; Some "b"; Some ""]
    [CallExpression (Span 4 7) (Identifier (Span 4 5) "f") [];
     Identifier (Span 11 16) "label"].

Definition src_plain : string := "`${label}-x`".

Definition plain : node :=
  TemplateLiteral (Span 0 12) [Some ""; Some "-x"]
    [Identifier (Span 3 8) "label"].

Definition env : gmap string JsVal := {[ "label" := VStr "group" ]}.
End TemplateDemo.

(** [jsSource.slice(o.start, o.end)] of an argument that may be missing *)
Definition source_of_argument (src : string) (o : option node) : string :=
  match o with
  | Some o => str_slice src (start (node_span o)) (end_ (node_span o))
  | None => ""
  end.



Module ShadowDemo.
(** [function reg(type, label) { RED.nodes.registerType(type,
    {category: label}); } function f() { function reg(t) {
    RED.nodes.registerType(t, {}); } } reg('bar', 'group');]: the wrapper
    of [Demo.src_wrap] and its call, with a function of the same name
    declared inside another function in between. *)
Definition src_shadow : string :=
  "function reg(type, label) { RED.nodes.registerType(type, {category: label}); } function f() { function reg(t) { RED.nodes.registerType(t, {}); } } reg('bar', 'group');".

Definition outer_declaration : node :=
  FunctionDeclaration (Span 0 78) (Some (Identifier (Span 9 12) "reg"))
    [Identifier (Span 13 17) "type"; Identifier (Span 19 24) "label"]
    Demo.wrap_body.

Definition inner_call : node :=
  CallExpression (Span 112 141) (Demo.registerType_callee 112)
    [Identifier (Span 135 136) "t"; ObjectExpression (Span 138 140) []].

Definition inner_declaration : node :=
  FunctionDeclaration (Span 94 144) (Some (Identifier (Span 103 106) "reg"))
    [Identifier (Span 107 108) "t"]
    (BlockStatement (Span 110 144)
       [ExpressionStatement (Span 112 142) inner_call]).

Definition shadow_call : node :=
  CallExpression (Span 147 166) (Identifier (Span 147 150) "reg")
    [Literal (Span 151 156) (VStr "bar"); Literal (Span 158 165) (VStr "group")].

Definition ast_shadow : node :=
  Program (Span 0 167)
    [outer_declaration;
     FunctionDeclaration (Span 79 146) (Some (Identifier (Span 88 89) "f")) []
       (BlockStatement (Span 92 146) [inner_declaration]);
     ExpressionStatement (Span 147 167) shadow_call].

(** [function reg({a}, type) { RED.nodes.registerType(type, {}); }
    reg('x', 'bar');]: a wrapper whose first parameter is a pattern. *)
Definition src_pattern : string :=
  "function reg({a}, type) { RED.nodes.registerType(type, {}); } reg('x', 'bar');".

Definition pattern_declaration : node :=
  FunctionDeclaration (Span 0 61) (Some (Identifier (Span 9 12) "reg"))
    [OtherNode (Span 13 16) "ObjectPattern"
       [Property (Span 14 15) false (Identifier (Span 14 15) "a")
          (Identifier (Span 14 15) "a")];
     Identifier (Span 18 22) "type"]
    (BlockStatement (Span 24 61)
       [ExpressionStatement (Span 26 59)
          (CallExpression (Span 26 58) (Demo.registerType_callee 26)
             [Identifier (Span 49 53) "type";
              ObjectExpression (Span 55 57) []])]).

Definition ast_pattern : node :=
  Program (Span 0 78)
    [pattern_declaration;
     ExpressionStatement (Span 62 78)
       (CallExpression (Span 62 77) (Identifier (Span 62 65) "reg")
          [Literal (Span 66 69) (VStr "x"); Literal (Span 71 76) (VStr "bar")])].

Definition body_shadow : string := Demo.script_of src_shadow.

Definition html_shadow : string :=
  "<!-- --- [red-module:demo/shadow] --- -->" +:+ body_shadow.

(** The platform of [Demo], with the two scripts above for documents. *)
#[export] Instance platform : Platform := {|
  numberToString := Demo.number_text;
  localeCompare := Demo.collate;
  matchModules :=
    Demo.table [] [ (html_shadow, [("demo/shadow", body_shadow)]) ];
  scriptElements :=
    Demo.table [] [ (body_shadow, [Demo.js_element src_shadow]) ];
  cheerioText := fun s => Some s;
  cheerioIds := fun _ => Some [];
  stripTags := fun s => s;
  acornParse :=
    Demo.table None [ (src_shadow, Some ast_shadow);
                      (src_pattern, Some ast_pattern) ];
  clock := fun k => 100000 * Z.of_nat k;
  upstream := fun _ =>
    HttpResponse false 503 "Service Unavailable" "down" None
|}.
End ShadowDemo.

(** What a sequence of writes leaves under the key [k]. *)
Definition assigned (k : string) (upd : list (string * JsVal))
    (init : option JsVal) : option JsVal :=
  fold_left
    (fun acc kv =>
       if String.eqb k (fst kv) && negb (String.eqb (fst kv) "__proto__")
       then Some (snd kv) else acc)
    upd init.

(** The fields a registration writes. *)
Definition written_fields : list string :=
  ["type"; "module"; "modulePackage"; "moduleSet"] ++ common_fields
  ++ ["options"; "optionsSource"].

Module MergeDemo.
(** The two registrations of [Demo.src_twice], in the order found. *)
Definition first : found_entry :=
  Found "foo" (VObj [("category", VStr "x")]) "{category: 'x'}".
Definition second : found_entry := Found "foo" VNull "".

Definition attribution : list (string * JsVal) :=
  splitModuleName "demo/twice".

Definition after_first : list (string * JsVal) :=
  merge_record attribution [("type", VStr "foo")] first.
End MergeDemo.

(** What [Array.prototype.sort] asks of its comparator (ECMAScript: a
    consistent comparator); only for such a comparator is the outcome of
    the sort determined. *)
Record consistent_comparator {A : Type} (cmp : A -> A -> Z) : Prop := {
  cc_refl : forall a, cmp a a = 0;
  cc_sym : forall a b, cmp a b = 0 -> cmp b a = 0;
  cc_eq_trans : forall a b c, cmp a b = 0 -> cmp b c = 0 -> cmp a c = 0;
  cc_lt_trans : forall a b c, cmp a b < 0 -> cmp b c < 0 -> cmp a c < 0;
  cc_gt_trans : forall a b c, cmp a b > 0 -> cmp b c > 0 -> cmp a c > 0
}.

(** In [Demo.collate], [a] goes before [b] when its lower-case form is
    smaller, or the lower-case forms agree and [b] is smaller. *)
Definition collates_before (a b : string) : Prop :=
  String_as_OT.lt (toLowerCase a) (toLowerCase b)
  \/ (toLowerCase a = toLowerCase b /\ String_as_OT.lt b a).

(** [a] may stand before [b] in an array sorted with [cmp]. *)
Definition in_order {A : Type} (cmp : A -> A -> Z) (a b : A) : Prop :=
  cmp a b <= 0.

Section CacheVocabulary.
Context `{Platform}.

(** The snapshot a successful refresh publishes: it is built from the
    fetched document and the clock alone. *)
Definition published_snapshot (self : NodeCatalog) (html : string) (t : Z)
  : cache :=
  let parsed := parseNodesHtml html (_verbose self) in
  let nodes := map (_markCustom (_customModules self)) (p_nodes parsed) in
  Cache t (fold_left (fun o n => prop_set (type_key n) n o) nodes [])
    nodes (p_warnings parsed) (str_or_null (config_nodeRedUrl self)).

(** The error a request raises, if it raises one. *)
Definition failure (r : response) : option error :=
  match r with
  | TransportFault reason => Some (FetchRejected reason)
  | HttpResponse false status statusText body _ =>
      Some (ApiError
              ("Node-RED API error: " +:+ nat_to_string status
               +:+ " " +:+ statusText
               +:+ (if String.eqb body "" then "" else " - " +:+ body)))
  | HttpResponse true _ _ _ None => Some BodyUnreadable
  | HttpResponse true _ _ _ (Some _) => None
  end.

(** The state after one more request, nothing else changed. *)
Definition requested (st : state) : state :=
  State (this st) (ticks st) (S (requests st)).

(** The state after one more clock reading, nothing else changed. *)
Definition ticked (st : state) : state :=
  State (this st) (S (ticks st)) (requests st).

(** The decision of [getCatalog]: forced, or expired, or empty. *)
Definition stale (force : bool) (st : state) : bool :=
  let self := this st in
  force
  || (_ttlMs self =? 0)
  || (_ttlMs self <? clock (ticks st) - ts (_cache self))
  || (length (nodes (_cache self)) =? 0)%nat.

(** The clock is consulted unless the call is forced or the threshold is
    zero. *)
Definition consulted (force : bool) (st : state) : state :=
  if force || (_ttlMs (this st) =? 0) then st else ticked st.

End CacheVocabulary.

Module CacheDemo.
(** An instance with a threshold of 1000 s and one with the default
    threshold of 60 s, each before its first call, in the world of
    [Demo.platform]. *)
Definition patient : state :=
  State (new_NodeCatalog "http://127.0.0.1:1880" false
           (Some (Some 1000000)) None) 0 0.

Definition standard : state :=
  State (new_NodeCatalog "http://127.0.0.1:1880" false None None) 0 0.

(** The state [standard] after its first, answered, call. *)
Definition served : state :=
  snd (getCatalog (H := Demo.platform) false standard).

Definition down : error :=
  ApiError "Node-RED API error: 503 Service Unavailable - down".
End CacheDemo.

(** Failing requests: a request that raises an error. *)
Definition fetch_fails (r : response) : bool :=
  match r with
  | TransportFault _ => true
  | HttpResponse ok _ _ _ payload =>
      negb ok || match payload with
                 | None => true
                 | Some _ => false
                 end
  end.


(** ** Vocabulary of the further properties *)

(** What makes a [<script>] element a registration source block. *)
Definition is_source_block (el : script_element) : bool :=
  negb (attr_truthy (attr_help_name el))
  && negb (attr_truthy (attr_template_name el))
  && (String.eqb (toLowerCase (default "" (attr_type el))) "text/javascript"
      || String.eqb (toLowerCase (default "" (attr_type el))) "").

(** What the lists collected from the ids [ids] satisfy. *)
Definition fields_from (ids : list string)
    (acc : list string * list string * list string) : Prop :=
  forall name,
    (name ∈ snd acc <-> name ∈ fst (fst acc) \/ name ∈ snd (fst acc))
    /\ (name ∈ fst (fst acc) -> "node-input-" +:+ name ∈ ids)
    /\ (name ∈ snd (fst acc) -> "node-config-input-" +:+ name ∈ ids).




(** The body of the loop of the [ObjectExpression] case. *)
Definition object_step `{Platform} (env : gmap string JsVal) (src : string)
    (out : list (string * JsVal)) (prop : node) : list (string * JsVal) :=
  match prop with
  | Property _ _ _ value =>
      match isPropertyKeyToString prop with
      | Some key =>
          if String.eqb key "" then out
          else obj_set key (evalAst value env src) out
      | None => out
      end
  | _ => out
  end.

Module ObjectDemo.
End ObjectDemo.

Definition is_call (n : node) : bool :=
  match n with
  | CallExpression _ _ _ => true
  | _ => false
  end.

(** A recorded wrapper that is fit for use: it has a name, its type
    argument is one of its parameters, none of which is empty, and its
    options are an object literal. *)
Definition wrapper_fit (name : string) (w : wrapper) : Prop :=
  name <> ""
  /\ ("" ∉ w_params w)
  /\ (exists tsp tname,
         w_typeArg w = Identifier tsp tname /\ tname ∈ w_params w)
  /\ exists osp props, w_optionsArg w = ObjectExpression osp props.

Definition wrappers_fit (wrappers : gmap string wrapper) : Prop :=
  forall name w, wrappers !! name = Some w -> wrapper_fit name w.

(** Whether [acorn.parse] throws on a block. *)
Definition parse_fails `{Platform} (jsSource : string) : bool :=
  match acornParse jsSource with
  | None => true
  | Some _ => false
  end.

(** The warnings a module gives rise to: one for each of its registration
    source blocks that does not parse, in their order. *)
Definition module_warnings `{Platform} (m : string * string) : list string :=
  map (fun _ => fst m +:+ ":acorn_parse_failed")
    (filter (fun js => parse_fails js = true)
       (fst (fst (extractScriptsAndDocs (snd m))))).

(** A record fit to stand under the type [k]: an object whose [type] is
    [k], with a module name. *)
Definition record_ok (k : string) (v : JsVal) : Prop :=
  inherited_member k = false
  /\ exists o module,
       v = VObj o
       /\ prop_lookup "type" o = Some (VStr k)
       /\ prop_lookup "module" o = Some (VStr module).

(** A table with one record per type. *)
Definition table_ok (nodesByType : list (string * JsVal)) : Prop :=
  NoDup (prop_keys nodesByType)
  /\ forall k v, (k, v) ∈ nodesByType -> record_ok k v.

(** The types a module contributes are none of the names that every
    object inherits (see the conventions at the head of the file). *)
Definition ordinary_module `{Platform} (m : string * string) : bool :=
  let '(js, helpByType, templateByType) := extractScriptsAndDocs (snd m) in
  forallb (fun kv => negb (inherited_member (fst kv))) helpByType
  && forallb (fun kv => negb (inherited_member (fst kv))) templateByType
  && forallb (fun jsSource =>
                forallb (fun e => negb (inherited_member (f_type e)))
                  (fst (parseEditorJsForRegisterTypes jsSource))) js.

Definition ordinary_types `{Platform} (htmlString : string) : bool :=
  forallb ordinary_module (matchModules htmlString).

Definition index_by {A : Type} (key : A -> string) (l : list A) (acc : list (string * A))
  : list (string * A) :=
  fold_left (fun o n => prop_set (key n) n o) l acc.

(** A snapshot whose list and index tell the same story: the listed nodes
    are objects with a string [type] and a boolean [isCustom], no two of
    the same type, and the index holds exactly the listed nodes, each
    under its type. *)
Definition snapshot_consistent `{Platform} (c : cache) : Prop :=
  NoDup (map type_key (nodes c))
  /\ (forall n, n ∈ nodes c ->
        exists o t b,
          n = VObj o /\ prop_lookup "type" o = Some (VStr t)
          /\ prop_lookup "isCustom" o = Some (VBool b))
  /\ (forall n, n ∈ nodes c ->
        prop_lookup (type_key n) (nodesByType c) = Some n)
  /\ (forall k v, prop_lookup k (nodesByType c) = Some v ->
        v ∈ nodes c /\ type_key v = k).

(** Every page the upstream ever answers with has ordinary types. *)
Definition ordinary_upstream `{Platform} : Prop :=
  forall k status statusText body html,
    upstream k = HttpResponse true status statusText body (Some html) ->
    ordinary_types html = true.

(** The calls a client can make on a catalog. *)
Inductive call :=
| CallRefresh
| CallGetCatalog (force : bool)
| CallList (customOnly : bool)
| CallGetNode (type : string)
| CallSearch (query : string) (customOnly : bool)
    (module category : option string) (limit : option number).

Definition perform `{Platform} (c : call) (st : state) : state :=
  match c with
  | CallRefresh => snd (refresh st)
  | CallGetCatalog force => snd (getCatalog force st)
  | CallList customOnly => snd (catalog_list customOnly st)
  | CallGetNode type => snd (getNode type st)
  | CallSearch query customOnly module category limit =>
      snd (search query customOnly module category limit st)
  end.

Definition after_calls `{Platform} (calls : list call) (st : state) : state :=
  fold_left (fun st c => perform c st) calls st.

(** Where the query first occurs in the text a node is searched by. *)
Definition match_index `{Platform} (q : string) (n : JsVal) : option nat :=
  str_index_of q (nodeHaystack n).

(** The score the loop gives a node whose text holds the query at [idx]. *)
Definition scored `{Platform} (q : string) (m : JsVal * Q) : Prop :=
  exists idx,
    match_index q (fst m) = Some idx
    /\ snd m
       = (inject_Z (Z.of_nat idx)
          + (Z.min (Z.of_nat (String.length (nodeHaystack (fst m)))) 10000
             # 10000))%Q.

(** A node is ranked no later than another when the query occurs in its
    text no later. *)
Definition earlier_match `{Platform} (q : string) (a b : JsVal * Q) : Prop :=
  exists i j,
    match_index q (fst a) = Some i /\ match_index q (fst b) = Some j
    /\ (i <= j)%nat.

(** What makes a node of the snapshot a match of a search. *)
Definition is_match `{Platform} (q : string) (customOnly : bool)
    (module category : option string) (c : cache) (n : JsVal) : Prop :=
  n ∈ nodes c
  /\ (customOnly = true -> truthy (js_get n "isCustom") = true)
  /\ passes_filter (filter_text module) n "module" = true
  /\ passes_filter (filter_text category) n "category" = true
  /\ str_includes (nodeHaystack n) q = true.

Fixpoint last_char (s : string) : option ascii :=
  match s with
  | EmptyString => None
  | String c EmptyString => Some c
  | String _ r => last_char r
  end.

Fixpoint slashes (n : nat) : string :=
  match n with
  | O => EmptyString
  | S n' => String "/" (slashes n')
  end.

(** How many of the nodes have the type [key], as a property key. *)
Definition occurrences `{Platform} (key : string) (l : list JsVal) : nat :=
  length (filter (fun n => String.eqb (js_String (js_get n "type")) key) l).

Definition tally `{Platform} (l : list JsVal) (t : list (string * counter))
  : list (string * counter) :=
  fold_left (fun t node => count_type (js_String (js_get node "type")) t) l t.

(** A counter the loop has already incremented. *)
Definition counted (key : string) (t : list (string * counter)) : nat :=
  match prop_lookup key t with
  | Some (Count n) => n
  | _ => 0%nat
  end.

Definition well_counted (key : string) (t : list (string * counter)) : Prop :=
  prop_lookup key t = None \/ exists n, prop_lookup key t = Some (Count (S n)).

(** Three line feeds in a row, somewhere in the text. *)
Fixpoint three_newlines (s : string) : bool :=
  match s with
  | String a (String b (String c _) as r1) =>
      Ascii.eqb a lf && Ascii.eqb b lf && Ascii.eqb c lf || three_newlines r1
  | _ => false
  end.

Fixpoint str_forall (p : ascii -> bool) (s : string) : bool :=
  match s with
  | EmptyString => true
  | String c r => p c && str_forall p r
  end.

Definition no_tab (s : string) : bool :=
  str_forall (fun c => negb (Ascii.eqb c tab)) s.

(** Text as [normalizeWhitespace] leaves it. *)
Definition tidy (t : string) : Prop :=
  trim t = t /\ three_newlines t = false /\ no_tab t = true.

Definition head_char (s : string) : option ascii :=
  match s with
  | EmptyString => None
  | String c _ => Some c
  end.

(** The names [evalAst] looks up while it evaluates a node: the
    identifiers in value position, through arrays, object properties,
    unary operators and template substitutions. *)
Fixpoint reads (n : node) : list string :=
  match n with
  | Identifier _ name => [name]
  | ArrayExpression _ elements =>
      concat (map (fun el => match el with
                             | Some e => reads e
                             | None => []
                             end) elements)
  | ObjectExpression _ properties =>
      concat (map (fun prop => match prop with
                               | Property _ _ _ value => reads value
                               | _ => []
                               end) properties)
  | UnaryExpression _ _ argument => reads argument
  | TemplateLiteral _ _ expressions => concat (map reads expressions)
  | _ => []
  end.

Module EnvDemo.
(** The literal [{category: label, inputs: [n, 1]}] *)
Definition options : node :=
  ObjectExpression (Span 0 34)
    [Property (Span 1 16) false (Identifier (Span 1 9) "category")
       (Identifier (Span 11 16) "label");
     Property (Span 18 33) false (Identifier (Span 18 24) "inputs")
       (ArrayExpression (Span 26 33)
          [Some (Identifier (Span 27 28) "n");
           Some (Literal (Span 30 31) (VNum (Finite 1)))])].

Definition call_env : gmap string JsVal :=
  <["label" := VStr "group"]> (<["n" := VNum (Finite 2)]> ∅).
End EnvDemo.

(** What a state may become in one call: the configuration stays, at most
    one request is sent and at most two clock readings are taken, and the
    snapshot stays unless a request was sent. *)
Definition frugal (st st' : state) : Prop :=
  config_nodeRedUrl (this st') = config_nodeRedUrl (this st)
  /\ _ttlMs (this st') = _ttlMs (this st)
  /\ _customModules (this st') = _customModules (this st)
  /\ _verbose (this st') = _verbose (this st)
  /\ (requests st <= requests st' <= S (requests st))%nat
  /\ (ticks st <= ticks st' <= ticks st + 2)%nat
  /\ (requests st' = requests st -> _cache (this st') = _cache (this st)).

(** The fields the help loop writes, and the fields the template loop
    writes. *)
Definition help_fields : list string :=
  ["module"; "modulePackage"; "moduleSet"; "help"].

Definition template_fields : list string :=
  ["module"; "modulePackage"; "moduleSet"; "template"; "templateFields"].

(** * Properties *)

(** ** Strings and property lists *)

Lemma substring_empty (n m : nat) : substring n m "" = "".
Proof. destruct n, m; reflexivity. Qed.

Lemma sliceSource_slice (src : string) (n : node) :
  sliceSource src n = str_slice src (start (node_span n)) (end_ (node_span n)).
Proof.
  unfold sliceSource, str_slice.
  destruct (String.eqb_spec src "") as [-> | _]; [|reflexivity].
  now rewrite substring_empty.
Qed.

Lemma append_assoc (a b c : string) : (a +:+ b) +:+ c = a +:+ (b +:+ c).
Proof.
  induction a as [|x a IH]; [reflexivity|].
  change (String x ((a +:+ b) +:+ c) = String x (a +:+ b +:+ c)).
  now rewrite IH.
Qed.

Lemma append_empty_r (a : string) : a +:+ "" = a.
Proof.
  induction a as [|x a IH]; [reflexivity|].
  change (String x (a +:+ "") = String x a).
  now rewrite IH.
Qed.

(** ** The evaluator *)

(** C1.  On a call, member-access, binary, logical, conditional or [new]
    expression, [evalAst] returns, in every environment and whatever the
    sub-expressions are, the object [{kind: "expr", source}] whose
    [source] is the text of the node: the slice of the script between the
    node's [start] and [end].  [evalAst] is a total function, so nothing
    is raised. *)
Theorem evalAst_dynamic_is_expression `{Platform}
    (n : node) (env : gmap string JsVal) (src : string) :
  is_dynamic_kind n = true ->
  evalAst n env src =
    VObj [("kind", VStr "expr");
          ("source",
            VStr (str_slice src (start (node_span n)) (end_ (node_span n))))].
Proof.
  intros Hkind.
  destruct n; try discriminate Hkind; cbn [evalAst];
    unfold source_placeholder; now rewrite sliceSource_slice.
Qed.

Lemma evalAst_dynamic_is_expression_witness :
  is_dynamic_kind Demo.wrap_call = true
  /\ evalAst (H := Demo.platform) Demo.wrap_call ∅ Demo.src_wrap =
       VObj [("kind", VStr "expr"); ("source", VStr "reg('bar', 'group')")].
Proof.
  split; [reflexivity|].
  exact (evalAst_dynamic_is_expression (H := Demo.platform)
           Demo.wrap_call ∅ Demo.src_wrap eq_refl).
Defined.

Lemma template_primitive_scalar (v : JsVal) :
  template_primitive v = is_scalar_literal v.
Proof. now destruct v. Qed.

Lemma template_concat_interleave `{Platform}
    (values : list JsVal) (quasis : list (option string)) (s : string) :
  length quasis = S (length values) ->
  template_concat quasis values s =
    if forallb is_scalar_literal values
    then Some (s +:+ interleave (map (default "") quasis)
                       (map js_String values))
    else None.
Proof.
  revert quasis s.
  induction values as [|v values IH]; intros quasis s Hlen.
  - destruct quasis as [|q [|? ?]]; try discriminate Hlen.
    cbn. now rewrite append_empty_r.
  - destruct quasis as [|q quasis]; [discriminate Hlen|].
    cbn [template_concat forallb map interleave].
    rewrite template_primitive_scalar.
    destruct (is_scalar_literal v); [|reflexivity].
    rewrite IH by (simpl in Hlen; congruence).
    cbn [andb]. destruct (forallb is_scalar_literal values); [|reflexivity].
    now rewrite !append_assoc.
Qed.

(** C8.  On a template literal (as acorn builds it: one quasi more than
    embedded expressions), [evalAst] returns the concatenation of the
    quasis with the texts of the embedded values exactly when every
    embedded expression evaluates to a string, a number or a boolean;
    when one does not, it returns the single object
    [{kind: "template", source}] carrying the text of the whole literal. *)
Theorem evalAst_template_all_or_nothing `{Platform}
    (sp : span) (quasis : list (option string)) (expressions : list node)
    (env : gmap string JsVal) (src : string) :
  length quasis = S (length expressions) ->
  evalAst (TemplateLiteral sp quasis expressions) env src =
    let values := map (fun e => evalAst e env src) expressions in
    if forallb is_scalar_literal values
    then VStr (interleave (map (default "") quasis) (map js_String values))
    else VObj [("kind", VStr "template");
               ("source", VStr (str_slice src (start sp) (end_ sp)))].
Proof.
  intros Hlen. cbn [evalAst].
  rewrite template_concat_interleave by now rewrite length_map.
  cbv zeta.
  destruct (forallb is_scalar_literal _); [reflexivity|].
  unfold source_placeholder. now rewrite sliceSource_slice.
Qed.

Lemma evalAst_template_all_or_nothing_witness :
  evalAst (H := Demo.platform) TemplateDemo.plain TemplateDemo.env
    TemplateDemo.src_plain = VStr "group-x"
  /\ evalAst (H := Demo.platform) TemplateDemo.mixed TemplateDemo.env
       TemplateDemo.src_mixed =
     VObj [("kind", VStr "template"); ("source", VStr "`a${f()}b${label}`")].
Proof.
  split.
  - exact (evalAst_template_all_or_nothing (H := Demo.platform)
             (Span 0 12) [Some ""; Some "-x"] [Identifier (Span 3 8) "label"]
             TemplateDemo.env TemplateDemo.src_plain eq_refl).
  - exact (evalAst_template_all_or_nothing (H := Demo.platform)
             (Span 0 18) [Some "a"; Some "b"; Some ""]
             [CallExpression (Span 4 7) (Identifier (Span 4 5) "f") [];
              Identifier (Span 11 16) "label"]
             TemplateDemo.env TemplateDemo.src_mixed eq_refl).
Defined.

(** ** The registration finder *)

(** C2, as the code has it.  A call whose callee is
    [RED.nodes.registerType] is accepted exactly when its first argument
    is a string literal that is not empty.  The second argument is not
    inspected: when present it is evaluated whatever its kind, and when
    absent the options are [null] and their source text is empty.  Every
    other call of this form leaves the registrations as they are. *)
Theorem direct_call_accepted_on_type_literal `{Platform}
    (src : string) (wrappers : gmap string wrapper)
    (found : list found_entry) (sp : span) (callee : node)
    (args : list node) :
  isRegisterTypeCallee callee = true ->
  let result := resolve_call src wrappers found (CallExpression sp callee args) in
  (forall tsp type,
      args !! 0%nat = Some (Literal tsp (VStr type)) -> type <> "" ->
      result = found ++ [Found type (evalAst_opt (args !! 1%nat) ∅ src)
                           (source_of_argument src (args !! 1%nat))])
  /\ ((forall tsp type,
          args !! 0%nat = Some (Literal tsp (VStr type)) -> type = "") ->
      result = found).
Proof.
  intros Hcallee result. subst result. cbn [resolve_call]. rewrite Hcallee.
  split.
  - intros tsp type Harg Hne. rewrite Harg. cbn [extractStringLiteral].
    destruct (String.eqb_spec type "") as [->|_]; [contradiction|].
    reflexivity.
  - intros Hnone.
    destruct (args !! 0%nat) as [[? v| | | | | | | | | | | | | | | | | | | | |]|];
      try reflexivity.
    destruct v; try reflexivity. cbn [extractStringLiteral].
    now rewrite (Hnone _ _ eq_refl).
Qed.

Lemma direct_call_accepted_on_type_literal_witness :
  resolve_call (H := Demo.platform) Demo.src_twice ∅ [] Demo.twice_second =
    [Found "foo" VNull ""].
Proof.
  exact (proj1 (direct_call_accepted_on_type_literal (H := Demo.platform)
                  Demo.src_twice ∅ [] (Span 48 77)
                  (Demo.registerType_callee 48)
                  [Literal (Span 71 76) (VStr "foo")] eq_refl)
           (Span 71 76) "foo" eq_refl ltac:(discriminate)).
Defined.

(** C2, as stated, fails on [RED.nodes.registerType('foo', opts)]: the
    callee matches, the second argument is an identifier, not an object
    literal, and the call contributes a registration. *)
Lemma direct_call_with_identifier_options_is_accepted :
  isRegisterTypeCallee (H := Demo.platform) (Demo.registerType_callee 0) = true
  /\ call_arguments Demo.ref_call !! 1%nat
     = Some (Identifier (Span 30 34) "opts")
  /\ resolve_call (H := Demo.platform) Demo.src_ref ∅ [] Demo.ref_call
     = [Found "foo" (VObj [("kind", VStr "ref"); ("name", VStr "opts")])
          "opts"]
  /\ parseEditorJsForRegisterTypes (H := Demo.platform) Demo.src_ref
     = ([Found "foo" (VObj [("kind", VStr "ref"); ("name", VStr "opts")])
           "opts"], []).
Proof. repeat split; vm_compute; reflexivity. Qed.





(** Each visited node appends its own registrations, if any. *)
Lemma resolve_call_appends `{Platform} (src : string)
    (wrappers : gmap string wrapper) (found : list found_entry) (n : node) :
  resolve_call src wrappers found n
  = found ++ resolve_call src wrappers [] n.
Proof.
  unfold resolve_call.
  repeat case_match; rewrite ?app_nil_r; reflexivity.
Qed.

Lemma fold_resolve_call `{Platform} (src : string)
    (wrappers : gmap string wrapper) (l : list node)
    (found : list found_entry) :
  fold_left (resolve_call src wrappers) l found
  = found ++ concat (map (resolve_call src wrappers []) l).
Proof.
  revert found. induction l as [|n l IH]; intros found; cbn [fold_left map concat].
  - now rewrite app_nil_r.
  - now rewrite IH, resolve_call_appends, app_assoc.
Qed.







(** ** The merge of the catalog builder *)

Lemma prop_lookup_replace {A} (k k' : string) (v : A) (o : list (string * A)) :
  prop_lookup k (prop_replace k' v o)
  = if String.eqb k k'
    then match prop_lookup k' o with
         | Some _ => Some v
         | None => None
         end
    else prop_lookup k o.
Proof.
  induction o as [|[k0 v0] o IH]; cbn [prop_replace prop_lookup].
  - now destruct (String.eqb k k').
  - destruct (String.eqb_spec k' k0) as [->|Hne0]; cbn [prop_lookup].
    + now destruct (String.eqb_spec k k0).
    + rewrite IH.
      destruct (String.eqb_spec k k') as [->|Hne].
      * now destruct (String.eqb_spec k' k0).
      * reflexivity.
Qed.

Lemma prop_lookup_insert_index {A} (n : N) (k k' : string) (v : A)
    (o : list (string * A)) :
  prop_lookup k' o = None ->
  prop_lookup k (prop_insert_index n k' v o)
  = if String.eqb k k' then Some v else prop_lookup k o.
Proof.
  induction o as [|[k0 v0] o IH]; intros Hfresh;
    cbn [prop_insert_index prop_lookup] in *.
  - reflexivity.
  - destruct (String.eqb_spec k' k0) as [->|Hne0]; [discriminate Hfresh|].
    destruct (array_index k0) as [m|]; [destruct (m <? n)%N|];
      cbn [prop_lookup]; try reflexivity.
    rewrite IH by assumption.
    destruct (String.eqb_spec k k0) as [->|_]; [|reflexivity].
    destruct (String.eqb_spec k0 k'); [congruence | reflexivity].
Qed.

Lemma prop_lookup_snoc {A} (k k' : string) (v : A) (o : list (string * A)) :
  prop_lookup k' o = None ->
  prop_lookup k (o ++ [(k', v)])
  = if String.eqb k k' then Some v else prop_lookup k o.
Proof.
  induction o as [|[k0 v0] o IH]; intros Hfresh; cbn [app prop_lookup] in *.
  - reflexivity.
  - destruct (String.eqb_spec k' k0) as [->|Hne0]; [discriminate Hfresh|].
    rewrite IH by assumption.
    destruct (String.eqb_spec k k0) as [->|_]; [|reflexivity].
    destruct (String.eqb_spec k0 k'); [congruence | reflexivity].
Qed.

Lemma prop_lookup_set {A} (k k' : string) (v : A) (o : list (string * A)) :
  prop_lookup k (prop_set k' v o)
  = if String.eqb k k' then Some v else prop_lookup k o.
Proof.
  unfold prop_set. destruct (prop_lookup k' o) as [v'|] eqn:Hk'.
  - now rewrite prop_lookup_replace, Hk'.
  - destruct (array_index k').
    + now apply prop_lookup_insert_index.
    + now apply prop_lookup_snoc.
Qed.

Lemma prop_lookup_obj_set (k k' : string) (v : JsVal)
    (o : list (string * JsVal)) :
  prop_lookup k (obj_set k' v o)
  = if String.eqb k k' && negb (String.eqb k' "__proto__")
    then Some v else prop_lookup k o.
Proof.
  unfold obj_set. destruct (String.eqb k' "__proto__").
  - now rewrite andb_false_r.
  - now rewrite andb_true_r, prop_lookup_set.
Qed.

Lemma prop_lookup_obj_assign (k : string) (upd o : list (string * JsVal)) :
  prop_lookup k (obj_assign o upd) = assigned k upd (prop_lookup k o).
Proof.
  unfold obj_assign, assigned. revert o.
  induction upd as [|[k' v] upd IH]; intros o; cbn [fold_left fst snd].
  - reflexivity.
  - now rewrite IH, prop_lookup_obj_set.
Qed.

Lemma js_get_obj_assign (k : string) (upd o : list (string * JsVal)) :
  js_get (VObj (obj_assign o upd)) k
  = default VUndef (assigned k upd (prop_lookup k o)).
Proof. unfold js_get. now rewrite prop_lookup_obj_assign. Qed.

Lemma assigned_untouched (k : string) (upd : list (string * JsVal))
    (init : option JsVal) :
  k ∉ map fst upd -> assigned k upd init = init.
Proof.
  unfold assigned. revert init.
  induction upd as [|[k' v] upd IH]; intros init Hk; cbn [fold_left fst snd].
  - reflexivity.
  - cbn [map fst] in Hk. apply not_elem_of_cons in Hk as [Hne Hk].
    destruct (String.eqb_spec k k') as [->|_]; [contradiction|].
    now apply IH.
Qed.

Lemma splitModuleName_shape (moduleName : string) :
  exists pkg set,
    splitModuleName moduleName
    = [("module", VStr moduleName); ("modulePackage", pkg); ("moduleSet", set)].
Proof.
  unfold splitModuleName.
  destruct (_ && _); eexists; eexists; reflexivity.
Qed.

(** C6, as the code has it.  In the record a registration leaves for its
    type: each of the nine common fields holds the later value when that
    is neither [null] nor [undefined], else the earlier value, else
    [null]; [optionsSource] holds the later text unless it is empty;
    [options] always holds the later options object, an empty object
    when the registration has none; the type and the three module
    attribution fields are overwritten; every other field keeps its
    earlier value.  The merged record is stored under its type, and the
    records of the other types are left as they are. *)
Theorem merge_record_fields (moduleName : string)
    (prev : list (string * JsVal)) (entry : found_entry) :
  let later := options_object (f_options entry) in
  let earlier := VObj prev in
  let merged := VObj (merge_record (splitModuleName moduleName) prev entry) in
  (forall f, f ∈ common_fields ->
     js_get merged f
     = if nullish (js_get later f)
       then if nullish (js_get earlier f) then VNull else js_get earlier f
       else js_get later f)
  /\ js_get merged "optionsSource"
     = (if String.eqb (f_optionsSource entry) ""
        then if truthy (js_get earlier "optionsSource")
             then js_get earlier "optionsSource" else VStr ""
        else VStr (f_optionsSource entry))
  /\ js_get merged "options" = later
  /\ js_get merged "type" = VStr (f_type entry)
  /\ (forall f, f ∈ ["module"; "modulePackage"; "moduleSet"] ->
        js_get merged f = js_get (VObj (splitModuleName moduleName)) f)
  /\ (forall f, f ∉ written_fields -> js_get merged f = js_get earlier f)
  /\ (forall nodesByType,
        f_type entry <> "__proto__" ->
        prop_lookup (f_type entry)
          (merge_found (splitModuleName moduleName) nodesByType entry)
        = Some (VObj (merge_record (splitModuleName moduleName)
                        (record_or_new nodesByType (f_type entry)) entry)))
  /\ (forall nodesByType type,
        type <> f_type entry ->
        prop_lookup type
          (merge_found (splitModuleName moduleName) nodesByType entry)
        = prop_lookup type nodesByType).
Proof.
  intros later earlier merged. subst later earlier merged.
  assert (Hown : forall nodesByType,
             f_type entry <> "__proto__" ->
             prop_lookup (f_type entry)
               (merge_found (splitModuleName moduleName) nodesByType entry)
             = Some (VObj (merge_record (splitModuleName moduleName)
                             (record_or_new nodesByType (f_type entry)) entry))).
  { intros nodesByType Hproto. unfold merge_found.
    rewrite prop_lookup_obj_set, String.eqb_refl.
    destruct (String.eqb_spec (f_type entry) "__proto__"); [contradiction|].
    reflexivity. }
  assert (Hothers : forall nodesByType type,
             type <> f_type entry ->
             prop_lookup type
               (merge_found (splitModuleName moduleName) nodesByType entry)
             = prop_lookup type nodesByType).
  { intros nodesByType type Hne. unfold merge_found.
    rewrite prop_lookup_obj_set.
    destruct (String.eqb_spec type (f_type entry)); [contradiction|].
    reflexivity. }
  refine (conj _ (conj _ (conj _ (conj _ (conj _ (conj _
            (conj Hown Hothers)))))));
    clear Hown Hothers;
    destruct (splitModuleName_shape moduleName) as (pkg & set & ->);
    unfold merge_record.
  - intros f Hf. rewrite js_get_obj_assign.
    unfold common_fields in Hf.
    repeat (apply elem_of_cons in Hf as [->|Hf]; [reflexivity|]).
    now apply elem_of_nil in Hf.
  - rewrite js_get_obj_assign. cbn.
    unfold js_or. cbn [truthy].
    now destruct (String.eqb (f_optionsSource entry) "").
  - rewrite js_get_obj_assign. reflexivity.
  - rewrite js_get_obj_assign. reflexivity.
  - intros f Hf. rewrite js_get_obj_assign.
    repeat (apply elem_of_cons in Hf as [->|Hf]; [reflexivity|]).
    now apply elem_of_nil in Hf.
  - intros f Hf.
    rewrite js_get_obj_assign, assigned_untouched; [reflexivity|].
    exact Hf.
Qed.

Lemma merge_record_fields_witness :
  js_get (VObj (merge_record MergeDemo.attribution MergeDemo.after_first
                  MergeDemo.second)) "category"
  = VStr "x".
Proof.
  exact (proj1 (merge_record_fields "demo/twice" MergeDemo.after_first
                  MergeDemo.second)
           "category" (list_elem_of_here _ _)).
Defined.

(** C6, as stated, fails for the field [options]: after
    [RED.nodes.registerType('foo', {category: 'x'})] the record of [foo]
    has the options [{category: 'x'}]; the later
    [RED.nodes.registerType('foo')], which has no options at all, leaves
    it with the empty options [{}]. *)
Lemma later_registration_without_options_clears_options :
  fst (parseEditorJsForRegisterTypes (H := Demo.platform) Demo.src_twice)
  = [MergeDemo.first; MergeDemo.second]
  /\ f_options MergeDemo.second = VNull
  /\ js_get (VObj MergeDemo.after_first) "options"
     = VObj [("category", VStr "x")]
  /\ js_get (VObj (merge_record MergeDemo.attribution MergeDemo.after_first
                     MergeDemo.second)) "options"
     = VObj []
  /\ js_get
       (js_get
          (VObj (p_nodesByType
                   (parseNodesHtml (H := Demo.platform) Demo.html_twice false)))
          "foo")
       "options"
     = VObj [].
Proof. repeat split; vm_compute; reflexivity. Qed.

(** ** The order of the final list *)

Section Sorting.
Context {A : Type} (cmp : A -> A -> Z).

Lemma sort_insert_perm (x : A) (l : list A) :
  Permutation (sort_insert cmp x l) (x :: l).
Proof.
  induction l as [|y l IH]; [reflexivity|].
  cbn [sort_insert]. destruct (cmp x y <=? 0); [reflexivity|].
  rewrite IH. apply perm_swap.
Qed.

Lemma array_sort_perm (l : list A) : Permutation (array_sort cmp l) l.
Proof.
  induction l as [|x l IH]; [reflexivity|].
  cbn [array_sort foldr]. rewrite sort_insert_perm.
  now apply perm_skip.
Qed.

Hypothesis cmp_total : forall a b, cmp a b <= 0 \/ cmp b a <= 0.

Lemma sort_insert_hd (x y : A) (l : list A) :
  in_order cmp y x -> HdRel (in_order cmp) y l ->
  HdRel (in_order cmp) y (sort_insert cmp x l).
Proof.
  intros Hyx Hhd. destruct l as [|z l]; cbn [sort_insert].
  - now constructor.
  - destruct (cmp x z <=? 0); constructor; [assumption|].
    now inversion Hhd.
Qed.

Lemma sort_insert_sorted (x : A) (l : list A) :
  Sorted (in_order cmp) l -> Sorted (in_order cmp) (sort_insert cmp x l).
Proof.
  induction l as [|y l IH]; intros Hs; cbn [sort_insert].
  - repeat constructor.
  - destruct (Z.leb_spec (cmp x y) 0) as [Hle|Hgt].
    + constructor; [assumption|]. now constructor.
    + inversion Hs as [|? ? Hs' Hhd]; subst.
      constructor; [now apply IH|].
      apply sort_insert_hd; [|assumption].
      unfold in_order. destruct (cmp_total x y); lia.
Qed.

Lemma array_sort_sorted (l : list A) : Sorted (in_order cmp) (array_sort cmp l).
Proof.
  induction l as [|x l IH]; [constructor|].
  cbn [array_sort foldr]. now apply sort_insert_sorted.
Qed.
End Sorting.

Lemma consistent_total {A : Type} (cmp : A -> A -> Z) :
  consistent_comparator cmp ->
  forall a b, cmp a b <= 0 \/ cmp b a <= 0.
Proof.
  intros Hcc a b.
  destruct (Z_le_gt_dec (cmp a b) 0) as [Hab|Hab]; [now left|right].
  destruct (Z_le_gt_dec (cmp b a) 0) as [Hba|Hba]; [assumption|].
  pose proof (cc_gt_trans cmp Hcc a b a Hab Hba) as Haa.
  rewrite (cc_refl cmp Hcc a) in Haa. lia.
Qed.

(** C9, as the code has it.  Whenever [localeCompare] is a consistent
    comparator, the final list holds every record of the table once, and
    of two adjacent records the earlier one's type does not come after
    the later one's in the order of [localeCompare]. *)
Theorem nodes_sorted_by_localeCompare `{Platform}
    (htmlString : string) (verbose : bool) :
  consistent_comparator localeCompare ->
  let parsed := parseNodesHtml htmlString verbose in
  Sorted (fun a b => localeCompare (type_key a) (type_key b) <= 0)
    (p_nodes parsed)
  /\ Permutation (p_nodes parsed) (prop_values (p_nodesByType parsed)).
Proof.
  intros Hcc. unfold parseNodesHtml.
  destruct (fold_left merge_module (matchModules htmlString) ([], []))
    as [nodesByType warnings].
  cbn [p_nodes p_nodesByType]. split.
  - apply (array_sort_sorted compare_by_type).
    intros a b. unfold compare_by_type.
    apply (consistent_total localeCompare Hcc).
  - apply array_sort_perm.
Qed.

Lemma string_lt_irrefl (s : string) : ~ String_as_OT.lt s s.
Proof. intros Hlt. exact (String_as_OT.lt_not_eq s s Hlt eq_refl). Qed.

Lemma collate_negative (a b : string) :
  Demo.collate a b < 0 <-> collates_before a b.
Proof.
  unfold Demo.collate, collates_before.
  destruct (String.compare (toLowerCase a) (toLowerCase b)) eqn:Hlow.
  - apply String_as_OT.cmp_eq in Hlow. rewrite Hlow.
    destruct (String.compare b a) eqn:Hplain.
    + apply String_as_OT.cmp_eq in Hplain. subst b.
      split; [lia|]. intros [Hlt|[_ Hlt]]; now apply string_lt_irrefl in Hlt.
    + apply String_as_OT.cmp_lt in Hplain. split; [|lia]. now right.
    + split; [lia|]. intros [Hlt|[_ Hlt]].
      * now apply string_lt_irrefl in Hlt.
      * apply String_as_OT.cmp_lt in Hlt. unfold String_as_OT.cmp in Hlt.
        congruence.
  - apply String_as_OT.cmp_lt in Hlow. split; [|lia]. now left.
  - split; [lia|]. intros [Hlt|[Heq _]].
    + apply String_as_OT.cmp_lt in Hlt. unfold String_as_OT.cmp in Hlt.
      congruence.
    + apply String_as_OT.cmp_eq in Heq. unfold String_as_OT.cmp in Heq.
      congruence.
Qed.

Lemma collate_opposite (a b : string) :
  Demo.collate a b = - Demo.collate b a.
Proof.
  unfold Demo.collate.
  rewrite (String.compare_antisym (toLowerCase a) (toLowerCase b)).
  rewrite (String.compare_antisym a b).
  destruct (String.compare (toLowerCase b) (toLowerCase a));
    destruct (String.compare b a); reflexivity.
Qed.

Lemma collate_zero (a b : string) : Demo.collate a b = 0 -> a = b.
Proof.
  unfold Demo.collate.
  destruct (String.compare (toLowerCase a) (toLowerCase b)); try lia.
  destruct (String.compare b a) eqn:Hplain; try lia.
  intros _. symmetry. now apply String.compare_eq_iff.
Qed.

Lemma collates_before_trans (a b c : string) :
  collates_before a b -> collates_before b c -> collates_before a c.
Proof.
  unfold collates_before.
  intros [Hab|[Eab Hab]] [Hbc|[Ebc Hbc]].
  - left. eapply String_as_OT.lt_trans; eassumption.
  - left. now rewrite <- Ebc.
  - left. now rewrite Eab.
  - right. split; [congruence|]. eapply String_as_OT.lt_trans; eassumption.
Qed.

Lemma collate_consistent : consistent_comparator Demo.collate.
Proof.
  split.
  - intros a. pose proof (collate_opposite a a). lia.
  - intros a b Hab. rewrite collate_opposite. lia.
  - intros a b c Hab Hbc.
    apply collate_zero in Hab. subst b. exact Hbc.
  - intros a b c Hab Hbc. apply collate_negative.
    apply collate_negative in Hab, Hbc.
    eapply collates_before_trans; eassumption.
  - intros a b c Hab Hbc.
    rewrite collate_opposite in Hab, Hbc |- *.
    assert (Hca : Demo.collate c a < 0).
    { apply collate_negative.
      apply (collates_before_trans c b a); apply collate_negative; lia. }
    lia.
Qed.

Lemma nodes_sorted_by_localeCompare_witness :
  Sorted (fun a b => Demo.collate (type_key (H := Demo.platform) a)
                       (type_key (H := Demo.platform) b) <= 0)
    (p_nodes (parseNodesHtml (H := Demo.platform) Demo.html_case false)).
Proof.
  exact (proj1 (nodes_sorted_by_localeCompare (H := Demo.platform)
                  Demo.html_case false collate_consistent)).
Defined.

(** C9, as stated, fails on a module documenting the types [B] and [a]:
    with a collation that puts [a] before [B], as those behind
    [localeCompare] do, the list is [a], [B], and [a] is not
    lexicographically less than or equal to [B]. *)
Lemma sorted_output_not_lexicographic :
  map (type_key (H := Demo.platform))
    (p_nodes (parseNodesHtml (H := Demo.platform) Demo.html_case false))
  = ["a"; "B"]
  /\ String.leb "a" "B" = false
  /\ ~ Sorted (fun a b => String.leb (type_key (H := Demo.platform) a)
                            (type_key (H := Demo.platform) b) = true)
         (p_nodes (parseNodesHtml (H := Demo.platform) Demo.html_case false)).
Proof.
  split; [vm_compute; reflexivity|]. split; [vm_compute; reflexivity|].
  intros Hs. vm_compute in Hs.
  inversion Hs as [|? ? _ Hhd]. inversion Hhd as [|? ? Hle]. discriminate Hle.
Qed.

(** ** The cache *)

Section CacheFacts.
Context `{Platform}.

Lemma refresh_failure (st : state) (e : error) :
  failure (upstream (requests st)) = Some e ->
  refresh st = (Throw e, requested st).
Proof.
  intros Hfail. unfold refresh, bind, callNodeRed, requested.
  destruct (upstream (requests st)) as [reason|[|] status statusText body [text|]];
    cbn in Hfail |- *; congruence.
Qed.

Lemma refresh_success (st : state) (status : nat)
    (statusText body html : string) :
  upstream (requests st) = HttpResponse true status statusText body (Some html) ->
  refresh st
  = (Return (published_snapshot (this st) html (clock (ticks st))),
     set_cache (published_snapshot (this st) html (clock (ticks st)))
       (ticked (requested st))).
Proof.
  intros Hok. unfold refresh, bind, callNodeRed. rewrite Hok. reflexivity.
Qed.

Lemma refresh_requests (st : state) :
  requests (snd (refresh st)) = S (requests st).
Proof.
  destruct (failure (upstream (requests st))) as [e|] eqn:Hf.
  - now rewrite (refresh_failure st e Hf).
  - destruct (upstream (requests st))
      as [reason|[|] status statusText body [text|]] eqn:Hup;
      try discriminate Hf.
    now rewrite (refresh_success st _ _ _ _ Hup).
Qed.

Lemma getCatalog_unfold (force : bool) (st : state) :
  getCatalog force st
  = if stale force st
    then match refresh (consulted force st) with
         | (Return _, st') => (Return (_cache (this st')), st')
         | (Throw e, st') => (Throw e, st')
         end
    else (Return (_cache (this st)), consulted force st).
Proof.
  unfold getCatalog, stale, consulted.
  destruct force; cbn [orb];
    [|destruct (_ttlMs (this st) =? 0) eqn:Httl; cbn [orb];
      [|destruct (_ttlMs (this st) <? clock (ticks st) - ts (_cache (this st)))
          eqn:Hage; cbn [orb];
        [|destruct (length (nodes (_cache (this st))) =? 0)%nat eqn:Hlen]]];
    cbv beta iota delta [bind get_this _isExpired ret now ticked];
    rewrite ?Httl; cbv beta iota; cbn [this ticks requests orb];
    rewrite ?Hage, ?Hlen; cbn [orb];
    try reflexivity;
    now destruct (refresh _) as [[c|e] st'].
Qed.

Lemma getCatalog_returns_current (force : bool) (st st' : state) (c : cache) :
  getCatalog force st = (Return c, st') -> _cache (this st') = c.
Proof.
  rewrite getCatalog_unfold. destruct (stale force st).
  - destruct (refresh _) as [[c0|e] st0]; congruence.
  - unfold consulted. intros [= <- <-].
    now destruct (force || _).
Qed.
End CacheFacts.

(** C4.  [getCatalog(force)] sends a request, that is, performs a
    refresh, exactly when the call is forced, or the threshold is zero,
    or the age of the snapshot exceeds the threshold, or the snapshot is
    empty.  Otherwise it returns the snapshot it holds and leaves the
    instance untouched.  A refresh that is answered publishes and returns
    a snapshot built from the answer and the clock alone.  In particular,
    when a non-forced call is followed by a second one while the snapshot
    is not empty and its age is within a non-zero threshold, the second
    call returns the same snapshot, with the same timestamp. *)
Theorem getCatalog_refreshes_exactly_when_stale `{Platform}
    (force : bool) (st : state) :
  let out := getCatalog force st in
  requests (snd out)
  = (if stale force st then S (requests st) else requests st)
  /\ (stale force st = false ->
      fst out = Return (_cache (this st)) /\ this (snd out) = this st)
  /\ (forall status statusText body html,
         stale force st = true ->
         upstream (requests st)
         = HttpResponse true status statusText body (Some html) ->
         let c := published_snapshot (this st) html
                    (clock (ticks (consulted force st))) in
         fst out = Return c /\ _cache (this (snd out)) = c)
  /\ (forall c1 st1,
         force = false ->
         out = (Return c1, st1) ->
         _ttlMs (this st1) <> 0 ->
         clock (ticks st1) - ts c1 <= _ttlMs (this st1) ->
         nodes c1 <> [] ->
         exists st2,
           getCatalog false st1 = (Return c1, st2)
           /\ this st2 = this st1
           /\ ts (_cache (this st2)) = ts c1).
Proof.
  intros out. subst out.
  assert (Hrank : requests (consulted force st) = requests st).
  { unfold consulted. now destruct (force || (_ttlMs (this st) =? 0)). }
  split; [|split; [|split]].
  - rewrite getCatalog_unfold. destruct (stale force st).
    + pose proof (refresh_requests (consulted force st)) as Hreq.
      destruct (refresh (consulted force st)) as [[c|e] st']; cbn [snd] in *;
        now rewrite Hreq, Hrank.
    + exact Hrank.
  - intros Hfresh. rewrite getCatalog_unfold, Hfresh. cbn [fst snd].
    split; [reflexivity|].
    unfold consulted. now destruct (force || (_ttlMs (this st) =? 0)).
  - intros status statusText body html Hstale Hup c.
    rewrite getCatalog_unfold, Hstale.
    rewrite <- Hrank in Hup.
    rewrite (refresh_success _ _ _ _ _ Hup). cbn [fst snd]. subst c.
    assert (Hthis : this (consulted force st) = this st).
    { unfold consulted. now destruct (force || (_ttlMs (this st) =? 0)). }
    rewrite Hthis. split; reflexivity.
  - intros c1 st1 _ Hfirst Httl Hage Hnodes.
    pose proof (getCatalog_returns_current _ _ _ _ Hfirst) as Hc1.
    exists (ticked st1). rewrite getCatalog_unfold.
    assert (Hfresh : stale false st1 = false).
    { unfold stale. rewrite Hc1. cbn [orb].
      destruct (Z.eqb_spec (_ttlMs (this st1)) 0) as [?|_]; [contradiction|].
      destruct (Z.ltb_spec (_ttlMs (this st1)) (clock (ticks st1) - ts c1));
        [lia|].
      destruct (nodes c1); [contradiction|reflexivity]. }
    rewrite Hfresh. unfold consulted. cbn [orb].
    destruct (Z.eqb_spec (_ttlMs (this st1)) 0) as [?|_]; [contradiction|].
    rewrite Hc1. cbn [ticked this]. now rewrite Hc1.
Qed.

Lemma getCatalog_refreshes_exactly_when_stale_witness :
  exists c1 st1 st2,
    getCatalog (H := Demo.platform) false CacheDemo.patient = (Return c1, st1)
    /\ ts c1 = 100000
    /\ getCatalog (H := Demo.platform) false st1 = (Return c1, st2)
    /\ ts (_cache (this st2)) = 100000.
Proof.
  destruct (getCatalog (H := Demo.platform) false CacheDemo.patient)
    as [[c1|e] st1] eqn:Hfirst; [|vm_compute in Hfirst; discriminate Hfirst].
  assert (Hvals : ts c1 = 100000 /\ _ttlMs (this st1) = 1000000
                  /\ ticks st1 = 2%nat /\ nodes c1 <> []).
  { vm_compute in Hfirst. injection Hfirst as <- <-.
    repeat split; discriminate. }
  destruct Hvals as (Hts & Httl & Hticks & Hnodes).
  destruct (proj2 (proj2 (proj2
              (getCatalog_refreshes_exactly_when_stale (H := Demo.platform)
                 false CacheDemo.patient)))
              c1 st1 eq_refl Hfirst) as (st2 & Hsecond & _ & Hts2).
  - rewrite Httl. discriminate.
  - rewrite Httl, Hticks, Hts. vm_compute. discriminate.
  - exact Hnodes.
  - exists c1, st1, st2. repeat split; congruence.
Defined.

(** C5, as the code has it.  When the request of a [refresh()] fails, the
    error is raised and the instance, its snapshot included, is left as
    it was.  A non-forced read that follows returns that snapshot as long
    as it is not empty and its age is within a non-zero threshold;
    otherwise the read refreshes again, and raises in turn when that
    request fails too, the snapshot still in place. *)
Theorem refresh_failure_keeps_snapshot `{Platform} (st : state) :
  fetch_fails (upstream (requests st)) = true ->
  exists e,
    refresh st = (Throw e, requested st)
    /\ this (requested st) = this st
    /\ (stale false (requested st) = false ->
        getCatalog false (requested st)
        = (Return (_cache (this st)), ticked (requested st)))
    /\ (stale false (requested st) = true ->
        fetch_fails (upstream (S (requests st))) = true ->
        exists e' st',
          getCatalog false (requested st) = (Throw e', st')
          /\ this st' = this st).
Proof.
  intros Hfails.
  assert (Hfail : forall r, fetch_fails r = true -> exists e, failure r = Some e).
  { intros [reason|[|] status statusText body [text|]] Hr;
      try discriminate Hr; eexists; reflexivity. }
  destruct (Hfail _ Hfails) as [e He]. exists e.
  split; [now apply refresh_failure|]. split; [reflexivity|]. split.
  - intros Hfresh. rewrite getCatalog_unfold, Hfresh.
    unfold consulted. cbn [orb].
    destruct (_ttlMs (this (requested st)) =? 0) eqn:Httl; [|reflexivity].
    unfold stale in Hfresh. rewrite Httl in Hfresh. discriminate Hfresh.
  - intros Hstale Hfails'.
    rewrite getCatalog_unfold, Hstale.
    assert (Hup : fetch_fails
                    (upstream (requests (consulted false (requested st))))
                  = true).
    { unfold consulted. now destruct (false || _). }
    destruct (Hfail _ Hup) as [e' He'].
    rewrite (refresh_failure _ e' He').
    eexists; eexists; split; [reflexivity|].
    unfold consulted. now destruct (false || _).
Qed.

Lemma refresh_failure_keeps_snapshot_witness :
  exists e,
    refresh (H := Demo.platform) CacheDemo.served
    = (Throw e, requested CacheDemo.served).
Proof.
  destruct (refresh_failure_keeps_snapshot (H := Demo.platform)
              CacheDemo.served eq_refl) as (e & Hrefresh & _).
  exists e. exact Hrefresh.
Defined.

(** C5, as stated, fails once the snapshot has expired: an instance holds
    a good snapshot taken at 100 s; a [refresh()] fails; the non-forced
    read that follows, at 200 s with the threshold of 60 s, does not
    return the snapshot: it sends a request of its own and raises its
    error. *)
Lemma expired_read_raises_after_failed_refresh :
  nodes (_cache (this CacheDemo.served)) <> []
  /\ ts (_cache (this CacheDemo.served)) = 100000
  /\ refresh (H := Demo.platform) CacheDemo.served
     = (Throw CacheDemo.down, requested CacheDemo.served)
  /\ _cache (this (requested CacheDemo.served))
     = _cache (this CacheDemo.served)
  /\ fst (getCatalog (H := Demo.platform) false (requested CacheDemo.served))
     = Throw CacheDemo.down.
Proof.
  repeat split; try (vm_compute; reflexivity).
  vm_compute. discriminate.
Qed.

(** ** The limit of a search *)


Lemma search_lim_clamped (q : Q) :
  (1 <= search_lim (Some (Finite q)) <= 200)%Q
  /\ ((1 <= q <= 200)%Q -> (search_lim (Some (Finite q)) == q)%Q)
  /\ ((q < 1)%Q -> (search_lim (Some (Finite q)) == 1)%Q)
  /\ ((200 < q)%Q -> (search_lim (Some (Finite q)) == 200)%Q).
Proof.
  cbn [search_lim default].
  destruct (Q.max_spec 1 (Qmin 200 q)) as [[Hlt ->]|[Hle ->]];
    destruct (Q.min_spec 200 q) as [[Hlt' Hmin]|[Hle' Hmin]];
    rewrite Hmin in *; repeat split; intros; lra.
Qed.

Lemma search_blank `{Platform}
    (query : string) (customOnly : bool) (module category : option string)
    (limit : option number) (st : state) :
  toLowerCase (trim query) = "" ->
  search query customOnly module category limit st = (Return [], st).
Proof. intros Hq. unfold search. now rewrite Hq. Qed.

Lemma search_returns `{Platform}
    (query : string) (customOnly : bool) (module category : option string)
    (limit : option number) (st st' : state) (entries : list JsVal) :
  toLowerCase (trim query) <> "" ->
  search query customOnly module category limit st = (Return entries, st') ->
  exists c,
    getCatalog false st = (Return c, st')
    /\ entries
       = map search_entry
           (take (Z.to_nat (Qfloor (search_lim limit)))
              (ranked_matches (toLowerCase (trim query)) customOnly module
                 category c)).
Proof.
  intros Hq. unfold search.
  destruct (String.eqb_spec (toLowerCase (trim query)) "") as [?|_];
    [contradiction|].
  unfold bind. destruct (getCatalog false st) as [[c|e] st1]; [|discriminate].
  destruct (existsb _ _); [discriminate|].
  unfold ret. intros [= <- <-]. now exists c.
Qed.




(** * Further properties *)

(** ** Splitting and joining *)

Lemma fold_join_prefix (sep a b : string) (l : list string) :
  fold_left (fun acc y => acc +:+ sep +:+ y) l (a +:+ b)
  = a +:+ fold_left (fun acc y => acc +:+ sep +:+ y) l b.
Proof.
  revert b. induction l as [|x l IH]; intros b; cbn [fold_left].
  - reflexivity.
  - now rewrite append_assoc, IH.
Qed.

Lemma str_join_cons (sep x y : string) (l : list string) :
  str_join sep (x :: y :: l) = x +:+ sep +:+ str_join sep (y :: l).
Proof.
  unfold str_join. cbn [fold_left].
  rewrite fold_join_prefix. f_equal. apply fold_join_prefix.
Qed.

Lemma str_join_head (sep : string) (c : ascii) (x : string) (l : list string) :
  str_join sep (String c x :: l) = String c (str_join sep (x :: l)).
Proof.
  destruct l as [|y l]; [reflexivity|].
  now rewrite !str_join_cons.
Qed.

Lemma str_split_nonempty (sep : ascii) (s : string) : str_split sep s <> [].
Proof.
  destruct s as [|c r]; cbn [str_split]; [discriminate|].
  destruct (Ascii.eqb c sep); [discriminate|].
  destruct (str_split sep r); discriminate.
Qed.

(** Joining the pieces of a split with the separator gives the string
    back. *)
Lemma str_join_split (sep : ascii) (s : string) :
  str_join (String sep "") (str_split sep s) = s.
Proof.
  induction s as [|c r IH]; [reflexivity|].
  cbn [str_split].
  destruct (Ascii.eqb_spec c sep) as [->|Hne].
  - destruct (str_split sep r) as [|x l] eqn:Hsplit.
    + now apply str_split_nonempty in Hsplit.
    + rewrite str_join_cons, IH. reflexivity.
  - destruct (str_split sep r) as [|x l] eqn:Hsplit.
    + now apply str_split_nonempty in Hsplit.
    + now rewrite str_join_head, IH.
Qed.

(** X1.  For a module name that does not begin with a slash, the three
    attribution fields recombine into the name: [module] is the name
    itself, and the name is [modulePackage/moduleSet] when [moduleSet] is
    a string, which is then not empty, and [modulePackage], possibly
    followed by one slash, when [moduleSet] is [null]. *)
Theorem splitModuleName_recombines (moduleName : string) :
  str_starts_with moduleName "/" = false ->
  let fields := VObj (splitModuleName moduleName) in
  js_get fields "module" = VStr moduleName
  /\ exists pkg,
       js_get fields "modulePackage" = VStr pkg
       /\ ((exists set,
              js_get fields "moduleSet" = VStr set
              /\ set <> ""
              /\ moduleName = pkg +:+ "/" +:+ set)
           \/ (js_get fields "moduleSet" = VNull
               /\ (moduleName = pkg \/ moduleName = pkg +:+ "/"))).
Proof.
  intros Hslash fields. subst fields. unfold splitModuleName.
  pose proof (str_join_split "/" moduleName) as Hjoin.
  assert (Hnull : forall pkg rest,
             moduleName = pkg +:+ "/" +:+ rest ->
             (exists set,
                 str_or_null rest = VStr set /\ set <> ""
                 /\ moduleName = pkg +:+ "/" +:+ set)
             \/ (str_or_null rest = VNull
                 /\ (moduleName = pkg \/ moduleName = pkg +:+ "/"))).
  { intros pkg rest Hname. unfold str_or_null.
    destruct (String.eqb_spec rest "") as [->|Hne].
    - right. split; [reflexivity|]. now right.
    - left. exists rest. auto. }
  destruct (str_split "/" moduleName) as [|p0 [|p1 rest]] eqn:Hsplit.
  - now apply str_split_nonempty in Hsplit.
  - cbn in Hjoin. subst p0. rewrite andb_false_r.
    split; [reflexivity|]. exists moduleName. split.
    + cbn. now destruct (String.eqb moduleName "").
    + right. split; [reflexivity|]. now left.
  - rewrite str_join_cons in Hjoin.
    destruct (str_starts_with moduleName "@" && _) eqn:Hscoped.
    + split; [reflexivity|]. exists (str_join "/" [p0; p1]). split; [reflexivity|].
      cbn [take drop js_get prop_lookup String.eqb Ascii.eqb Bool.eqb default].
      destruct rest as [|r0 rest].
      * right. split; [reflexivity|]. left. now rewrite <- Hjoin.
      * apply Hnull. rewrite <- Hjoin, (str_join_cons "/" p1 r0 rest).
        rewrite (str_join_cons "/" p0 p1 []). cbn [str_join fold_left].
        now rewrite !append_assoc.
    + split; [reflexivity|].
      destruct (String.eqb_spec p0 "") as [->|Hp0].
      * rewrite <- Hjoin in Hslash. discriminate Hslash.
      * exists p0. split.
        -- cbn. now destruct (String.eqb_spec p0 "").
        -- apply Hnull. now rewrite <- Hjoin.
Qed.

Lemma splitModuleName_recombines_witness :
  exists pkg set,
    js_get (VObj (splitModuleName "@scope/nodes/extra/set")) "modulePackage"
    = VStr pkg
    /\ js_get (VObj (splitModuleName "@scope/nodes/extra/set")) "moduleSet"
       = VStr set
    /\ "@scope/nodes/extra/set" = pkg +:+ "/" +:+ set.
Proof.
  destruct (splitModuleName_recombines "@scope/nodes/extra/set" eq_refl)
    as (_ & pkg & Hpkg & [(set & Hset & _ & Hname)|(Hnull & _)]).
  - exists pkg, set. auto.
  - discriminate Hnull.
Defined.

(** ** Trimming *)

Lemma trim_start_head (s : string) :
  trim_start s = ""
  \/ exists c r, trim_start s = String c r /\ is_space c = false.
Proof.
  induction s as [|c r IH]; [now left|].
  cbn [trim_start]. destruct (is_space c) eqn:Hc; [exact IH|].
  right. eauto.
Qed.

Lemma trim_end_idem (s : string) : trim_end (trim_end s) = trim_end s.
Proof.
  induction s as [|c r IH]; [reflexivity|].
  cbn [trim_end].
  destruct (trim_end r) as [|d r'] eqn:Hr.
  - destruct (is_space c) eqn:Hc; [reflexivity|].
    cbn [trim_end]. now rewrite Hc.
  - cbn [trim_end] in *. rewrite IH. reflexivity.
Qed.

Lemma trim_end_head (c : ascii) (r : string) :
  is_space c = false -> exists r', trim_end (String c r) = String c r'.
Proof.
  intros Hc. cbn [trim_end]. destruct (trim_end r); [rewrite Hc|]; eauto.
Qed.

Lemma trim_idem (s : string) : trim (trim s) = trim s.
Proof.
  unfold trim.
  destruct (trim_start_head s) as [->|(c & r & -> & Hc)]; [reflexivity|].
  destruct (trim_end_head c r Hc) as [r' Hr'].
  rewrite Hr'. cbn [trim_start]. rewrite Hc, <- Hr'.
  apply trim_end_idem.
Qed.

(** ** The content extractor *)

Lemma classify_script_js (acc : list string * list (string * string)
                                * list (string * string))
    (el : script_element) (code : string) :
  code ∈ (classify_script acc el).1.1 ->
  code ∈ acc.1.1
  \/ (is_source_block el = true
      /\ code = trim (default "" (inner_html el)) /\ code <> "").
Proof.
  destruct acc as [[js helps] templates]. unfold classify_script, is_source_block.
  cbn [fst snd].
  destruct (negb (attr_truthy (attr_help_name el))
            && negb (attr_truthy (attr_template_name el))
            && _); [|now left].
  destruct (String.eqb_spec (trim (default "" (inner_html el))) "") as [?|Hne];
    [now left|].
  intros [Hold|Hnew%list_elem_of_singleton]%elem_of_app; [now left|].
  right. subst code. auto.
Qed.

(** X2.  Every registration source block of a module is the trimmed
    content of a [<script>] element that carries neither a help name nor a
    template name and whose type is JavaScript or absent; it is not empty
    and has no white space left at either end. *)
Theorem extractScriptsAndDocs_source_blocks `{Platform}
    (moduleHtml code : string) :
  code ∈ (extractScriptsAndDocs moduleHtml).1.1 ->
  code <> "" /\ trim code = code
  /\ exists el,
       el ∈ scriptElements moduleHtml
       /\ is_source_block el = true
       /\ code = trim (default "" (inner_html el)).
Proof.
  unfold extractScriptsAndDocs.
  assert (Hfold : forall l acc,
             code ∈ (fold_left classify_script l acc).1.1 ->
             code ∈ acc.1.1
             \/ exists el, el ∈ l /\ is_source_block el = true
                  /\ code = trim (default "" (inner_html el)) /\ code <> "").
  { induction l as [|el l IH]; intros acc Hin; cbn [fold_left] in Hin.
    - now left.
    - destruct (IH _ Hin) as [Hacc|(el' & Hel' & Hrest)].
      + destruct (classify_script_js acc el code Hacc) as [?|Hnew];
          [now left|].
        right. exists el. split; [apply list_elem_of_here|exact Hnew].
      + right. exists el'. split; [now apply list_elem_of_further|exact Hrest]. }
  intros Hin.
  destruct (Hfold _ _ Hin) as [Hnil|(el & Hel & Hblock & Hcode & Hne)].
  - cbn in Hnil. now apply elem_of_nil in Hnil.
  - split; [exact Hne|]. split.
    + subst code. apply trim_idem.
    + exists el. auto.
Qed.

Lemma extractScriptsAndDocs_source_blocks_witness :
  Demo.src_wrap <> "" /\ trim Demo.src_wrap = Demo.src_wrap.
Proof.
  destruct (extractScriptsAndDocs_source_blocks (H := Demo.platform)
              Demo.body_wrap Demo.src_wrap) as (Hne & Htrim & _).
  - vm_compute. apply list_elem_of_here.
  - split; assumption.
Defined.

(** ** The template field extractor *)

Lemma existsb_eqb_elem (x : string) (l : list string) :
  existsb (String.eqb x) l = true <-> x ∈ l.
Proof.
  rewrite existsb_exists, list_elem_of_In. split.
  - intros (y & Hy & ->%String.eqb_eq). exact Hy.
  - intros Hx. exists x. split; [exact Hx | apply String.eqb_refl].
Qed.

Lemma dedupe_from_spec (seen l : list string) :
  NoDup (dedupe_from seen l)
  /\ forall x, x ∈ dedupe_from seen l <-> x ∈ l /\ x <> "" /\ x ∉ seen.
Proof.
  revert seen. induction l as [|y l IH]; intros seen; cbn [dedupe_from].
  - split; [constructor|]. intros x. split.
    + intros Hx. now apply elem_of_nil in Hx.
    + intros (Hx & _). now apply elem_of_nil in Hx.
  - destruct (String.eqb_spec y "") as [->|Hy]; cbn [orb].
    + destruct (IH seen) as [Hnd Hin]. split; [exact Hnd|].
      intros x. rewrite Hin, elem_of_cons. split; [tauto|].
      intros ([->|Hx] & Hne & Hseen); [contradiction|tauto].
    + destruct (existsb (String.eqb y) seen) eqn:Hseen.
      * apply existsb_eqb_elem in Hseen.
        destruct (IH seen) as [Hnd Hin]. split; [exact Hnd|].
        intros x. rewrite Hin, elem_of_cons. split; [tauto|].
        intros ([->|Hx] & Hne & Hnot); [contradiction|tauto].
      * assert (Hnot : y ∉ seen).
        { intros Hin. apply existsb_eqb_elem in Hin. congruence. }
        destruct (IH (y :: seen)) as [Hnd Hin]. split.
        -- constructor; [|exact Hnd]. rewrite Hin.
           intros (_ & _ & Hy'). apply Hy'. apply list_elem_of_here.
        -- intros x. rewrite !elem_of_cons, Hin, not_elem_of_cons.
           split.
           ++ intros [->|(Hx & Hne & Hxy & Hxs)]; tauto.
           ++ intros ([->|Hx] & Hne & Hxs); [now left|].
              destruct (String.eqb_spec x y) as [->|Hxy]; [now left|].
              right. tauto.
Qed.

Lemma str_prefix_drop (p s : string) :
  str_prefix p s = true -> s = p +:+ str_drop (String.length p) s.
Proof.
  revert s. induction p as [|a p IH]; intros s Hp; [reflexivity|].
  destruct s as [|b s]; [discriminate Hp|].
  cbn [str_prefix] in Hp. apply andb_true_iff in Hp as [Hab Hp].
  apply Ascii.eqb_eq in Hab. subst b.
  change (String a s = String a (p +:+ str_drop (String.length p) s)).
  f_equal. now apply IH.
Qed.

Lemma match_input_id_spec (prefix id name : string) :
  match_input_id prefix id = Some name ->
  id = prefix +:+ name /\ name <> "".
Proof.
  unfold match_input_id.
  destruct (str_prefix prefix id) eqn:Hp; [|discriminate].
  destruct (String.eqb_spec (str_drop (String.length prefix) id) "") as [?|Hne];
    cbn [orb]; [discriminate|].
  destruct (has_line_terminator _); [discriminate|].
  intros [= <-]. split; [now apply str_prefix_drop | exact Hne].
Qed.

Lemma fields_from_nil (ids : list string) : fields_from ids ([], [], []).
Proof.
  intros name. cbn [fst snd]. rewrite !elem_of_nil. tauto.
Qed.

Lemma collect_field_from (ids : list string)
    (acc : list string * list string * list string) (id : string) :
  id ∈ ids -> fields_from ids acc -> fields_from ids (collect_field acc id).
Proof.
  intros Hid Hacc. destruct acc as [[node config] all]. unfold collect_field.
  destruct (String.eqb id ""); [exact Hacc|].
  destruct (match_input_id "node-input-" id) as [name'|] eqn:Hnode.
  - apply match_input_id_spec in Hnode as [-> _].
    intros name. destruct (Hacc name) as (Hall & Hn & Hc).
    cbn [fst snd] in *. rewrite !elem_of_app, !list_elem_of_singleton.
    split; [tauto|]. split; [|exact Hc].
    intros [Hold| ->]; [now apply Hn | exact Hid].
  - destruct (match_input_id "node-config-input-" id) as [name'|] eqn:Hcfg;
      [|exact Hacc].
    apply match_input_id_spec in Hcfg as [-> _].
    intros name. destruct (Hacc name) as (Hall & Hn & Hc).
    cbn [fst snd] in *. rewrite !elem_of_app, !list_elem_of_singleton.
    split; [tauto|]. split; [exact Hn|].
    intros [Hold| ->]; [now apply Hc | exact Hid].
Qed.

Lemma fold_collect_from (ids l : list string)
    (acc : list string * list string * list string) :
  (forall id, id ∈ l -> id ∈ ids) ->
  fields_from ids acc -> fields_from ids (fold_left collect_field l acc).
Proof.
  revert acc. induction l as [|id l IH]; intros acc Hl Hacc; cbn [fold_left].
  - exact Hacc.
  - apply IH.
    + intros id' Hid'. apply Hl. now apply list_elem_of_further.
    + apply collect_field_from; [|exact Hacc].
      apply Hl. apply list_elem_of_here.
Qed.

Lemma dedupe_fields (ids node config all : list string) :
  fields_from ids (node, config, all) ->
  NoDup (dedupe node) /\ NoDup (dedupe config) /\ NoDup (dedupe all)
  /\ ("" ∉ dedupe all)
  /\ (forall name,
         name ∈ dedupe all <-> name ∈ dedupe node \/ name ∈ dedupe config)
  /\ (forall name, name ∈ dedupe node -> "node-input-" +:+ name ∈ ids)
  /\ (forall name,
         name ∈ dedupe config -> "node-config-input-" +:+ name ∈ ids).
Proof.
  intros Hfrom. unfold dedupe.
  destruct (dedupe_from_spec [] node) as [Hnd1 Hin1].
  destruct (dedupe_from_spec [] config) as [Hnd2 Hin2].
  destruct (dedupe_from_spec [] all) as [Hnd3 Hin3].
  split; [exact Hnd1|]. split; [exact Hnd2|]. split; [exact Hnd3|].
  split; [rewrite Hin3; tauto|].
  split; [|split].
  - intros name. rewrite Hin1, Hin2, Hin3.
    destruct (Hfrom name) as (Hall & _ & _). cbn [fst snd] in Hall.
    pose proof (not_elem_of_nil name). tauto.
  - intros name (Hn & _)%Hin1. now apply (Hfrom name).
  - intros name (Hc & _)%Hin2. now apply (Hfrom name).
Qed.

(** X3.  The three field lists of a template hold no name twice and no
    empty name.  A name is among the own fields only when an element has
    the id [node-input-<name>], among the nested configuration fields
    only when an element has the id [node-config-input-<name>], and the
    combined list holds the names of both lists and no other. *)
Theorem extractTemplateFields_lists `{Platform} (templateHtml : string) :
  exists node config all,
    extractTemplateFields templateHtml
    = VObj [("node", str_array node); ("config", str_array config);
            ("all", str_array all)]
    /\ NoDup node /\ NoDup config /\ NoDup all
    /\ ("" ∉ all)
    /\ (forall name, name ∈ all <-> name ∈ node \/ name ∈ config)
    /\ (forall name,
           name ∈ node ->
           exists ids, cheerioIds templateHtml = Some ids
                       /\ "node-input-" +:+ name ∈ ids)
    /\ (forall name,
           name ∈ config ->
           exists ids, cheerioIds templateHtml = Some ids
                       /\ "node-config-input-" +:+ name ∈ ids).
Proof.
  unfold extractTemplateFields.
  assert (Hnone :
    exists node config all,
      VObj [("node", str_array (dedupe [])); ("config", str_array (dedupe []));
            ("all", str_array (dedupe []))]
      = VObj [("node", str_array node); ("config", str_array config);
              ("all", str_array all)]
      /\ NoDup node /\ NoDup config /\ NoDup all
      /\ ("" ∉ all)
      /\ (forall name, name ∈ all <-> name ∈ node \/ name ∈ config)
      /\ (forall name,
             name ∈ node ->
             exists ids, cheerioIds templateHtml = Some ids
                         /\ "node-input-" +:+ name ∈ ids)
      /\ (forall name,
             name ∈ config ->
             exists ids, cheerioIds templateHtml = Some ids
                         /\ "node-config-input-" +:+ name ∈ ids)).
  { exists [], [], []. split; [reflexivity|].
    split; [constructor|]. split; [constructor|]. split; [constructor|].
    split; [apply not_elem_of_nil|].
    split; [intros name; rewrite !elem_of_nil; tauto|].
    split; intros name Hin; now apply elem_of_nil in Hin. }
  destruct (String.eqb templateHtml ""); [exact Hnone|].
  destruct (cheerioIds templateHtml) as [ids|] eqn:Hids; [|exact Hnone].
  pose proof (fold_collect_from ids ids ([], [], []) (fun _ Hid => Hid)
                (fields_from_nil ids)) as Hfrom.
  destruct (fold_left collect_field ids ([], [], [])) as [[node config] all].
  destruct (dedupe_fields ids node config all Hfrom)
    as (Hnd1 & Hnd2 & Hnd3 & Hne & Hall & Hn & Hc).
  exists (dedupe node), (dedupe config), (dedupe all).
  split; [reflexivity|].
  repeat (split; [assumption|]).
  split; intros name Hin; exists ids; auto.
Qed.

(** ** Object literals and unary operators in the evaluator *)

Lemma evalAst_object_fold `{Platform} (sp : span) (properties : list node)
    (env : gmap string JsVal) (src : string) :
  evalAst (ObjectExpression sp properties) env src
  = VObj (fold_left (object_step env src) properties []).
Proof. reflexivity. Qed.






Lemma number_neg_involutive (n : number) : number_neg (number_neg n) = n.
Proof.
  destruct n as [| | |[num den]]; try reflexivity.
  cbn [number_neg]. unfold Qopp. cbn [Qnum Qden].
  now rewrite Z.opp_involutive.
Qed.

Lemma evalAst_unary_cases `{Platform} (sp : span) (operator : string)
    (argument : node) (env : gmap string JsVal) (src : string) :
  evalAst (UnaryExpression sp operator argument) env src
  = let opaque :=
      source_placeholder "expr"
        (sliceSource src (UnaryExpression sp operator argument)) in
    match evalAst argument env src with
    | VNum v =>
        if String.eqb operator "-" then VNum (number_neg v)
        else if String.eqb operator "+" then VNum v
        else opaque
    | VBool v => if String.eqb operator "!" then VBool (negb v) else opaque
    | _ => opaque
    end.
Proof.
  cbn [evalAst]. cbv zeta.
  destruct (evalAst argument env src); try reflexivity;
    destruct operator as [|[[] [] [] [] [] [] [] []] [|c r]]; reflexivity.
Qed.

(** X5.  A unary expression is reduced only when the operator fits the
    type of the operand's value: [-] and [+] on a number, [!] on a
    boolean.  Nothing is coerced ([!] on a number, a sign on a string or
    a boolean) and no other operator is applied: all these give the
    [expr] placeholder.  Negating twice, with [-] or with [!], gives back
    the operand's value. *)
Theorem evalAst_unary_no_coercion `{Platform} (sp : span) (operator : string)
    (argument : node) (env : gmap string JsVal) (src : string) :
  let opaque :=
    VObj [("kind", VStr "expr");
          ("source", VStr (str_slice src (start sp) (end_ sp)))] in
  let result := evalAst (UnaryExpression sp operator argument) env src in
  (result <> opaque ->
   (exists v, evalAst argument env src = VNum v
              /\ ((operator = "-" /\ result = VNum (number_neg v))
                  \/ (operator = "+" /\ result = VNum v)))
   \/ (exists b, evalAst argument env src = VBool b
                 /\ operator = "!" /\ result = VBool (negb b)))
  /\ (forall sp' v,
         evalAst argument env src = VNum v ->
         evalAst (UnaryExpression sp' "-"
                    (UnaryExpression sp "-" argument)) env src = VNum v)
  /\ (forall sp' b,
         evalAst argument env src = VBool b ->
         evalAst (UnaryExpression sp' "!"
                    (UnaryExpression sp "!" argument)) env src = VBool b).
Proof.
  intros opaque result. subst opaque result.
  split; [|split].
  - rewrite evalAst_unary_cases. cbv zeta.
    unfold source_placeholder. rewrite sliceSource_slice. cbn [node_span].
    intros Hreduced.
    destruct (evalAst argument env src) as [| |b|v| | | | |];
      try contradiction.
    + right. exists b.
      destruct (String.eqb_spec operator "!"); [auto|contradiction].
    + left. exists v.
      destruct (String.eqb_spec operator "-"); [auto|].
      destruct (String.eqb_spec operator "+"); [auto|contradiction].
  - intros sp' v Hv.
    rewrite evalAst_unary_cases, (evalAst_unary_cases sp), Hv. cbn.
    now rewrite number_neg_involutive.
  - intros sp' b Hb.
    rewrite evalAst_unary_cases, (evalAst_unary_cases sp), Hb. cbn.
    now rewrite negb_involutive.
Qed.

(** ** Invariants of the registration finder *)

Lemma resolve_call_contribution `{Platform} (src : string)
    (wrappers : gmap string wrapper) (n : node) :
  resolve_call src wrappers [] n = []
  \/ (is_call n = true
      /\ exists e, resolve_call src wrappers [] n = [e] /\ f_type e <> "").
Proof.
  unfold resolve_call.
  repeat case_match; subst; try (now left);
    right; (split; [reflexivity|]); eexists; (split; [reflexivity|]);
    cbn [f_type]; intros ->; discriminate.
Qed.

Lemma concat_contributions_length `{Platform} (src : string)
    (wrappers : gmap string wrapper) (l : list node) :
  (length (concat (map (resolve_call src wrappers []) l))
   <= length (filter is_call l))%nat.
Proof.
  induction l as [|n l IH]; [reflexivity|].
  cbn [map concat]. rewrite length_app, filter_cons.
  destruct (resolve_call_contribution src wrappers n)
    as [->|(Hcall & e & -> & _)].
  - cbn [length]. destruct (decide (is_call n)); cbn [length]; lia.
  - rewrite decide_True by (now rewrite Hcall). cbn [length]. lia.
Qed.

(** X6.  Every registration found in a script has a type that is not
    empty and is the contribution of one call expression of the tree;
    there are at most as many registrations as call expressions, and a
    script that does not parse gives none. *)
Theorem found_entries_come_from_calls `{Platform} (src : string) :
  let found := fst (parseEditorJsForRegisterTypes src) in
  (forall e, e ∈ found ->
     f_type e <> ""
     /\ exists ast call,
          acornParse src = Some ast
          /\ call ∈ walk_simple ast
          /\ is_call call = true
          /\ resolve_call src
               (fold_left discover_wrapper (walk_simple ast) ∅) [] call
             = [e])
  /\ (forall ast, acornParse src = Some ast ->
        (length found <= length (filter is_call (walk_simple ast)))%nat)
  /\ (acornParse src = None -> found = []).
Proof.
  intros found. subst found. unfold parseEditorJsForRegisterTypes.
  destruct (acornParse src) as [ast|]; cbn [fst].
  - rewrite fold_resolve_call. cbn [app].
    split; [|split; [|discriminate]].
    + intros e He. apply list_elem_of_In, in_concat in He as (c & Hc & He).
      apply in_map_iff in Hc as (call & <- & Hcall).
      destruct (resolve_call_contribution src
                  (fold_left discover_wrapper (walk_simple ast) ∅) call)
        as [Hnil|(Hiscall & e' & Heq & Hne)].
      * rewrite Hnil in He. destruct He.
      * rewrite Heq in He. destruct He as [<-|[]].
        split; [exact Hne|]. exists ast, call.
        split; [reflexivity|]. split; [now apply list_elem_of_In|].
        split; assumption.
    + intros ast' [= <-]. apply concat_contributions_length.
  - split; [|split; [discriminate|reflexivity]].
    intros e He. now apply elem_of_nil in He.
Qed.

Lemma found_entries_come_from_calls_witness :
  exists e,
    e ∈ fst (parseEditorJsForRegisterTypes (H := Demo.platform) Demo.src_wrap)
    /\ f_type e <> "".
Proof.
  eexists.
  assert (Hin : forall found,
            found = fst (parseEditorJsForRegisterTypes (H := Demo.platform)
                           Demo.src_wrap) ->
            match found with
            | e :: _ =>
                e ∈ fst (parseEditorJsForRegisterTypes (H := Demo.platform)
                           Demo.src_wrap)
            | [] => True
            end).
  { intros found ->. vm_compute. apply list_elem_of_here. }
  split; [exact (Hin _ eq_refl)|].
  exact (proj1 (proj1 (found_entries_come_from_calls (H := Demo.platform)
                         Demo.src_wrap) _ (Hin _ eq_refl))).
Defined.

Lemma param_names_not_empty `{Platform} (params : list node) :
  "" ∉ param_names params.
Proof.
  unfold param_names. intros Hin.
  apply list_elem_of_omap in Hin as (p & _ & Hp).
  destruct p; try discriminate Hp.
  destruct (String.eqb_spec name ""); [discriminate Hp|].
  injection Hp as Hp. contradiction.
Qed.

Lemma maybeRegisterWrapper_fit `{Platform} (fnName : option string)
    (params : list string) (body : node) (wrappers : gmap string wrapper) :
  "" ∉ params -> wrappers_fit wrappers ->
  wrappers_fit (maybeRegisterWrapper fnName params body wrappers).
Proof.
  intros Hparams Hfit. unfold maybeRegisterWrapper.
  destruct fnName as [fnName|]; [|exact Hfit].
  destruct (String.eqb_spec fnName "") as [->|Hname]; [exact Hfit|].
  destruct (find is_register_call (walk_simple body)) as [innerCall|];
    [|exact Hfit].
  destruct (call_arguments innerCall !! 0%nat) as [typeArg|]; [|exact Hfit].
  destruct typeArg; try exact Hfit.
  destruct (call_arguments innerCall !! 1%nat) as [optionsArg|];
    [|exact Hfit].
  destruct optionsArg; try exact Hfit.
  destruct (bool_decide_reflect (name ∈ params)) as [Hin|_]; [|exact Hfit].
  intros name' w Hw.
  destruct (decide (fnName = name')) as [<-|Hne].
  - rewrite lookup_insert_eq in Hw. injection Hw as <-.
    split; [exact Hname|]. split; [exact Hparams|]. cbn.
    split; eauto.
  - rewrite lookup_insert_ne in Hw by exact Hne. now apply Hfit.
Qed.

Lemma discover_wrapper_fit `{Platform} (wrappers : gmap string wrapper)
    (n : node) :
  wrappers_fit wrappers -> wrappers_fit (discover_wrapper wrappers n).
Proof.
  intros Hfit. unfold discover_wrapper.
  destruct n; try exact Hfit.
  - apply maybeRegisterWrapper_fit;
      [apply param_names_not_empty | exact Hfit].
  - destruct n; try exact Hfit.
    destruct init as [init|]; [|exact Hfit].
    destruct (String.eqb name ""); [exact Hfit|].
    destruct init; try exact Hfit;
      destruct init; try exact Hfit;
      (apply maybeRegisterWrapper_fit;
       [apply param_names_not_empty | exact Hfit]).
Qed.

(** X7.  Every wrapper recorded by the first walk has a name that is not
    empty, parameters that are not empty, one of them as its type
    argument, and an object literal as its options.  Hence the options of
    a registration made through a wrapper are always an object. *)
Theorem discovered_wrappers_fit `{Platform} (ast : node) :
  let wrappers := fold_left discover_wrapper (walk_simple ast) ∅ in
  wrappers_fit wrappers
  /\ forall src sp nsp name args e,
       resolve_call src wrappers [] (CallExpression sp (Identifier nsp name) args)
       = [e] ->
       exists props, f_options e = VObj props.
Proof.
  intros wrappers.
  assert (Hfit : wrappers_fit wrappers).
  { subst wrappers.
    assert (Hfold : forall l w, wrappers_fit w ->
                      wrappers_fit (fold_left discover_wrapper l w)).
    { induction l as [|n l IH]; intros w Hw; cbn [fold_left]; [exact Hw|].
      apply IH. now apply discover_wrapper_fit. }
    apply Hfold. intros name w Hw. now rewrite lookup_empty in Hw. }
  split; [exact Hfit|].
  intros src sp nsp name args e.
  cbn [resolve_call isRegisterTypeCallee].
  destruct (wrappers !! name) as [w|] eqn:Hw; [|discriminate].
  destruct (Hfit name w Hw) as (_ & _ & _ & osp & props & Hopts).
  destruct (bind_params (w_params w) args src ∅ !! node_name (w_typeArg w))
    as [v|]; [|discriminate].
  destruct v; try discriminate.
  destruct (String.eqb s ""); [discriminate|].
  cbn [app]. intros [= <-]. cbn [f_options]. rewrite Hopts.
  rewrite evalAst_object_fold. eauto.
Qed.

Lemma discovered_wrappers_fit_witness :
  exists w,
    fold_left (discover_wrapper (H := Demo.platform))
      (walk_simple Demo.ast_wrap) ∅ !! "reg" = Some w
    /\ wrapper_fit "reg" w.
Proof.
  assert (Hreg : forall wrappers,
            wrappers = fold_left (discover_wrapper (H := Demo.platform))
                         (walk_simple Demo.ast_wrap) ∅ ->
            match wrappers !! "reg" with
            | Some w =>
                fold_left (discover_wrapper (H := Demo.platform))
                  (walk_simple Demo.ast_wrap) ∅ !! "reg" = Some w
            | None => True
            end).
  { intros wrappers ->. vm_compute. reflexivity. }
  specialize (Hreg _ eq_refl).
  destruct (fold_left (discover_wrapper (H := Demo.platform))
              (walk_simple Demo.ast_wrap) ∅ !! "reg") as [w|] eqn:Hw.
  - exists w. split; [reflexivity|].
    exact (proj1 (discovered_wrappers_fit (H := Demo.platform) Demo.ast_wrap)
             "reg" w Hw).
  - exfalso. vm_compute in Hw. discriminate Hw.
Defined.

(** ** Warnings of a build *)

Lemma merge_script_warnings `{Platform} (module : string)
    (attribution : list (string * JsVal))
    (acc : list (string * JsVal) * list string) (jsSource : string) :
  snd (merge_script module attribution acc jsSource)
  = snd acc ++ (if parse_fails jsSource
                then [module +:+ ":acorn_parse_failed"] else [])
  /\ (parse_fails jsSource = true ->
      fst (merge_script module attribution acc jsSource) = fst acc).
Proof.
  destruct acc as [nodesByType warnings].
  unfold merge_script, parseEditorJsForRegisterTypes, parse_fails.
  destruct (acornParse jsSource); cbn [fst snd map fold_left].
  - split; [reflexivity | discriminate].
  - split; reflexivity.
Qed.

Lemma fold_merge_script_warnings `{Platform} (module : string)
    (attribution : list (string * JsVal)) (js : list string)
    (acc : list (string * JsVal) * list string) :
  snd (fold_left (merge_script module attribution) js acc)
  = snd acc ++ map (fun _ => module +:+ ":acorn_parse_failed")
                 (filter (fun js => parse_fails js = true) js).
Proof.
  revert acc. induction js as [|src js IH]; intros acc; cbn [fold_left].
  - now rewrite app_nil_r.
  - rewrite IH, (proj1 (merge_script_warnings _ _ _ _)), filter_cons.
    destruct (parse_fails src) eqn:Hsrc.
    + rewrite decide_True by reflexivity. cbn [map].
      now rewrite <- app_assoc.
    + rewrite decide_False by discriminate. now rewrite app_nil_r.
Qed.

Lemma merge_module_warnings `{Platform}
    (acc : list (string * JsVal) * list string) (m : string * string) :
  snd (merge_module acc m) = snd acc ++ module_warnings m.
Proof.
  destruct acc as [nodesByType warnings]. destruct m as [moduleName moduleHtml].
  unfold merge_module, module_warnings. cbn [fst snd].
  destruct (extractScriptsAndDocs moduleHtml) as [[js helps] templates].
  rewrite fold_merge_script_warnings. reflexivity.
Qed.

(** X8.  The warnings of a build are, module after module in document
    order, one [<module>:acorn_parse_failed] for each registration source
    block that does not parse, followed, in a verbose build that parsed
    no node, by [no_nodes_parsed].  A block that does not parse changes
    nothing else: the records stay as they were. *)
Theorem build_warnings_are_parse_failures `{Platform}
    (htmlString : string) (verbose : bool) :
  p_warnings (parseNodesHtml htmlString verbose)
  = concat (map module_warnings (matchModules htmlString))
    ++ (if verbose
           && (length (p_nodesByType (parseNodesHtml htmlString verbose)) =? 0)%nat
        then ["no_nodes_parsed"] else [])
  /\ forall module attribution nodesByType warnings jsSource,
       acornParse jsSource = None ->
       merge_script module attribution (nodesByType, warnings) jsSource
       = (nodesByType, warnings ++ [module +:+ ":acorn_parse_failed"]).
Proof.
  split.
  - unfold parseNodesHtml.
    assert (Hfold : forall ms acc,
               snd (fold_left merge_module ms acc)
               = snd acc ++ concat (map module_warnings ms)).
    { induction ms as [|m ms IH]; intros acc; cbn [fold_left map concat].
      - now rewrite app_nil_r.
      - now rewrite IH, merge_module_warnings, app_assoc. }
    specialize (Hfold (matchModules htmlString) ([], [])).
    destruct (fold_left merge_module (matchModules htmlString) ([], []))
      as [nodesByType warnings].
    cbn [snd app] in Hfold. subst warnings.
    cbn [p_warnings p_nodesByType]. unfold prop_keys. rewrite length_map.
    destruct (verbose && _); [reflexivity | now rewrite app_nil_r].
  - intros module attribution nodesByType warnings jsSource Hfail.
    unfold merge_script, parseEditorJsForRegisterTypes. rewrite Hfail.
    reflexivity.
Qed.

(** ** One record per type *)

Lemma prop_lookup_None_keys {A} (k : string) (o : list (string * A)) :
  prop_lookup k o = None <-> k ∉ prop_keys o.
Proof.
  unfold prop_keys. induction o as [|[k' v'] o IH]; cbn [prop_lookup map fst].
  - split; [intros _; apply not_elem_of_nil | reflexivity].
  - rewrite not_elem_of_cons.
    destruct (String.eqb_spec k k') as [->|Hne]; [split; [discriminate|tauto]|].
    rewrite IH. tauto.
Qed.

Lemma prop_lookup_Some_elem {A} (k : string) (v : A) (o : list (string * A)) :
  prop_lookup k o = Some v -> (k, v) ∈ o.
Proof.
  induction o as [|[k' v'] o IH]; cbn [prop_lookup]; [discriminate|].
  destruct (String.eqb_spec k k') as [->|Hne].
  - intros [= ->]. apply list_elem_of_here.
  - intros Hk. apply list_elem_of_further. now apply IH.
Qed.

Lemma prop_lookup_elem_nodup {A} (k : string) (v : A) (o : list (string * A)) :
  NoDup (prop_keys o) -> (k, v) ∈ o -> prop_lookup k o = Some v.
Proof.
  unfold prop_keys. induction o as [|[k' v'] o IH]; cbn [map fst prop_lookup].
  - intros _ Hin. now apply elem_of_nil in Hin.
  - intros [Hk' Hnd]%NoDup_cons [[= -> ->]|Hin]%elem_of_cons.
    + now rewrite String.eqb_refl.
    + destruct (String.eqb_spec k k') as [->|_]; [|now apply IH].
      exfalso. apply Hk'. apply list_elem_of_fmap. now exists (k', v).
Qed.

Lemma prop_replace_keys {A} (k : string) (v : A) (o : list (string * A)) :
  prop_keys (prop_replace k v o) = prop_keys o.
Proof.
  unfold prop_keys. induction o as [|[k' v'] o IH]; [reflexivity|].
  cbn [prop_replace]. destruct (String.eqb_spec k k') as [->|_]; cbn [map fst].
  - reflexivity.
  - now rewrite IH.
Qed.

Lemma prop_replace_elem {A} (k : string) (v : A) (o : list (string * A))
    (kv : string * A) :
  kv ∈ prop_replace k v o -> kv = (k, v) \/ kv ∈ o.
Proof.
  induction o as [|[k' v'] o IH]; cbn [prop_replace]; [now right|].
  destruct (String.eqb k k').
  - intros [->|Hin]%elem_of_cons; [now left|].
    right. now apply list_elem_of_further.
  - intros [->|Hin]%elem_of_cons; [right; apply list_elem_of_here|].
    destruct (IH Hin); [now left|]. right. now apply list_elem_of_further.
Qed.

Lemma prop_insert_index_perm {A} (n : N) (k : string) (v : A)
    (o : list (string * A)) :
  Permutation (prop_insert_index n k v o) ((k, v) :: o).
Proof.
  induction o as [|[k' v'] o IH]; cbn [prop_insert_index]; [reflexivity|].
  destruct (array_index k') as [m|]; [|reflexivity].
  destruct (m <? n)%N; [|reflexivity].
  rewrite IH. apply perm_swap.
Qed.

Lemma prop_set_perm {A} (k : string) (v : A) (o : list (string * A)) :
  prop_lookup k o = None -> Permutation (prop_set k v o) ((k, v) :: o).
Proof.
  intros Hnone. unfold prop_set. rewrite Hnone.
  destruct (array_index k).
  - apply prop_insert_index_perm.
  - symmetry. apply Permutation_cons_append.
Qed.

Lemma prop_set_nodup {A} (k : string) (v : A) (o : list (string * A)) :
  NoDup (prop_keys o) -> NoDup (prop_keys (prop_set k v o)).
Proof.
  intros Hnd. destruct (prop_lookup k o) as [v'|] eqn:Hk.
  - unfold prop_set. rewrite Hk. now rewrite prop_replace_keys.
  - unfold prop_keys. rewrite (prop_set_perm k v o Hk). cbn [map fst].
    apply NoDup_cons. split; [now apply prop_lookup_None_keys | exact Hnd].
Qed.

Lemma prop_set_elem {A} (k : string) (v : A) (o : list (string * A))
    (kv : string * A) :
  kv ∈ prop_set k v o -> kv = (k, v) \/ kv ∈ o.
Proof.
  destruct (prop_lookup k o) as [v'|] eqn:Hk.
  - unfold prop_set. rewrite Hk. apply prop_replace_elem.
  - rewrite (prop_set_perm k v o Hk). intros Hin.
    now apply elem_of_cons in Hin.
Qed.

Lemma fold_left_invariant {A B} (P : A -> Prop) (Q : B -> Prop)
    (f : A -> B -> A) (l : list B) (a : A) :
  (forall a b, P a -> Q b -> P (f a b)) ->
  P a -> Forall Q l -> P (fold_left f l a).
Proof.
  intros Hstep Ha Hl. revert a Ha.
  induction Hl as [|b l Hb _ IH]; intros a Ha; cbn [fold_left]; auto.
Qed.

Lemma forallb_Forall {A} (p : A -> bool) (l : list A) :
  forallb p l = true -> Forall (fun x => p x = true) l.
Proof.
  induction l as [|x l IH]; cbn [forallb]; [constructor|].
  intros [Hx Hl]%andb_prop. constructor; auto.
Qed.

Lemma forallb_negb_Forall {A} (p : A -> bool) (l : list A) :
  forallb (fun x => negb (p x)) l = true -> Forall (fun x => p x = false) l.
Proof.
  intros Hall%forallb_Forall. eapply Forall_impl; [exact Hall|].
  intros x Hx. now apply negb_true_iff.
Qed.

Lemma obj_set_table_ok (k : string) (v : JsVal)
    (nodesByType : list (string * JsVal)) :
  table_ok nodesByType -> record_ok k v ->
  table_ok (obj_set k v nodesByType).
Proof.
  intros [Hnd Hrec] Hv. unfold obj_set.
  destruct (String.eqb k "__proto__"); [now split|].
  split; [now apply prop_set_nodup|].
  intros k' v' [[= -> ->]|Hin]%prop_set_elem; [exact Hv | now apply Hrec].
Qed.

Lemma record_or_new_type (nodesByType : list (string * JsVal)) (k : string) :
  table_ok nodesByType ->
  prop_lookup "type" (record_or_new nodesByType k) = Some (VStr k).
Proof.
  intros [_ Hrec]. unfold record_or_new.
  destruct (prop_lookup k nodesByType) as [v|] eqn:Hk; [|reflexivity].
  apply prop_lookup_Some_elem, Hrec in Hk as (_ & o & module & -> & Htype & _).
  exact Htype.
Qed.

Lemma attach_help_ok `{Platform} (moduleName : string)
    (nodesByType : list (string * JsVal)) (entry : string * string) :
  table_ok nodesByType -> inherited_member (fst entry) = false ->
  table_ok (attach_help (splitModuleName moduleName) nodesByType entry).
Proof.
  intros Hok Hkey. destruct entry as [type helpHtml]. unfold attach_help.
  apply obj_set_table_ok; [exact Hok|].
  split; [exact Hkey|].
  destruct (splitModuleName_shape moduleName) as (pkg & set & ->).
  eexists; exists moduleName. split; [reflexivity|].
  rewrite !prop_lookup_obj_assign, (record_or_new_type _ _ Hok).
  split; reflexivity.
Qed.

Lemma attach_template_ok `{Platform} (moduleName : string)
    (nodesByType : list (string * JsVal)) (entry : string * string) :
  table_ok nodesByType -> inherited_member (fst entry) = false ->
  table_ok (attach_template (splitModuleName moduleName) nodesByType entry).
Proof.
  intros Hok Hkey. destruct entry as [type templateHtml].
  unfold attach_template.
  apply obj_set_table_ok; [exact Hok|].
  split; [exact Hkey|].
  destruct (splitModuleName_shape moduleName) as (pkg & set & ->).
  eexists; exists moduleName. split; [reflexivity|].
  rewrite !prop_lookup_obj_assign, (record_or_new_type _ _ Hok).
  split; reflexivity.
Qed.

Lemma merge_found_ok (moduleName : string)
    (nodesByType : list (string * JsVal)) (entry : found_entry) :
  table_ok nodesByType -> inherited_member (f_type entry) = false ->
  table_ok (merge_found (splitModuleName moduleName) nodesByType entry).
Proof.
  intros Hok Hkey. unfold merge_found.
  apply obj_set_table_ok; [exact Hok|].
  split; [exact Hkey|].
  destruct (splitModuleName_shape moduleName) as (pkg & set & ->).
  eexists; exists moduleName. split; [reflexivity|].
  unfold merge_record. rewrite !prop_lookup_obj_assign.
  split; reflexivity.
Qed.

Lemma merge_script_ok `{Platform} (moduleName : string)
    (acc : list (string * JsVal) * list string) (jsSource : string) :
  table_ok (fst acc) ->
  Forall (fun e => inherited_member (f_type e) = false)
    (fst (parseEditorJsForRegisterTypes jsSource)) ->
  table_ok
    (fst (merge_script moduleName (splitModuleName moduleName) acc jsSource)).
Proof.
  destruct acc as [table warnings]. unfold merge_script.
  destruct (parseEditorJsForRegisterTypes jsSource) as [found jsWarnings].
  cbn [fst]. intros Hok Hfound.
  apply (fold_left_invariant table_ok
           (fun e => inherited_member (f_type e) = false)); auto.
  intros a b. apply merge_found_ok.
Qed.

Lemma merge_module_ok `{Platform}
    (acc : list (string * JsVal) * list string) (m : string * string) :
  table_ok (fst acc) -> ordinary_module m = true ->
  table_ok (fst (merge_module acc m)).
Proof.
  destruct acc as [table warnings]. destruct m as [moduleName moduleHtml].
  unfold merge_module, ordinary_module. cbn [fst snd].
  destruct (extractScriptsAndDocs moduleHtml) as [[js helpByType] templateByType].
  intros Hok [[Hhelp Htemplate]%andb_prop Hjs]%andb_prop.
  apply forallb_negb_Forall in Hhelp, Htemplate.
  apply forallb_Forall in Hjs.
  eapply Forall_impl in Hjs;
    [|intros jsSource Hsrc; apply forallb_negb_Forall in Hsrc; exact Hsrc].
  apply (fold_left_invariant (fun acc => table_ok (fst acc))
           (fun jsSource =>
              Forall (fun e => inherited_member (f_type e) = false)
                (fst (parseEditorJsForRegisterTypes jsSource)))); auto.
  - intros a b. apply merge_script_ok.
  - cbn [fst].
    apply (fold_left_invariant table_ok
             (fun kv => inherited_member (fst kv) = false)); auto.
    + intros a b. apply attach_template_ok.
    + apply (fold_left_invariant table_ok
               (fun kv => inherited_member (fst kv) = false)); auto.
      intros a b. apply attach_help_ok.
Qed.

Lemma parseNodesHtml_table_ok `{Platform} (htmlString : string)
    (verbose : bool) :
  ordinary_types htmlString = true ->
  table_ok (p_nodesByType (parseNodesHtml htmlString verbose)).
Proof.
  intros Hord%forallb_Forall. unfold parseNodesHtml.
  pose proof (fold_left_invariant (fun acc => table_ok (fst acc))
                (fun m => ordinary_module m = true) merge_module
                (matchModules htmlString) ([], []) merge_module_ok) as Hfold.
  destruct (fold_left merge_module (matchModules htmlString) ([], []))
    as [table warnings].
  cbn [p_nodesByType]. apply Hfold; [|exact Hord].
  split; [apply NoDup_nil_2|]. intros k v Hin. now apply elem_of_nil in Hin.
Qed.

Lemma parseNodesHtml_nodes_perm `{Platform} (htmlString : string)
    (verbose : bool) :
  Permutation (p_nodes (parseNodesHtml htmlString verbose))
    (prop_values (p_nodesByType (parseNodesHtml htmlString verbose))).
Proof.
  unfold parseNodesHtml.
  destruct (fold_left merge_module (matchModules htmlString) ([], []))
    as [table warnings].
  cbn [p_nodes p_nodesByType]. apply array_sort_perm.
Qed.

Lemma table_ok_type_keys `{Platform} (table : list (string * JsVal)) :
  table_ok table -> map type_key (prop_values table) = prop_keys table.
Proof.
  intros [_ Hrec]. unfold prop_values, prop_keys.
  induction table as [|[k v] table IH]; [reflexivity|].
  cbn [map fst snd]. f_equal.
  - destruct (Hrec k v) as (_ & o & module & -> & Htype & _);
      [apply list_elem_of_here|].
    unfold type_key, js_get. now rewrite Htype.
  - apply IH. intros k' v' Hin. apply Hrec. now apply list_elem_of_further.
Qed.

(** X9.  On a page whose types are ordinary names, the table built by
    [parseNodesHtml] holds one record per type: its keys are distinct,
    the record under a key is an object whose [type] is that key and whose
    [module] is a string, the node list is the table's values in another
    order, no two listed nodes have the same type, and looking a listed
    node's type up in the table gives back that node. *)
Theorem parseNodesHtml_one_record_per_type `{Platform}
    (htmlString : string) (verbose : bool) :
  ordinary_types htmlString = true ->
  let parsed := parseNodesHtml htmlString verbose in
  NoDup (prop_keys (p_nodesByType parsed))
  /\ (forall k v, (k, v) ∈ p_nodesByType parsed ->
        inherited_member k = false
        /\ exists o module,
             v = VObj o /\ js_get v "type" = VStr k
             /\ js_get v "module" = VStr module)
  /\ Permutation (p_nodes parsed) (prop_values (p_nodesByType parsed))
  /\ NoDup (map type_key (p_nodes parsed))
  /\ forall n, n ∈ p_nodes parsed ->
       prop_lookup (type_key n) (p_nodesByType parsed) = Some n.
Proof.
  intros Hord parsed.
  pose proof (parseNodesHtml_table_ok htmlString verbose Hord) as Hok.
  pose proof (parseNodesHtml_nodes_perm htmlString verbose) as Hperm.
  fold parsed in Hok, Hperm.
  pose proof Hok as [Hnd Hrec].
  split; [exact Hnd|]. split.
  { intros k v Hin. destruct (Hrec k v Hin) as (Hk & o & module & -> & Ht & Hm).
    split; [exact Hk|]. exists o, module. unfold js_get.
    now rewrite Ht, Hm. }
  split; [exact Hperm|]. split.
  { rewrite Hperm, (table_ok_type_keys _ Hok). exact Hnd. }
  intros n Hn. rewrite Hperm in Hn. unfold prop_values in Hn.
  apply list_elem_of_fmap in Hn as ([k v] & -> & Hin). cbn [snd].
  destruct (Hrec k v Hin) as (_ & o & module & -> & Ht & _).
  replace (type_key (VObj o)) with k
    by (unfold type_key, js_get; now rewrite Ht).
  now apply prop_lookup_elem_nodup.
Qed.

Lemma parseNodesHtml_one_record_per_type_witness :
  ordinary_types (H := Demo.platform) Demo.html_twice = true
  /\ NoDup (map (type_key (H := Demo.platform))
              (p_nodes (parseNodesHtml (H := Demo.platform)
                          Demo.html_twice false))).
Proof.
  assert (Hord : ordinary_types (H := Demo.platform) Demo.html_twice = true)
    by (vm_compute; reflexivity).
  split; [exact Hord|].
  pose proof (parseNodesHtml_one_record_per_type (H := Demo.platform)
                Demo.html_twice false Hord) as Hall.
  exact (proj1 (proj2 (proj2 (proj2 Hall)))).
Defined.

(** ** The snapshot's list and its index agree *)

Section Index.
Context {A : Type} (key : A -> string).

Lemma index_by_other (k : string) (l : list A) (acc : list (string * A)) :
  k ∉ map key l -> prop_lookup k (index_by key l acc) = prop_lookup k acc.
Proof.
  unfold index_by. revert acc.
  induction l as [|x l IH]; intros acc Hk; cbn [fold_left]; [reflexivity|].
  cbn [map] in Hk. apply not_elem_of_cons in Hk as [Hne Hk].
  rewrite (IH _ Hk), prop_lookup_set.
  now destruct (String.eqb_spec k (key x)).
Qed.

Lemma index_by_member (n : A) (l : list A) (acc : list (string * A)) :
  NoDup (map key l) -> n ∈ l ->
  prop_lookup (key n) (index_by key l acc) = Some n.
Proof.
  revert acc. induction l as [|x l IH]; intros acc Hnd Hin.
  - now apply elem_of_nil in Hin.
  - cbn [map] in Hnd. apply NoDup_cons in Hnd as [Hx Hnd].
    apply elem_of_cons in Hin as [->|Hin].
    + change (index_by key (x :: l) acc)
        with (index_by key l (prop_set (key x) x acc)).
      rewrite (index_by_other _ _ _ Hx), prop_lookup_set.
      now rewrite String.eqb_refl.
    + now apply IH.
Qed.

Lemma index_by_lookup (k : string) (v : A) (l : list A)
    (acc : list (string * A)) :
  prop_lookup k (index_by key l acc) = Some v ->
  (v ∈ l /\ key v = k) \/ prop_lookup k acc = Some v.
Proof.
  revert acc. induction l as [|x l IH]; intros acc Hk; [now right|].
  change (index_by key (x :: l) acc)
    with (index_by key l (prop_set (key x) x acc)) in Hk.
  apply IH in Hk as [[Hin Hkey]|Hk].
  - left. split; [now apply list_elem_of_further | exact Hkey].
  - rewrite prop_lookup_set in Hk.
    destruct (String.eqb_spec k (key x)) as [->|_]; [|now right].
    injection Hk as <-. left. split; [apply list_elem_of_here | reflexivity].
Qed.
End Index.

Section Snapshot.
Context `{Platform}.

Lemma markCustom_record (customModules : gset string)
    (o : list (string * JsVal)) (t : string) :
  prop_lookup "type" o = Some (VStr t) ->
  exists o',
    _markCustom customModules (VObj o) = VObj o'
    /\ prop_lookup "type" o' = Some (VStr t)
    /\ prop_lookup "isCustom" o'
       = Some (VBool (is_custom customModules (VObj o))).
Proof.
  intros Htype. eexists. split; [reflexivity|].
  rewrite !prop_lookup_set. split; [exact Htype | reflexivity].
Qed.

Lemma parsed_nodes_records (htmlString : string) (verbose : bool) (n : JsVal) :
  ordinary_types htmlString = true ->
  n ∈ p_nodes (parseNodesHtml htmlString verbose) ->
  exists o t, n = VObj o /\ prop_lookup "type" o = Some (VStr t).
Proof.
  intros Hord Hn.
  destruct (parseNodesHtml_table_ok htmlString verbose Hord) as [_ Hrec].
  rewrite parseNodesHtml_nodes_perm in Hn. unfold prop_values in Hn.
  apply list_elem_of_fmap in Hn as ([k v] & -> & Hin). cbn [snd].
  destruct (Hrec k v Hin) as (_ & o & module & -> & Ht & _).
  now exists o, k.
Qed.

Lemma markCustom_type_keys (customModules : gset string) (l : list JsVal) :
  (forall n, n ∈ l ->
     exists o t, n = VObj o /\ prop_lookup "type" o = Some (VStr t)) ->
  map type_key (map (_markCustom customModules) l) = map type_key l.
Proof.
  induction l as [|n l IH]; intros Hrec; [reflexivity|].
  cbn [map]. f_equal.
  - destruct (Hrec n) as (o & t & -> & Ht); [apply list_elem_of_here|].
    destruct (markCustom_record customModules o t Ht) as (o' & -> & Ht' & _).
    unfold type_key, js_get. now rewrite Ht, Ht'.
  - apply IH. intros n' Hn'. apply Hrec. now apply list_elem_of_further.
Qed.

Lemma published_snapshot_consistent (self : NodeCatalog) (html : string)
    (t : Z) :
  ordinary_types html = true ->
  snapshot_consistent (published_snapshot self html t).
Proof.
  intros Hord. unfold snapshot_consistent, published_snapshot.
  cbn [nodes nodesByType].
  set (parsed := parseNodesHtml html (_verbose self)).
  assert (Hnd : NoDup (map type_key
                         (map (_markCustom (_customModules self))
                            (p_nodes parsed)))).
  { rewrite markCustom_type_keys
      by (intros n; apply parsed_nodes_records; exact Hord).
    unfold parsed. rewrite parseNodesHtml_nodes_perm.
    rewrite table_ok_type_keys by now apply parseNodesHtml_table_ok.
    now apply parseNodesHtml_table_ok. }
  split; [exact Hnd|]. split; [|split].
  - intros n (n0 & -> & Hn0)%list_elem_of_fmap.
    destruct (parsed_nodes_records html (_verbose self) n0 Hord Hn0)
      as (o & ty & -> & Ht).
    destruct (markCustom_record (_customModules self) o ty Ht)
      as (o' & -> & Ht' & Hc).
    now exists o', ty, (is_custom (_customModules self) (VObj o)).
  - intros n Hn. now apply (index_by_member type_key).
  - intros k v Hk.
    apply (index_by_lookup type_key) in Hk as [Hin|Hk]; [exact Hin|].
    discriminate Hk.
Qed.

Lemma consulted_cache (force : bool) (st : state) :
  _cache (this (consulted force st)) = _cache (this st).
Proof. unfold consulted. now destruct (force || _). Qed.

Lemma getCatalog_cache (force : bool) (st : state) :
  _cache (this (snd (getCatalog force st))) = _cache (this st)
  \/ exists status statusText body html t,
       upstream (requests st)
       = HttpResponse true status statusText body (Some html)
       /\ _cache (this (snd (getCatalog force st)))
          = published_snapshot (this st) html t.
Proof.
  rewrite getCatalog_unfold. destruct (stale force st).
  - destruct (failure (upstream (requests (consulted force st)))) as [e|] eqn:Hf.
    + rewrite (refresh_failure _ e Hf). left. cbn [snd requested this].
      apply consulted_cache.
    + destruct (upstream (requests (consulted force st)))
        as [reason|[|] status statusText body [html|]] eqn:Hup;
        try discriminate Hf.
      rewrite (refresh_success _ _ _ _ _ Hup). right.
      exists status, statusText, body, html,
        (clock (ticks (consulted force st))).
      split.
      * rewrite <- Hup. unfold consulted.
        now destruct (force || _).
      * cbn [snd set_cache this _cache]. unfold consulted.
        now destruct (force || _).
  - left. cbn [snd]. apply consulted_cache.
Qed.
End Snapshot.

Lemma getCatalog_consistent `{Platform} (force : bool) (st : state) :
  ordinary_upstream ->
  snapshot_consistent (_cache (this st)) ->
  snapshot_consistent (_cache (this (snd (getCatalog force st)))).
Proof.
  intros Hup Hst.
  destruct (getCatalog_cache force st)
    as [->|(status & statusText & body & html & t & Hans & ->)];
    [exact Hst|].
  apply published_snapshot_consistent. exact (Hup _ _ _ _ _ Hans).
Qed.

Lemma refresh_consistent `{Platform} (st : state) :
  ordinary_upstream ->
  snapshot_consistent (_cache (this st)) ->
  snapshot_consistent (_cache (this (snd (refresh st)))).
Proof.
  intros Hup Hst.
  destruct (failure (upstream (requests st))) as [e|] eqn:Hf.
  - now rewrite (refresh_failure _ e Hf).
  - destruct (upstream (requests st))
      as [reason|[|] status statusText body [html|]] eqn:Hans;
      try discriminate Hf.
    rewrite (refresh_success _ _ _ _ _ Hans). cbn [snd set_cache this _cache].
    apply published_snapshot_consistent. exact (Hup _ _ _ _ _ Hans).
Qed.

Lemma default_cache_consistent `{Platform} :
  snapshot_consistent default_cache.
Proof.
  unfold snapshot_consistent.
  cbn [default_cache nodes nodesByType map prop_lookup].
  split; [apply NoDup_nil_2|].
  split; [intros n Hn; now apply elem_of_nil in Hn|].
  split; [intros n Hn; now apply elem_of_nil in Hn|].
  intros k v Hk. discriminate Hk.
Qed.

Lemma bind_ret_state `{Platform} {A B} (c : M A) (f : A -> B) (st : state) :
  snd (bind c (fun a => ret (f a)) st) = snd (c st).
Proof. unfold bind, ret. now destruct (c st) as [[a|e] st']. Qed.

Lemma perform_state `{Platform} (c : call) (st : state) :
  perform c st = st
  \/ perform c st = snd (refresh st)
  \/ exists force, perform c st = snd (getCatalog force st).
Proof.
  destruct c as [|force|customOnly|type|query customOnly module category limit];
    cbn [perform].
  - right; now left.
  - right; right. now exists force.
  - right; right. exists false. unfold catalog_list. apply bind_ret_state.
  - right; right. exists false. unfold getNode. apply bind_ret_state.
  - unfold search. destruct (String.eqb _ ""); [now left|].
    right; right. exists false. unfold bind, ret, throw.
    destruct (getCatalog false st) as [[c|e] st']; [|reflexivity].
    now destruct (existsb _ _).
Qed.

(** X10.  Whatever calls are made on a new catalog, answered or not, its
    snapshot stays consistent as long as the pages the upstream answers
    with have ordinary types: no two listed nodes have the same type, and
    the index holds exactly the listed nodes, each under its own type. *)
Theorem snapshot_stays_consistent `{Platform}
    (nodeRedUrl_ : string) (verbose : bool) (ttlEnv : option (option Z))
    (allowEnv : option (list string)) (ticks0 requests0 : nat)
    (calls : list call) :
  ordinary_upstream ->
  snapshot_consistent
    (_cache (this (after_calls calls
                     (State (new_NodeCatalog nodeRedUrl_ verbose ttlEnv allowEnv)
                        ticks0 requests0)))).
Proof.
  intros Hup. unfold after_calls.
  apply (fold_left_invariant
           (fun st => snapshot_consistent (_cache (this st)))
           (fun _ => True)).
  - intros st c Hst _.
    destruct (perform_state c st) as [->|[->|[force ->]]].
    + exact Hst.
    + now apply refresh_consistent.
    + now apply getCatalog_consistent.
  - apply default_cache_consistent.
  - apply Forall_forall. intros; exact I.
Qed.

Lemma demo_upstream_ordinary : ordinary_upstream (H := Demo.platform).
Proof.
  intros [|k] status statusText body html Hans; [|discriminate Hans].
  injection Hans as _ _ _ <-. vm_compute. reflexivity.
Qed.

Lemma snapshot_stays_consistent_witness :
  ordinary_upstream (H := Demo.platform)
  /\ snapshot_consistent (H := Demo.platform)
       (_cache (this (after_calls (H := Demo.platform)
                        [CallList false; CallRefresh; CallGetNode "bar"]
                        CacheDemo.standard))).
Proof.
  split; [exact demo_upstream_ordinary|].
  exact (snapshot_stays_consistent (H := Demo.platform)
           "http://127.0.0.1:1880" false None None 0 0
           [CallList false; CallRefresh; CallGetNode "bar"]
           demo_upstream_ordinary).
Defined.

(** X11.  [getNode] and the listed nodes agree: on a consistent snapshot
    and an upstream with ordinary types, [getNode(type)] returns a node of
    the snapshot it leaves behind, whose [type] is the one asked for, when
    there is one, and [null] exactly when no listed node has that type. *)
Theorem getNode_agrees_with_list `{Platform}
    (type : string) (st st' : state) (v : JsVal) :
  ordinary_upstream ->
  snapshot_consistent (_cache (this st)) ->
  getNode type st = (Return v, st') ->
  (v ∈ nodes (_cache (this st')) /\ js_get v "type" = VStr type)
  \/ (v = VNull
      /\ forall n, n ∈ nodes (_cache (this st')) -> type_key n <> type).
Proof.
  intros Hup Hst. unfold getNode, bind.
  pose proof (getCatalog_consistent false st Hup Hst) as Hcons.
  pose proof (getCatalog_returns_current false st) as Hcur.
  destruct (getCatalog false st) as [[c|e] st1]; [|discriminate].
  specialize (Hcur st1 c eq_refl). cbn [snd] in Hcons.
  unfold ret. intros [= <- <-]. rewrite Hcur in Hcons.
  destruct Hcons as (_ & Hobj & Hlisted & Hindex).
  unfold js_get at 1.
  destruct (prop_lookup type (nodesByType c)) as [n|] eqn:Hk; cbn [default].
  - left. destruct (Hindex _ _ Hk) as [Hin Hkey].
    destruct (Hobj n Hin) as (o & t & b & -> & Ht & _).
    change (js_or (id (VObj o)) VNull) with (VObj o). rewrite Hcur.
    split; [exact Hin|].
    unfold type_key, js_get in Hkey. rewrite Ht in Hkey. cbn in Hkey.
    unfold js_get. rewrite Ht. cbn [default]. now subst t.
  - right. split; [reflexivity|]. rewrite Hcur.
    intros n Hin Hkey. specialize (Hlisted n Hin).
    rewrite Hkey in Hlisted. congruence.
Qed.

Lemma getNode_agrees_with_list_witness :
  exists v st',
    getNode (H := Demo.platform) "bar" CacheDemo.standard = (Return v, st')
    /\ ((v ∈ nodes (_cache (this st')) /\ js_get v "type" = VStr "bar")
        \/ (v = VNull
            /\ forall n, n ∈ nodes (_cache (this st')) ->
                 type_key (H := Demo.platform) n <> "bar")).
Proof.
  eexists. eexists.
  assert (Hrun : forall out,
            out = getNode (H := Demo.platform) "bar" CacheDemo.standard ->
            getNode (H := Demo.platform) "bar" CacheDemo.standard
            = (Return (match fst out with Return v => v | Throw _ => VNull end),
               snd out)).
  { intros out ->. vm_compute. reflexivity. }
  split; [exact (Hrun _ eq_refl)|].
  exact (getNode_agrees_with_list (H := Demo.platform) "bar"
           CacheDemo.standard _ _ demo_upstream_ordinary
           (default_cache_consistent (H := Demo.platform))
           (Hrun _ eq_refl)).
Defined.

(** ** Search results *)

Lemma str_index_from_bounds (q s : string) (i j : nat) :
  str_index_from i q s = Some j -> (i <= j <= i + String.length s)%nat.
Proof.
  revert i. induction s as [|c s IH]; intros i; cbn [str_index_from].
  - destruct (str_prefix q ""); [|discriminate].
    intros [= <-]. cbn [String.length]. lia.
  - destruct (str_prefix q (String c s)).
    + intros [= <-]. lia.
    + intros Hj%IH. cbn [String.length]. lia.
Qed.

Lemma score_bounds (idx len : Z) :
  (0 <= len)%Z ->
  (inject_Z idx <= inject_Z idx + (Z.min len 10000 # 10000))%Q
  /\ (inject_Z idx + (Z.min len 10000 # 10000) <= inject_Z (idx + 1))%Q
  /\ ((0 < len)%Z ->
      (inject_Z idx < inject_Z idx + (Z.min len 10000 # 10000))%Q).
Proof.
  intros Hlen. unfold Qle, Qlt, Qplus, inject_Z. cbn [Qnum Qden].
  repeat split; intros; lia.
Qed.

Lemma compare_score_total (a b : JsVal * Q) :
  compare_score a b <= 0 \/ compare_score b a <= 0.
Proof.
  unfold compare_score. rewrite <- (Qcompare_antisym (snd a) (snd b)).
  destruct (Qcompare (snd a) (snd b)); cbn [CompOpp]; lia.
Qed.

Lemma compare_score_le (a b : JsVal * Q) :
  in_order compare_score a b -> (snd a <= snd b)%Q.
Proof.
  unfold in_order, compare_score. intros Hcmp. apply Qle_alt.
  destruct (Qcompare (snd a) (snd b)); [discriminate|discriminate|lia].
Qed.

Lemma Sorted_take {A} (R : A -> A -> Prop) (n : nat) (l : list A) :
  Sorted R l -> Sorted R (take n l).
Proof.
  revert n. induction l as [|x l IH]; intros [|n] Hs; cbn [take];
    try constructor.
  - apply IH. now inversion Hs.
  - inversion Hs as [|? ? _ Hhd]; subst.
    destruct l as [|y l], n as [|n]; cbn [take]; constructor.
    now inversion Hhd.
Qed.

Lemma Sorted_impl_on {A} (R1 R2 : A -> A -> Prop) (P : A -> Prop)
    (l : list A) :
  (forall a b, P a -> P b -> R1 a b -> R2 a b) ->
  Forall P l -> Sorted R1 l -> Sorted R2 l.
Proof.
  intros Himpl HP Hs.
  induction Hs as [|x l _ IH Hhd]; [constructor|].
  apply Forall_cons in HP as [Hx Hl].
  constructor; [now apply IH|].
  destruct Hhd as [|y l Hxy]; constructor.
  apply Forall_cons in Hl as [Hy _]. now apply Himpl.
Qed.

Section SearchFacts.
Context `{Platform}.

Lemma score_node_spec (q : string) (mf cf : option string) (n : JsVal)
    (m : JsVal * Q) :
  score_node q mf cf n = Some m ->
  fst m = n /\ scored q m
  /\ passes_filter mf n "module" = true
  /\ passes_filter cf n "category" = true
  /\ str_includes (nodeHaystack n) q = true.
Proof.
  unfold score_node, scored, match_index, str_includes.
  destruct (passes_filter mf n "module"); [|discriminate].
  destruct (passes_filter cf n "category"); [|discriminate].
  cbn [andb]. destruct (str_index_of q (nodeHaystack n)) as [idx|] eqn:Hidx;
    [|discriminate].
  intros [= <-]. cbn [fst snd]. rewrite Hidx.
  repeat split. now exists idx.
Qed.

Lemma scored_order (q : string) (a b : JsVal * Q) :
  scored q a -> scored q b -> in_order compare_score a b ->
  earlier_match q a b.
Proof.
  intros (i & Hi & Ha) (j & Hj & Hb) Hle%compare_score_le.
  exists i, j. split; [exact Hi|]. split; [exact Hj|].
  destruct (le_lt_dec i j) as [Hij|Hji]; [exact Hij|exfalso].
  rewrite Ha, Hb in Hle.
  pose proof (str_index_from_bounds _ _ _ _ Hi) as Hbound.
  set (la := Z.of_nat (String.length (nodeHaystack (fst a)))) in *.
  set (lb := Z.of_nat (String.length (nodeHaystack (fst b)))) in *.
  assert (Hla : (0 < la)%Z) by lia.
  assert (Hlb : (0 <= lb)%Z) by lia.
  destruct (score_bounds (Z.of_nat i) la (Z.lt_le_incl _ _ Hla))
    as (_ & _ & Hlow).
  destruct (score_bounds (Z.of_nat j) lb Hlb) as (_ & Hup & _).
  specialize (Hlow Hla).
  assert (Hstep : (inject_Z (Z.of_nat j + 1) <= inject_Z (Z.of_nat i))%Q)
    by (rewrite <- Zle_Qle; lia).
  lra.
Qed.

Lemma ranked_matches_spec (q : string) (customOnly : bool)
    (module category : option string) (c : cache) :
  Forall (fun m => scored q m
                   /\ is_match q customOnly module category c (fst m))
    (ranked_matches q customOnly module category c)
  /\ Sorted (in_order compare_score)
       (ranked_matches q customOnly module category c).
Proof.
  unfold ranked_matches. split.
  - apply Forall_forall. intros m Hm.
    rewrite array_sort_perm in Hm.
    apply list_elem_of_omap in Hm as (n & Hn & Hscore).
    apply score_node_spec in Hscore as (Hfst & Hsc & Hmod & Hcat & Hinc).
    split; [exact Hsc|]. rewrite Hfst. unfold is_match.
    destruct customOnly.
    + apply list_elem_of_filter in Hn as [Hcustom Hn]. 
      apply Is_true_true in Hcustom. repeat split; try assumption.
      now intros _.
    + repeat split; try assumption. discriminate.
  - apply array_sort_sorted, compare_score_total.
Qed.

Lemma search_lim_le_200 (limit : option number) :
  (Z.to_nat (Qfloor (search_lim limit)) <= 200)%nat.
Proof.
  assert (Hle : (search_lim limit <= 200)%Q).
  { destruct limit as [[| | |q]|];
      [compute; discriminate ..|apply (search_lim_clamped q)
       |compute; discriminate]. }
  apply Qfloor_resp_le in Hle.
  change (Qfloor 200) with 200%Z in Hle. lia.
Qed.
End SearchFacts.

(** X12.  What [search] returns.  Every entry is the summary of a node of
    the snapshot the call leaves behind, one whose searched text holds the
    lower-cased, trimmed query, that passes the module and category
    filters, and that is marked custom when only custom nodes are asked
    for; the entries are ordered by where the query first occurs in the
    node's text, earliest first; there are at most as many as the clamped
    limit, never more than 200; and a blank query gives no entry and
    leaves the instance untouched, with no request sent. *)
Theorem search_returns_ranked_matches `{Platform}
    (query : string) (customOnly : bool) (module category : option string)
    (limit : option number) (st st' : state) (res : list JsVal) :
  search query customOnly module category limit st = (Return res, st') ->
  let q := toLowerCase (trim query) in
  (exists ms,
     res = map search_entry ms
     /\ Forall (fun m => is_match q customOnly module category
                           (_cache (this st')) (fst m)) ms
     /\ Sorted (earlier_match q) ms)
  /\ (length res <= Z.to_nat (Qfloor (search_lim limit)) <= 200)%nat
  /\ (q = "" -> res = [] /\ st' = st).
Proof.
  intros Hrun q.
  destruct (String.eqb_spec q "") as [Hq|Hq].
  - rewrite (search_blank _ _ _ _ _ _ Hq) in Hrun.
    injection Hrun as <- <-. split; [|split].
    + exists []. repeat split; constructor.
    + cbn [length]. split; [lia | apply search_lim_le_200].
    + now intros _.
  - destruct (search_returns _ _ _ _ _ _ _ _ Hq Hrun) as (c & Hcat & ->).
    fold q.
    rewrite (getCatalog_returns_current false st st' c Hcat).
    destruct (ranked_matches_spec q customOnly module category c)
      as [Hall Hsorted].
    split; [|split].
    + exists (take (Z.to_nat (Qfloor (search_lim limit)))
                (ranked_matches q customOnly module category c)).
      split; [reflexivity|]. split.
      * apply Forall_take. eapply Forall_impl; [exact Hall|].
        now intros m [_ Hm].
      * apply Sorted_take.
        apply (Sorted_impl_on (in_order compare_score) (earlier_match q)
                 (scored q)); [apply scored_order| |exact Hsorted].
        eapply Forall_impl; [exact Hall|]. now intros m [Hm _].
    + rewrite length_map, length_take.
      split; [apply Nat.le_min_l | apply search_lim_le_200].
    + intros Hq'. contradiction.
Qed.

Lemma search_returns_ranked_matches_witness :
  exists res st',
    search (H := Demo.platform) " Group" false None None (Some (Finite 3))
      CacheDemo.standard = (Return res, st')
    /\ (length res <= 3)%nat.
Proof.
  eexists. eexists.
  assert (Hrun : forall out,
            out = search (H := Demo.platform) " Group" false None None
                    (Some (Finite 3)) CacheDemo.standard ->
            search (H := Demo.platform) " Group" false None None
              (Some (Finite 3)) CacheDemo.standard
            = (Return (match fst out with Return v => v | Throw _ => [] end),
               snd out)).
  { intros out ->. vm_compute. reflexivity. }
  split; [exact (Hrun _ eq_refl)|].
  exact (proj1 (proj1 (proj2
           (search_returns_ranked_matches (H := Demo.platform) " Group" false
              None None (Some (Finite 3)) CacheDemo.standard _ _
              (Hrun _ eq_refl))))).
Defined.

(** ** Listing *)

Lemma filter_map_comm {A B} (f : A -> B) (p : B -> bool) (l : list A) :
  filter (fun b => p b) (map f l) = map f (filter (fun a => p (f a)) l).
Proof.
  induction l as [|x l IH]; [reflexivity|].
  cbn [map]. rewrite !filter_cons, IH.
  destruct (decide (p (f x))) as [Hp|Hp]; reflexivity.
Qed.

(** X13.  Listing only the custom nodes is listing all nodes and keeping
    the entries marked custom: from the same state, both calls leave the
    same state behind and fail alike, and the custom listing is the full
    listing filtered on [isCustom], in the same order. *)
Theorem list_customOnly_filters_full_list `{Platform} (st : state) :
  snd (catalog_list true st) = snd (catalog_list false st)
  /\ match catalog_list false st, catalog_list true st with
     | (Return full, _), (Return custom, _) =>
         custom = filter (fun e => truthy (js_get e "isCustom")) full
         /\ Forall (fun e => js_get e "isCustom" = VBool true) custom
     | (Throw e, _), (Throw e', _) => e = e'
     | _, _ => False
     end.
Proof.
  unfold catalog_list, bind, ret.
  destruct (getCatalog false st) as [[c|e] st1]; cbn [snd];
    [|split; reflexivity].
  split; [reflexivity|]. split.
  - rewrite filter_map_comm. reflexivity.
  - apply Forall_forall. intros e (n & -> & Hn)%list_elem_of_fmap.
    apply list_elem_of_filter in Hn as [Hcustom%Is_true_true _].
    cbn. now rewrite Hcustom.
Qed.

(** ** Request URLs *)

Lemma strip_trailing_slashes_last (s : string) :
  last_char (strip_trailing_slashes s) <> Some "/"%char.
Proof.
  induction s as [|c r IH]; cbn [strip_trailing_slashes]; [discriminate|].
  destruct (strip_trailing_slashes r) as [|d r'] eqn:Hr.
  - destruct (Ascii.eqb_spec c "/"); cbn [last_char]; congruence.
  - exact IH.
Qed.

Lemma strip_trailing_slashes_split (s : string) :
  exists n, s = strip_trailing_slashes s +:+ slashes n.
Proof.
  induction s as [|c r [n IH]]; [now exists O|].
  cbn [strip_trailing_slashes].
  destruct (strip_trailing_slashes r) as [|d r'] eqn:Hr.
  - destruct (Ascii.eqb_spec c "/") as [->|_].
    + exists (S n). change ("" +:+ slashes n) with (slashes n) in IH.
      now rewrite IH at 1.
    + exists n. change ("" +:+ slashes n) with (slashes n) in IH.
      now rewrite IH at 1.
  - exists n. now rewrite IH at 1.
Qed.

Lemma strip_trailing_slashes_slash (s : string) :
  strip_trailing_slashes (s +:+ "/") = strip_trailing_slashes s.
Proof.
  induction s as [|c r IH]; [reflexivity|].
  change (String c r +:+ "/") with (String c (r +:+ "/")).
  cbn [strip_trailing_slashes]. now rewrite IH.
Qed.

(** X14.  [joinUrl] puts exactly one slash between the base and a
    non-empty path: the base loses all its trailing slashes and nothing
    else, a path that starts with a slash is appended as it is and any
    other path after a slash, so that slashes at the end of the base never
    change the address; an empty path gives the stripped base. *)
Theorem joinUrl_one_separator (base path : string) :
  let b := strip_trailing_slashes base in
  (exists n, base = b +:+ slashes n)
  /\ last_char b <> Some "/"%char
  /\ joinUrl base "" = b
  /\ (path <> "" ->
      exists rest,
        (path = "/" +:+ rest
         \/ (path = rest /\ str_starts_with path "/" = false))
        /\ joinUrl base path = b +:+ "/" +:+ rest)
  /\ joinUrl (base +:+ "/") path = joinUrl base path.
Proof.
  intros b. split; [apply strip_trailing_slashes_split|].
  split; [apply strip_trailing_slashes_last|].
  split; [reflexivity|]. split.
  - intros Hpath. unfold joinUrl. fold b.
    destruct (String.eqb_spec path "") as [|_]; [contradiction|].
    destruct path as [|c rest]; [contradiction|].
    unfold str_starts_with. cbn [str_prefix].
    destruct (Ascii.eqb_spec "/" c) as [<-|Hc]; cbn [andb].
    + exists rest. split; [now left | reflexivity].
    + exists (String c rest). split; [|reflexivity].
      right. split; [reflexivity|].
      cbn [str_prefix]. now destruct (Ascii.eqb_spec "/" c).
  - unfold joinUrl. now rewrite strip_trailing_slashes_slash.
Qed.

(** ** The flow summary *)

Lemma filter_cons_bool {A} (p : A -> bool) (x : A) (l : list A) :
  filter (fun a => p a) (x :: l)
  = if p x then x :: filter (fun a => p a) l else filter (fun a => p a) l.
Proof.
  rewrite filter_cons. destruct (p x); reflexivity.
Qed.

Section FlowFacts.
Context `{Platform}.

Lemma count_type_other (key k : string) (t : list (string * counter)) :
  key <> k -> prop_lookup key (count_type k t) = prop_lookup key t.
Proof.
  intros Hne. unfold count_type.
  destruct (String.eqb k "__proto__"); [reflexivity|].
  destruct (prop_lookup k t) as [[[|n]|]|]; [| | |destruct (inherited_member k)];
    rewrite prop_lookup_set; now destruct (String.eqb_spec key k).
Qed.

Lemma count_type_same (key : string) (t : list (string * counter)) :
  inherited_member key = false -> well_counted key t ->
  prop_lookup key (count_type key t) = Some (Count (S (counted key t))).
Proof.
  intros Hord Hwell. unfold count_type, counted.
  destruct (String.eqb_spec key "__proto__") as [->|_]; [discriminate Hord|].
  destruct Hwell as [Hnone|[n Hsome]].
  - rewrite Hnone, Hord, prop_lookup_set. now rewrite String.eqb_refl.
  - rewrite Hsome, prop_lookup_set. now rewrite String.eqb_refl.
Qed.

Lemma tally_counts (key : string) (l : list JsVal)
    (t : list (string * counter)) :
  inherited_member key = false -> well_counted key t ->
  well_counted key (tally l t)
  /\ counted key (tally l t) = (counted key t + occurrences key l)%nat.
Proof.
  intros Hord. unfold tally, occurrences. revert t.
  induction l as [|n l IH]; intros t Hwell; cbn [fold_left].
  - split; [exact Hwell|]. cbn. lia.
  - rewrite filter_cons_bool.
    destruct (String.eqb_spec (js_String (js_get n "type")) key) as [Heq|Hne].
    + rewrite Heq.
      pose proof (count_type_same key t Hord Hwell) as Hstep.
      destruct (IH (count_type key t)) as [Hw Hc];
        [right; eexists; exact Hstep|].
      split; [exact Hw|]. rewrite Hc. unfold counted at 1. rewrite Hstep.
      cbn [length]. lia.
    + assert (Hkeep : prop_lookup key
                        (count_type (js_String (js_get n "type")) t)
                      = prop_lookup key t)
        by (apply count_type_other; congruence).
      destruct (IH (count_type (js_String (js_get n "type")) t)) as [Hw Hc].
      { unfold well_counted. now rewrite Hkeep. }
      split; [exact Hw|]. rewrite Hc. unfold counted. now rewrite Hkeep.
Qed.

Lemma three_way_partition (l : list JsVal) :
  Permutation
    (filter (fun n => type_is "tab" n) l
     ++ filter (fun n => negb (type_is "tab" n) && negb (type_is "subflow" n)) l
     ++ filter (fun n => type_is "subflow" n) l)
    l.
Proof.
  induction l as [|n l IH]; [reflexivity|].
  rewrite (filter_cons_bool (type_is "tab")),
    (filter_cons_bool (type_is "subflow")),
    (filter_cons_bool
       (fun n => negb (type_is "tab" n) && negb (type_is "subflow" n))).
  assert (Hexcl : type_is "tab" n = true -> type_is "subflow" n = false).
  { unfold type_is. destruct (js_get n "type"); try discriminate.
    intros ->%String.eqb_eq. reflexivity. }
  destruct (type_is "tab" n) eqn:Htab.
  - rewrite (Hexcl eq_refl). cbn [negb andb].
    change (Permutation (n :: (filter (fun a => type_is "tab" a) l
              ++ filter (fun a => negb (type_is "tab" a)
                                  && negb (type_is "subflow" a)) l
              ++ filter (fun a => type_is "subflow" a) l)) (n :: l)).
    now apply perm_skip.
  - destruct (type_is "subflow" n) eqn:Hsub; cbn [negb andb].
    + rewrite app_assoc. symmetry. apply Permutation_cons_app.
      rewrite <- app_assoc. symmetry. exact IH.
    + symmetry.
      change (Permutation (n :: l)
                (filter (fun a => type_is "tab" a) l
                 ++ n :: (filter (fun a => negb (type_is "tab" a)
                                       && negb (type_is "subflow" a)) l
                          ++ filter (fun a => type_is "subflow" a) l))).
      apply Permutation_cons_app. symmetry. exact IH.
Qed.
End FlowFacts.

(** X15.  [formatFlowsOutput] throws exactly when an element of the flows
    is [null] or [undefined], or the type of an element that is neither a
    tab nor a subflow cannot be converted to a property key (an object
    with a [toString] of its own, or an array holding one).  Otherwise it
    sorts every element into exactly one of tabs, nodes and subflows, so
    that the three counts add up to the number of elements, and
    [nodeTypes] counts the nodes by type: a type that is none of the names
    every object inherits has an entry exactly when a node has it, and
    the entry is the number of such nodes. *)
Theorem formatFlowsOutput_partitions_and_counts `{Platform}
    (flows : list JsVal) :
  match formatFlowsOutput flows with
  | None =>
      exists n,
        n ∈ flows
        /\ (nullish n = true
            \/ (type_is "tab" n = false /\ type_is "subflow" n = false
                /\ String_throws (js_get n "type") = true))
  | Some out =>
      Forall (fun n => nullish n = false) flows
      /\ Forall (fun n => String_throws (js_get n "type") = false)
           (fo_nodes out)
      /\ Permutation (fo_tabs out ++ fo_nodes out ++ fo_subflows out) flows
      /\ (fo_tabCount out + fo_nodeCount out + fo_subflowCount out
          = length flows)%nat
      /\ forall key, inherited_member key = false ->
           prop_lookup key (fo_nodeTypes out)
           = match occurrences key (fo_nodes out) with
             | O => None
             | S n => Some (Count (S n))
             end
  end.
Proof.
  unfold formatFlowsOutput.
  destruct (existsb nullish flows) eqn:Hnull.
  { apply existsb_exists in Hnull as (n & Hn & Hnull).
    exists n. split; [now apply list_elem_of_In | now left]. }
  destruct (existsb _ (filter _ flows)) eqn:Hthrows.
  { apply existsb_exists in Hthrows as (n & Hn & Hthrows).
    apply list_elem_of_In, list_elem_of_filter in Hn as [Hkind Hn].
    apply Is_true_true, andb_prop in Hkind as [Htab Hsub].
    apply negb_true_iff in Htab, Hsub.
    exists n. split; [exact Hn | right; repeat split; assumption]. }
  cbn [fo_tabs fo_nodes fo_subflows fo_tabCount fo_nodeCount
       fo_subflowCount fo_nodeTypes].
  split; [|split; [|split; [|split]]].
  - apply Forall_forall. intros n Hn%list_elem_of_In.
    destruct (nullish n) eqn:Hnn; [|reflexivity].
    assert (existsb nullish flows = true)
      by (apply existsb_exists; now exists n).
    congruence.
  - apply Forall_forall. intros n Hn%list_elem_of_In.
    destruct (String_throws (js_get n "type")) eqn:Hn'; [|reflexivity].
    rewrite <- Hthrows. symmetry. apply existsb_exists. now exists n.
  - apply three_way_partition.
  - rewrite <- (Permutation_length (three_way_partition flows)).
    rewrite !length_app. lia.
  - intros key Hord.
    destruct (tally_counts key
                (filter (fun n => negb (type_is "tab" n)
                                  && negb (type_is "subflow" n)) flows)
                [] Hord (or_introl eq_refl)) as [Hwell Hcount].
    fold (tally (filter (fun n => negb (type_is "tab" n)
                                  && negb (type_is "subflow" n)) flows) []).
    unfold counted in Hcount. cbn [prop_lookup] in Hcount.
    destruct Hwell as [Hnone|[n Hsome]].
    + rewrite Hnone in Hcount |- *. cbn in Hcount. now rewrite <- Hcount.
    + rewrite Hsome in Hcount |- *. cbn in Hcount. now rewrite <- Hcount.
Qed.

(** ** The constructor *)

Lemma parseCsv_entries (s : option string) (x : string) :
  x ∈ parseCsv s -> x <> "" /\ trim x = x.
Proof.
  unfold parseCsv. intros [Hne Hx]%list_elem_of_filter.
  apply list_elem_of_fmap in Hx as (y & -> & _). split.
  - intros Heq. rewrite Heq in Hne. exact Hne.
  - apply trim_idem.
Qed.

(** X16.  The configuration a new catalog starts with.  The threshold is
    what [parseInt] reads in the variable when the variable is set, not
    empty, and read as a number that is not negative; it is 60000 in
    every other case; so it is never negative.  The allow-list is the
    default one when its variable is unset or empty, and otherwise the
    entries of the variable between commas, trimmed, the empty ones
    dropped; so no entry is empty or has white space around it.  The
    snapshot is the empty one, and the catalog is verbose exactly when the
    configuration or the environment says so. *)
Theorem createNodeCatalog_configuration
    (nodeRedUrl_ : string) (verbose : bool) (ttlEnv : option string)
    (parsedTtl : option Z) (allowEnv verboseEnv : option string) :
  let self :=
    createNodeCatalog nodeRedUrl_ verbose ttlEnv parsedTtl allowEnv
      verboseEnv in
  (forall s ttlMs,
      ttlEnv = Some s -> s <> "" -> parsedTtl = Some ttlMs -> 0 <= ttlMs ->
      _ttlMs self = ttlMs)
  /\ (ttlEnv = None \/ ttlEnv = Some "" \/ parsedTtl = None
      \/ (exists ttlMs, parsedTtl = Some ttlMs /\ ttlMs < 0) ->
      _ttlMs self = 60000)
  /\ 0 <= _ttlMs self
  /\ (allowEnv = None \/ allowEnv = Some "" ->
      _customModules self = list_to_set defaultCustomModules)
  /\ (forall s, allowEnv = Some s -> s <> "" ->
        _customModules self = list_to_set (parseCsv (Some s)))
  /\ (forall m, m ∈ _customModules self -> m <> "" /\ trim m = m)
  /\ _cache self = default_cache
  /\ _verbose self = verbose || truthy_flag verboseEnv
  /\ config_nodeRedUrl self = nodeRedUrl_.
Proof.
  cbv zeta. unfold createNodeCatalog, new_NodeCatalog.
  cbn [_ttlMs _customModules _cache _verbose config_nodeRedUrl].
  split; [|split; [|split; [|split; [|split; [|split; [|split; [|split]]]]]]].
  - intros s ttlMs -> Hs -> Hge.
    destruct (String.eqb_spec s "") as [|_]; [contradiction|].
    destruct (Z.leb_spec 0 ttlMs); [reflexivity | lia].
  - intros [->|[->|[->|(ttlMs & -> & Hneg)]]]; try reflexivity.
    + destruct ttlEnv as [s|]; [|reflexivity].
      now destruct (String.eqb s "").
    + destruct ttlEnv as [s|]; [|reflexivity].
      destruct (String.eqb s ""); [reflexivity|].
      destruct (Z.leb_spec 0 ttlMs); [lia | reflexivity].
  - destruct ttlEnv as [s|]; [|lia].
    destruct (String.eqb s ""); [lia|].
    destruct parsedTtl as [ttlMs|]; [|lia].
    destruct (Z.leb_spec 0 ttlMs); lia.
  - intros [->| ->]; reflexivity.
  - intros s -> Hs.
    now destruct (String.eqb_spec s "") as [|_]; [contradiction|].
  - intros m Hm. apply elem_of_list_to_set in Hm.
    assert (Hdefault : forall m, m ∈ defaultCustomModules ->
                                 m <> "" /\ trim m = m).
    { intros m' Hm'. unfold defaultCustomModules in Hm'.
      apply elem_of_cons in Hm' as [->|Hm'];
        [split; [discriminate|reflexivity]|].
      apply list_elem_of_singleton in Hm' as ->.
      split; [discriminate|reflexivity]. }
    destruct allowEnv as [s|]; cbn [default] in Hm; [|now apply Hdefault].
    destruct (String.eqb s ""); cbn [default] in Hm; [now apply Hdefault|].
    now apply (parseCsv_entries (Some s)).
  - reflexivity.
  - reflexivity.
  - reflexivity.
Qed.

(** ** Normalised text *)

Lemma collapse_newlines_eq (a b c : ascii) (r : string) :
  collapse_newlines (String a (String b (String c r)))
  = if Ascii.eqb a lf && Ascii.eqb b lf && Ascii.eqb c lf
    then collapse_newlines (String b (String c r))
    else String a (collapse_newlines (String b (String c r))).
Proof. reflexivity. Qed.

Lemma three_newlines_eq (a b c : ascii) (r : string) :
  three_newlines (String a (String b (String c r)))
  = Ascii.eqb a lf && Ascii.eqb b lf && Ascii.eqb c lf
    || three_newlines (String b (String c r)).
Proof. reflexivity. Qed.

Lemma collapse_newlines_head (s : string) :
  head_char (collapse_newlines s) = head_char s.
Proof.
  induction s as [|a r1 IH]; [reflexivity|].
  destruct r1 as [|b [|c r2]]; [reflexivity..|].
  rewrite collapse_newlines_eq.
  destruct (Ascii.eqb_spec a lf) as [->|_]; [|reflexivity].
  destruct (Ascii.eqb_spec b lf) as [->|_]; [|reflexivity].
  destruct (Ascii.eqb_spec c lf) as [->|_]; [|reflexivity].
  cbn [andb]. rewrite IH. reflexivity.
Qed.

Lemma collapse_newlines_no_three (s : string) :
  three_newlines (collapse_newlines s) = false.
Proof.
  induction s as [|a r1 IH]; [reflexivity|].
  destruct r1 as [|b [|c r2]]; [reflexivity..|].
  rewrite collapse_newlines_eq.
  destruct (Ascii.eqb a lf && Ascii.eqb b lf && Ascii.eqb c lf) eqn:Hrun;
    [exact IH|].
  pose proof (collapse_newlines_head (String b (String c r2))) as Hhead.
  destruct (collapse_newlines (String b (String c r2))) as [|x t] eqn:Hrest;
    [reflexivity|].
  cbn [head_char] in Hhead. injection Hhead as ->.
  destruct t as [|y t']; [reflexivity|].
  rewrite three_newlines_eq, IH, orb_false_r.
  destruct (Ascii.eqb_spec a lf) as [->|_]; [|reflexivity].
  destruct (Ascii.eqb_spec b lf) as [->|_]; [|reflexivity].
  destruct (Ascii.eqb_spec y lf) as [->|_]; [|reflexivity].
  exfalso. cbn [andb] in Hrun.
  assert (Hc : c = lf); [|rewrite Hc, Ascii.eqb_refl in Hrun; discriminate].
  destruct r2 as [|d r3].
  - change (collapse_newlines (String lf (String c "")))
      with (String lf (String c "")) in Hrest.
    now injection Hrest.
  - rewrite collapse_newlines_eq in Hrest.
    pose proof (collapse_newlines_head (String c (String d r3))) as Hhead.
    destruct (Ascii.eqb lf lf && Ascii.eqb c lf && Ascii.eqb d lf) eqn:Hrun'.
    + apply andb_prop in Hrun' as [[_ Hcl]%andb_prop _].
      now apply Ascii.eqb_eq in Hcl.
    + assert (Hrest' : collapse_newlines (String c (String d r3))
                       = String lf t') by congruence.
      rewrite Hrest' in Hhead. cbn [head_char] in Hhead. congruence.
Qed.

Lemma three_newlines_tail (a : ascii) (r : string) :
  three_newlines (String a r) = false -> three_newlines r = false.
Proof.
  destruct r as [|b [|c r2]]; [reflexivity..|].
  rewrite three_newlines_eq. now intros [_ Hr]%orb_false_elim.
Qed.

Lemma three_newlines_trim_start (s : string) :
  three_newlines s = false -> three_newlines (trim_start s) = false.
Proof.
  induction s as [|a r IH]; [reflexivity|].
  intros Hs. cbn [trim_start]. destruct (is_space a); [|exact Hs].
  apply IH. now apply three_newlines_tail in Hs.
Qed.

Lemma trim_end_prefix (s : string) : exists t, s = trim_end s +:+ t.
Proof.
  induction s as [|a r [t IH]]; [now exists ""|].
  cbn [trim_end]. destruct (trim_end r) as [|b r'] eqn:Hr.
  - destruct (is_space a).
    + now exists (String a r).
    + exists r. reflexivity.
  - exists t. now rewrite IH at 1.
Qed.

Lemma three_newlines_prefix (p t : string) :
  three_newlines (p +:+ t) = false -> three_newlines p = false.
Proof.
  induction p as [|a p IH]; [reflexivity|].
  destruct p as [|b [|c p']]; [reflexivity..|].
  change (String a (String b (String c p')) +:+ t)
    with (String a (String b (String c (p' +:+ t)))).
  rewrite !three_newlines_eq. intros [Hrun Hrest]%orb_false_elim.
  rewrite Hrun. cbn [orb]. apply IH. exact Hrest.
Qed.

Lemma three_newlines_trim (s : string) :
  three_newlines s = false -> three_newlines (trim s) = false.
Proof.
  intros Hs%three_newlines_trim_start. unfold trim.
  destruct (trim_end_prefix (trim_start s)) as [t Ht].
  rewrite Ht in Hs. now apply three_newlines_prefix in Hs.
Qed.

Lemma collapse_blanks_no_tab (s : string) : no_tab (collapse_blanks s) = true.
Proof.
  unfold no_tab. induction s as [|c r IH]; [reflexivity|].
  cbn [collapse_blanks]. destruct (is_blank c) eqn:Hc.
  - destruct r as [|d r']; [reflexivity|].
    destruct (is_blank d); [exact IH|].
    cbn [str_forall]. now rewrite IH.
  - cbn [str_forall]. rewrite IH, andb_true_r.
    unfold is_blank in Hc. apply orb_false_elim in Hc as [_ Hc].
    now rewrite Hc.
Qed.

Lemma str_forall_collapse_newlines (p : ascii -> bool) (s : string) :
  str_forall p s = true -> str_forall p (collapse_newlines s) = true.
Proof.
  induction s as [|a r1 IH]; [reflexivity|].
  intros [Ha Hr]%andb_prop.
  destruct r1 as [|b [|c r2]].
  - cbn. now rewrite Ha.
  - cbn in Hr |- *. now rewrite Ha, Hr.
  - rewrite collapse_newlines_eq.
    destruct (Ascii.eqb a lf && Ascii.eqb b lf && Ascii.eqb c lf);
      [now apply IH|].
    cbn [str_forall]. rewrite Ha. now apply IH.
Qed.

Lemma str_forall_trim_start (p : ascii -> bool) (s : string) :
  str_forall p s = true -> str_forall p (trim_start s) = true.
Proof.
  induction s as [|a r IH]; [reflexivity|].
  intros Hs. cbn [trim_start]. destruct (is_space a); [|exact Hs].
  apply andb_prop in Hs as [_ Hr]. now apply IH.
Qed.

Lemma str_forall_trim_end (p : ascii -> bool) (s : string) :
  str_forall p s = true -> str_forall p (trim_end s) = true.
Proof.
  induction s as [|a r IH]; [reflexivity|].
  intros [Ha Hr]%andb_prop. cbn [trim_end]. specialize (IH Hr).
  destruct (trim_end r) as [|b r'].
  - destruct (is_space a); [reflexivity|]. cbn. now rewrite Ha.
  - cbn [str_forall] in IH |- *. now rewrite Ha.
Qed.

Lemma normalizeWhitespace_tidy (s : string) : tidy (normalizeWhitespace s).
Proof.
  unfold tidy, normalizeWhitespace. split; [apply trim_idem|]. split.
  - apply three_newlines_trim, collapse_newlines_no_three.
  - unfold trim, no_tab.
    apply str_forall_trim_end, str_forall_trim_start,
      str_forall_collapse_newlines, collapse_blanks_no_tab.
Qed.

(** X17.  The text of a help or template block is tidy, whichever way it
    was extracted: it has no white space at either end, no tab, and never
    three line feeds in a row; and so is every result of
    [normalizeWhitespace].  An empty block has the empty text. *)
Theorem htmlToText_tidy `{Platform} (html s : string) :
  tidy (htmlToText html)
  /\ tidy (normalizeWhitespace s)
  /\ htmlToText "" = "".
Proof.
  split; [|split; [apply normalizeWhitespace_tidy | reflexivity]].
  unfold htmlToText. destruct (String.eqb html "").
  - repeat split.
  - destruct (cheerioText html); apply normalizeWhitespace_tidy.
Qed.

(** ** What [evalAst] reads of the environment *)

Section EnvFacts.
Context `{Platform}.

Lemma evalAst_env_agree (n : node) :
  forall (env1 env2 : gmap string JsVal) (src : string),
    (forall x, x ∈ reads n -> env1 !! x = env2 !! x) ->
    evalAst n env1 src = evalAst n env2 src.
Proof.
  revert n. fix IH 1. intros n env1 env2 src Hagree.
  destruct n as [sp value|sp name|sp elements|sp properties| | sp operator argument
                |sp quasis expressions| | | | | | | | | | | | | | |];
    try reflexivity.
  - cbn [evalAst]. rewrite (Hagree name); [reflexivity|].
    cbn [reads]. apply list_elem_of_here.
  - cbn [evalAst]. f_equal. cbn [reads] in Hagree.
    induction elements as [|[e|] l IHl]; cbn [map]; [reflexivity| |].
    + f_equal.
      * apply IH. intros x Hx. apply Hagree. cbn [map concat].
        apply elem_of_app. now left.
      * apply IHl. intros x Hx. apply Hagree. cbn [map concat].
        apply elem_of_app. now right.
    + f_equal. apply IHl. intros x Hx. apply Hagree. exact Hx.
  - cbn [evalAst]. f_equal. cbn [reads] in Hagree.
    generalize (@nil (string * JsVal)).
    induction properties as [|prop l IHl]; intros out; cbn [fold_left];
      [reflexivity|].
    assert (Hl : forall x,
              x ∈ concat (map (fun prop => match prop with
                                           | Property _ _ _ value => reads value
                                           | _ => []
                                           end) l) ->
              env1 !! x = env2 !! x).
    { intros x Hx. apply Hagree. cbn [map concat].
      apply elem_of_app. now right. }
    destruct prop as [| | | |sp' computed key value| | | | | | | | | | | | | | | | |];
      try (apply IHl; exact Hl).
    rewrite (IH value env1 env2 src).
    + apply IHl. exact Hl.
    + intros x Hx. apply Hagree. cbn [map concat].
      apply elem_of_app. now left.
  - cbn [evalAst]. rewrite (IH argument env1 env2 src Hagree). reflexivity.
  - cbn [evalAst]. cbn [reads] in Hagree.
    replace (map (fun e => evalAst e env1 src) expressions)
      with (map (fun e => evalAst e env2 src) expressions); [reflexivity|].
    induction expressions as [|e l IHl]; cbn [map]; [reflexivity|].
    f_equal.
    + symmetry. apply IH. intros x Hx. apply Hagree. cbn [map concat].
      apply elem_of_app. now left.
    + apply IHl. intros x Hx. apply Hagree. cbn [map concat].
      apply elem_of_app. now right.
Qed.
End EnvFacts.

(** X18.  [evalAst] depends on the environment only through the names it
    reads: two environments that agree on the identifiers in value
    position of a node give the same value, and a node that reads no name
    evaluates alike in every environment. *)
Theorem evalAst_reads_only_its_names `{Platform}
    (n : node) (env1 env2 : gmap string JsVal) (src : string) :
  (forall x, x ∈ reads n -> env1 !! x = env2 !! x) ->
  evalAst n env1 src = evalAst n env2 src
  /\ (reads n = [] -> forall env, evalAst n env src = evalAst n ∅ src).
Proof.
  intros Hagree. split; [now apply evalAst_env_agree|].
  intros Hnone env. apply evalAst_env_agree.
  rewrite Hnone. intros x Hx. now apply elem_of_nil in Hx.
Qed.

Lemma evalAst_reads_only_its_names_witness :
  evalAst (H := Demo.platform) EnvDemo.options EnvDemo.call_env ""
  = evalAst (H := Demo.platform) EnvDemo.options
      (<["type" := VStr "bar"]> EnvDemo.call_env) "".
Proof.
  refine (proj1 (evalAst_reads_only_its_names (H := Demo.platform)
                   EnvDemo.options EnvDemo.call_env
                   (<["type" := VStr "bar"]> EnvDemo.call_env) "" _)).
  intros x Hx. symmetry. apply lookup_insert_ne.
  cbn in Hx. apply elem_of_cons in Hx as [->|Hx]; [discriminate|].
  apply list_elem_of_singleton in Hx as ->. discriminate.
Defined.

(** ** Marking custom nodes *)

(** X19.  [_markCustom] changes nothing of a node but [isCustom], which
    it sets to a boolean: true exactly when the node's package is on the
    allow-list, or its module name starts with an entry of the list. *)
Theorem markCustom_sets_only_isCustom `{Platform}
    (customModules : gset string) (o : list (string * JsVal)) :
  let node := VObj o in
  let pkg := field_text node "modulePackage" in
  let module := field_text node "module" in
  (forall f, f <> "isCustom" ->
     js_get (_markCustom customModules node) f = js_get node f)
  /\ exists isCustom,
       js_get (_markCustom customModules node) "isCustom" = VBool isCustom
       /\ (isCustom = true <->
           (pkg <> "" /\ pkg ∈ customModules)
           \/ (module <> ""
               /\ exists m, m ∈ customModules
                            /\ str_starts_with module m = true)).
Proof.
  intros node pkg module. split.
  - intros f Hf. unfold _markCustom, node, js_get.
    rewrite prop_lookup_set. now destruct (String.eqb_spec f "isCustom").
  - exists (is_custom customModules node). split.
    + unfold _markCustom, node, js_get. rewrite prop_lookup_set. reflexivity.
    + unfold is_custom. fold pkg module.
      rewrite orb_true_iff, !andb_true_iff, !negb_true_iff.
      rewrite bool_decide_eq_true, existsb_exists.
      split; intros [[Hne Hin]|[Hne Hin]].
      * left. split; [|exact Hin]. now apply String.eqb_neq.
      * right. split; [now apply String.eqb_neq|].
        destruct Hin as (m & Hm & Hstart). exists m. split; [|exact Hstart].
        apply elem_of_elements. now apply list_elem_of_In.
      * left. split; [now apply String.eqb_neq | exact Hin].
      * right. split; [now apply String.eqb_neq|].
        destruct Hin as (m & Hm & Hstart). exists m. split; [|exact Hstart].
        apply list_elem_of_In. now apply elem_of_elements.
Qed.

(** ** The limit and the query of a search *)

Lemma search_depends_on_floor `{Platform}
    (query : string) (customOnly : bool) (module category : option string)
    (a b : option number) (st : state) :
  Qfloor (search_lim a) = Qfloor (search_lim b) ->
  search query customOnly module category a st
  = search query customOnly module category b st.
Proof. intros Hfloor. unfold search. now rewrite Hfloor. Qed.

(** X20.  A finite limit is clamped, not rejected: a limit below 1 gives
    what the limit 1 gives, a limit above 200 what 200 gives, a limit in
    between what its integer part gives, and no limit what 25 gives. *)
Theorem search_limit_is_clamped `{Platform}
    (query : string) (customOnly : bool) (module category : option string)
    (x : Q) (st : state) :
  let run limit := search query customOnly module category limit st in
  run None = run (Some (Finite 25))
  /\ ((x < 1)%Q -> run (Some (Finite x)) = run (Some (Finite 1)))
  /\ ((200 < x)%Q -> run (Some (Finite x)) = run (Some (Finite 200)))
  /\ ((1 <= x <= 200)%Q ->
      run (Some (Finite x)) = run (Some (Finite (inject_Z (Qfloor x))))).
Proof.
  cbv zeta. destruct (search_lim_clamped x) as (_ & Hmid & Hlow & Hhigh).
  split; [|split; [|split]].
  - apply search_depends_on_floor. reflexivity.
  - intros Hx. apply search_depends_on_floor.
    rewrite (Qfloor_comp _ _ (Hlow Hx)). reflexivity.
  - intros Hx. apply search_depends_on_floor.
    rewrite (Qfloor_comp _ _ (Hhigh Hx)). reflexivity.
  - intros Hx. apply search_depends_on_floor.
    rewrite (Qfloor_comp _ _ (Hmid Hx)).
    assert (Hfloor : (1 <= inject_Z (Qfloor x) <= 200)%Q).
    { destruct Hx as [Hone Htwo]. split.
      - apply Qfloor_resp_le in Hone. change (Qfloor 1) with 1%Z in Hone.
        rewrite Zle_Qle in Hone. exact Hone.
      - exact (Qle_trans _ _ _ (Qfloor_le x) Htwo). }
    destruct (search_lim_clamped (inject_Z (Qfloor x))) as (_ & Hmid' & _).
    rewrite (Qfloor_comp _ _ (Hmid' Hfloor)). now rewrite Qfloor_Z.
Qed.

Lemma lower_char_idem (c : ascii) : lower_char (lower_char c) = lower_char c.
Proof. destruct c as [[] [] [] [] [] [] [] []]; reflexivity. Qed.

Lemma is_space_lower_char (c : ascii) : is_space (lower_char c) = is_space c.
Proof. destruct c as [[] [] [] [] [] [] [] []]; reflexivity. Qed.

Lemma toLowerCase_idem (s : string) :
  toLowerCase (toLowerCase s) = toLowerCase s.
Proof.
  induction s as [|c r IH]; [reflexivity|].
  cbn [toLowerCase]. now rewrite lower_char_idem, IH.
Qed.

Lemma toLowerCase_trim_start (s : string) :
  toLowerCase (trim_start s) = trim_start (toLowerCase s).
Proof.
  induction s as [|c r IH]; [reflexivity|].
  cbn [toLowerCase trim_start]. rewrite is_space_lower_char.
  destruct (is_space c); [exact IH | reflexivity].
Qed.

Lemma toLowerCase_trim_end (s : string) :
  toLowerCase (trim_end s) = trim_end (toLowerCase s).
Proof.
  induction s as [|c r IH]; [reflexivity|].
  cbn [toLowerCase trim_end]. rewrite <- IH, is_space_lower_char.
  destruct (trim_end r) as [|d r']; cbn [toLowerCase].
  - destruct (is_space c); reflexivity.
  - reflexivity.
Qed.

Lemma toLowerCase_trim (s : string) :
  toLowerCase (trim s) = trim (toLowerCase s).
Proof.
  unfold trim. now rewrite toLowerCase_trim_end, toLowerCase_trim_start.
Qed.

(** X21.  A search ignores the case of the query and the white space
    around it: the query in lower case, and the trimmed query, give the
    same outcome and the same state as the query itself. *)
Theorem search_ignores_case_and_padding `{Platform}
    (query : string) (customOnly : bool) (module category : option string)
    (limit : option number) (st : state) :
  search (toLowerCase query) customOnly module category limit st
  = search query customOnly module category limit st
  /\ search (trim query) customOnly module category limit st
     = search query customOnly module category limit st.
Proof.
  unfold search. split.
  - now rewrite <- toLowerCase_trim, toLowerCase_idem.
  - now rewrite trim_idem.
Qed.

(** ** What a call may change *)

Section CallFacts.
Context `{Platform}.

Lemma refresh_state (st : state) :
  snd (refresh st) = requested st
  \/ exists c, snd (refresh st) = set_cache c (ticked (requested st)).
Proof.
  destruct (failure (upstream (requests st))) as [e|] eqn:Hf.
  - left. now rewrite (refresh_failure st e Hf).
  - destruct (upstream (requests st))
      as [reason|[|] status statusText body [html|]] eqn:Hans;
      try discriminate Hf.
    right. rewrite (refresh_success st _ _ _ _ Hans). now eexists.
Qed.

Lemma refresh_frugal (st : state) :
  requests (snd (refresh st)) = S (requests st)
  /\ config_nodeRedUrl (this (snd (refresh st))) = config_nodeRedUrl (this st)
  /\ _ttlMs (this (snd (refresh st))) = _ttlMs (this st)
  /\ _customModules (this (snd (refresh st))) = _customModules (this st)
  /\ _verbose (this (snd (refresh st))) = _verbose (this st)
  /\ (ticks st <= ticks (snd (refresh st)) <= S (ticks st))%nat.
Proof.
  destruct (refresh_state st) as [->|[c ->]];
    cbn [requested set_cache ticked this requests ticks config_nodeRedUrl
         _ttlMs _customModules _verbose];
    repeat split; lia.
Qed.

Lemma consulted_frugal (force : bool) (st : state) :
  this (consulted force st) = this st
  /\ requests (consulted force st) = requests st
  /\ (ticks st <= ticks (consulted force st) <= S (ticks st))%nat.
Proof.
  unfold consulted. destruct (force || _);
    cbn [ticked this requests ticks]; repeat split; lia.
Qed.

Lemma getCatalog_frugal (force : bool) (st : state) :
  frugal st (snd (getCatalog force st)).
Proof.
  rewrite getCatalog_unfold.
  destruct (consulted_frugal force st) as (Hthis & Hreq & Hticks).
  destruct (stale force st).
  - pose proof (refresh_frugal (consulted force st))
      as (Hr & Hurl & Httl & Hcm & Hv & Ht).
    replace (snd (match refresh (consulted force st) with
                  | (Return _, st') => (Return (_cache (this st')), st')
                  | (Throw e, st') => (Throw e, st')
                  end))
      with (snd (refresh (consulted force st)))
      by (now destruct (refresh (consulted force st)) as [[c|e] st']).
    unfold frugal. rewrite Hr, Hurl, Httl, Hcm, Hv, Hthis, Hreq.
    repeat split; try lia.
  - cbn [snd]. unfold frugal. rewrite Hthis, Hreq. repeat split; lia.
Qed.
End CallFacts.

(** X22.  No call changes the configuration of a catalog; each call sends
    at most one request and reads the clock at most twice; and the
    snapshot is the one held before unless a request was sent. *)
Theorem calls_are_frugal `{Platform} (c : call) (st : state) :
  frugal st (perform c st).
Proof.
  destruct (perform_state c st) as [->|[->|[force ->]]].
  - unfold frugal. repeat split; lia.
  - pose proof (refresh_frugal st) as (Hr & Hurl & Httl & Hcm & Hv & Ht).
    unfold frugal. rewrite Hr, Hurl, Httl, Hcm, Hv.
    repeat split; try lia.
  - apply getCatalog_frugal.
Qed.

(** ** Attaching documentation *)

Section AttachFacts.
Context `{Platform}.

Lemma attach_help_lookup (moduleName type helpHtml : string)
    (table : list (string * JsVal)) :
  type <> "__proto__" ->
  prop_lookup type
    (attach_help (splitModuleName moduleName) table (type, helpHtml))
  = Some (VObj (obj_assign (record_or_new table type)
                  (splitModuleName moduleName ++
                   [("help", VObj [("html", VStr helpHtml);
                                   ("text", VStr (htmlToText helpHtml))])]))).
Proof.
  intros Hproto. unfold attach_help. rewrite prop_lookup_obj_set.
  rewrite String.eqb_refl.
  now destruct (String.eqb_spec type "__proto__").
Qed.

Lemma attach_template_lookup (moduleName type templateHtml : string)
    (table : list (string * JsVal)) :
  type <> "__proto__" ->
  prop_lookup type
    (attach_template (splitModuleName moduleName) table (type, templateHtml))
  = Some (VObj (obj_assign (record_or_new table type)
                  (splitModuleName moduleName ++
                   [("template",
                      VObj [("html", VStr templateHtml);
                            ("text", VStr (htmlToText templateHtml))]);
                    ("templateFields", extractTemplateFields templateHtml)]))).
Proof.
  intros Hproto. unfold attach_template. rewrite prop_lookup_obj_set.
  rewrite String.eqb_refl.
  now destruct (String.eqb_spec type "__proto__").
Qed.
End AttachFacts.

(** X23.  Attaching a help or a template block to a type never touches
    what a registration wrote: the record of the type keeps every field
    but the attribution and the documentation fields written, a new
    record has its [type] alone besides them, and the records of the
    other types stay as they are. *)
Theorem documentation_keeps_registration_fields `{Platform}
    (moduleName type html : string) (nodesByType : list (string * JsVal)) :
  inherited_member type = false ->
  table_ok nodesByType ->
  let prev := VObj (record_or_new nodesByType type) in
  let helped :=
    attach_help (splitModuleName moduleName) nodesByType (type, html) in
  let templated :=
    attach_template (splitModuleName moduleName) nodesByType (type, html) in
  (exists record,
     prop_lookup type helped = Some record
     /\ js_get record "module" = VStr moduleName
     /\ js_get record "help"
        = VObj [("html", VStr html); ("text", VStr (htmlToText html))]
     /\ forall f, f ∉ help_fields -> js_get record f = js_get prev f)
  /\ (exists record,
        prop_lookup type templated = Some record
        /\ js_get record "module" = VStr moduleName
        /\ js_get record "template"
           = VObj [("html", VStr html); ("text", VStr (htmlToText html))]
        /\ js_get record "templateFields" = extractTemplateFields html
        /\ forall f, f ∉ template_fields -> js_get record f = js_get prev f)
  /\ (forall other, other <> type ->
        prop_lookup other helped = prop_lookup other nodesByType
        /\ prop_lookup other templated = prop_lookup other nodesByType)
  /\ (prop_lookup type nodesByType = None ->
      prev = VObj [("type", VStr type)]).
Proof.
  intros Hord Hok prev helped templated.
  assert (Hproto : type <> "__proto__") by (intros ->; discriminate Hord).
  destruct (splitModuleName_shape moduleName) as (pkg & set & Hshape).
  split; [|split; [|split]].
  - eexists. split; [now apply attach_help_lookup|].
    rewrite Hshape. rewrite !js_get_obj_assign.
    split; [reflexivity|]. split; [reflexivity|].
    intros f Hf. rewrite js_get_obj_assign, assigned_untouched; [reflexivity|].
    exact Hf.
  - eexists. split; [now apply attach_template_lookup|].
    rewrite Hshape. rewrite !js_get_obj_assign.
    split; [reflexivity|]. split; [reflexivity|]. split; [reflexivity|].
    intros f Hf. rewrite js_get_obj_assign, assigned_untouched; [reflexivity|].
    exact Hf.
  - intros other Hother. unfold helped, templated, attach_help, attach_template.
    rewrite !prop_lookup_obj_set.
    destruct (String.eqb_spec other type); [contradiction|]. now split.
  - intros Hnone. unfold prev, record_or_new. now rewrite Hnone.
Qed.

Lemma documentation_keeps_registration_fields_witness :
  exists record,
    prop_lookup "bar"
      (attach_help (H := Demo.platform) (splitModuleName "demo/docs")
         (p_nodesByType (parseNodesHtml (H := Demo.platform)
                           Demo.html_wrap false))
         ("bar", "<p>Bar</p>")) = Some record
    /\ js_get record "category" = VStr "group".
Proof.
  assert (Hok : table_ok (p_nodesByType (parseNodesHtml (H := Demo.platform)
                                           Demo.html_wrap false)))
    by (apply (parseNodesHtml_table_ok (H := Demo.platform));
        vm_compute; reflexivity).
  destruct (documentation_keeps_registration_fields (H := Demo.platform)
              "demo/docs" "bar" "<p>Bar</p>" _ eq_refl Hok)
    as ((record & Hrecord & _ & _ & Hkeep) & _).
  exists record. split; [exact Hrecord|].
  rewrite Hkeep.
  - vm_compute. reflexivity.
  - unfold help_fields. rewrite !not_elem_of_cons.
    repeat split; try discriminate. apply not_elem_of_nil.
Defined.
